(** * PatternmakerSVG: the path-editing engine of [src/index.tsx]

    A shallow embedding of the Bezier path editor: the geometry helpers, the
    event handlers of the [App] component read as transitions on the
    component's state, and the undo/redo history.

    JavaScript numbers are IEEE-754 binary64 values. The handlers are written
    once against an interface of the numeric operations they use and are then
    read in two ways:
    - over [float] (Rocq's primitive binary64 numbers), which is what the
      program computes, rounding, overflow and NaN included;
    - over [R], the real-valued coordinates of the specification's data
      model, where the algebraic content of the geometry can be stated
      exactly.
    Statements that only depend on the control flow are proved for every
    interpretation of the interface. *)

From Stdlib Require Import Strings.String.
From Stdlib Require Import Floats.
From Stdlib Require Import ZArith List Bool Lia Reals Lra.
Import ListNotations.

Set Implicit Arguments.

(** ** Numbers *)

(** The operators and the exactly specified [Math] functions. [fromZ] reads an
    integer literal; a decimal literal such as [0.25] or [1e-3] is the
    correctly rounded quotient of two integers, which is what [ndiv] of the two
    (exactly representable) integers returns in binary64 too. *)
Class Number (num : Type) : Type := {
  fromZ : Z -> num;
  nadd : num -> num -> num;
  nsub : num -> num -> num;
  nmul : num -> num -> num;
  ndiv : num -> num -> num;
  nlt : num -> num -> bool;
  neq : num -> num -> bool;
  Math_abs : num -> num;
  Math_sqrt : num -> num;
  Math_max : num -> num -> num;
  Math_min : num -> num -> num
}.

(** The global [Infinity]. *)
Class Infinite (num : Type) : Type := {
  Infinity : num
}.

(** The [Math] functions that ECMAScript leaves implementation-approximated. *)
Class MathLib (num : Type) : Type := {
  Math_hypot : num -> num -> num;
  Math_atan2 : num -> num -> num;
  Math_cos : num -> num;
  Math_sin : num -> num;
  Math_round : num -> num
}.

Declare Scope num_scope.
Delimit Scope num_scope with num.
Notation "# z" := (fromZ z%Z) (at level 1, format "# z") : num_scope.
Infix "+" := nadd : num_scope.
Infix "-" := nsub : num_scope.
Infix "*" := nmul : num_scope.
Infix "/" := ndiv : num_scope.
Infix "<?" := nlt : num_scope.
Notation "a >? b" := (nlt b a) (only parsing) : num_scope.
Infix "=?" := neq : num_scope.

(** ** Outcome of running a handler *)

(** A handler either completes; or throws because it read a property of
    [undefined] (an array index out of range); or returns after storing in the
    array of nodes an object that is not a node; or is a loop that the model
    stopped after the given number of rounds.

    [NotANode] is the outcome of one path of the program: a drag of a handle
    whose target index is past the end of the array (see [handleMouseMove]).
    The handler returns there, but the array it sets holds an object with
    that handle as its only property. The state below is typed as the
    program declares it, [Node[]], and cannot hold that array, so the run is
    not followed further (the render that comes next throws in
    [generatePathData], which reads the [anchor] and a handle of every entry
    of a path that has a segment). *)
Inductive result (A : Type) : Type :=
| Ok (a : A)
| TypeError
| NotANode
| OutOfFuel.

Arguments TypeError {A}.
Arguments NotANode {A}.
Arguments OutOfFuel {A}.

Definition bind {A B : Type} (r : result A) (k : A -> result B) : result B :=
  match r with
  | Ok a => k a
  | TypeError => TypeError
  | NotANode => NotANode
  | OutOfFuel => OutOfFuel
  end.

Notation "'let*' v := r 'in' k" := (bind r (fun v => k))
  (at level 10, v name, r at level 100, k at level 200).

(** [arr[i]] followed by a property read. *)
Definition get {A : Type} (arr : list A) (i : nat) : result A :=
  match nth_error arr i with
  | Some a => Ok a
  | None => TypeError
  end.

(** [arr[i] = v] on an index inside the array. *)
Fixpoint update {A : Type} (arr : list A) (i : nat) (v : A) : list A :=
  match arr, i with
  | [], _ => []
  | _ :: rest, O => v :: rest
  | a :: rest, S j => a :: update rest j v
  end.

(** [arr.slice(a, b)] for [0 <= a]. *)
Definition slice {A : Type} (a b : nat) (arr : list A) : list A :=
  firstn (b - a) (skipn a arr).

(** [arr.splice(i, 0, v)]. *)
Definition splice_in {A : Type} (i : nat) (v : A) (arr : list A) : list A :=
  firstn i arr ++ v :: skipn i arr.

(** [for (let i = from; i < from + count; i++) body], threading the variables
    the body assigns. *)
Fixpoint for_loop {S : Type} (from count : nat)
    (body : nat -> S -> result S) (s : S) : result S :=
  match count with
  | O => Ok s
  | Datatypes.S c => let* s' := body from s in for_loop (Datatypes.S from) c body s'
  end.

(** ** Data model *)

Record Point (num : Type) : Type := mkPoint { x : num; y : num }.

Inductive NodeType : Type := corner | smooth.

Record Node (num : Type) : Type := mkNode {
  anchor : Point num;
  ctrl1 : Point num;
  ctrl2 : Point num;
  type : NodeType
}.

(** A history entry. Entries hold node values here; module [Heap] below reads
    them as arrays of references to node objects, which matters for the one
    handler that writes to nodes it did not copy (insertion on a segment). *)
Record HistoryState (num : Type) : Type := mkHistoryState {
  hs_nodes : list (Node num);
  hs_isPathClosed : bool
}.

Record ViewState (num : Type) : Type := mkViewState {
  zoom : num;
  pan : Point num
}.

Inductive DragType : Type := drag_anchor | drag_ctrl1 | drag_ctrl2.

Inductive SymmetryState : Type := inactive | picking_edge.

(** Keys of the [translations] table passed to [alert]. *)
Inductive MessageKey : Type := notStraightEdgeError.

(** The bounding rectangle of the canvas element ([svgRef.current]). *)
Record Rect (num : Type) : Type := mkRect { rect_left : num; rect_top : num }.

(** A mouse or wheel event: the fields the handlers read. *)
Record MouseEvent (num : Type) : Type := mkMouseEvent {
  clientX : num;
  clientY : num;
  ctrlKey : bool;
  deltaY : num
}.

(** The state of the [App] component: its [useState] cells and [useRef]
    boxes, the canvas element, and the messages shown with [alert]. *)
Record AppState (num : Type) : Type := mkAppState {
  nodes : list (Node num);
  isPathClosed : bool;
  draggedInfo : option (nat * DragType);
  selectedNodeIndex : option nat;
  isSnapEnabled : bool;
  viewState : ViewState num;
  isPanning : bool;
  isSpacePressed : bool;
  symmetryState : SymmetryState;
  svgRef : option (Rect num);
  wasDragging : bool;
  mouseDownPos : option (Point num);
  panStartPos : option (Point num);
  history : list (HistoryState num);
  historyIndex : nat;
  alerts : list MessageKey
}.

Definition NodeType_eqb (a b : NodeType) : bool :=
  match a, b with
  | corner, corner | smooth, smooth => true
  | _, _ => false
  end.

(** ** Geometry helpers and constants *)

Section Kernel.
Context {num : Type} {N : Number num}.
Local Open Scope num_scope.

Definition SMOOTHING_FACTOR : num := #25 / #100.
Definition INSERT_THRESHOLD : num := #10.
Definition DRAG_THRESHOLD : num := #3.
Definition SNAP_GRID_SIZE : num := #10.
Definition CANVAS_WIDTH : num := #4000.
Definition CANVAS_HEIGHT : num := #4000.
Definition MIN_ZOOM : num := #1 / #10.
Definition MAX_ZOOM : num := #10.

(** [Math.pow(v, 2)]: the square (exact for an exponent of 2 in the engines'
    [pow], and the correctly rounded result in any case). *)
Definition Math_pow2 (v : num) : num := v * v.

Definition getPointOnCubicBezier (t : num) (p0 p1 p2 p3 : Point num) : Point num :=
  let u := #1 - t in
  let tt := t * t in
  let uu := u * u in
  let uuu := uu * u in
  let ttt := tt * t in
  {| x := uuu * x p0 + #3 * uu * t * x p1 + #3 * u * tt * x p2 + ttt * x p3;
     y := uuu * y p0 + #3 * uu * t * y p1 + #3 * u * tt * y p2 + ttt * y p3 |}.

Record Closest : Type := mkClosest { distance : num; closest_t : num }.

Definition steps : nat := 30.

(** The parameter of sample [i]. *)
Definition sample_t (i : nat) : num := #(Z.of_nat i) / #(Z.of_nat steps).

(** One round of the sampling loop on [(minDistanceSq, bestT)]. *)
Definition sample_step (point p0 p1 p2 p3 : Point num) (i : nat)
    (acc : num * num) : num * num :=
  let t := sample_t i in
  let pt := getPointOnCubicBezier t p0 p1 p2 p3 in
  let distSq := Math_pow2 (x pt - x point) + Math_pow2 (y pt - y point) in
  if distSq <? fst acc then (distSq, t) else acc.

Definition findClosestPointOnCubicBezier {I : Infinite num}
    (point p0 p1 p2 p3 : Point num) : Closest :=
  let r := fold_left (fun acc i => sample_step point p0 p1 p2 p3 i acc)
                     (seq 0 (S steps)) (Infinity, #0) in
  {| distance := Math_sqrt (fst r); closest_t := snd r |}.

(** De Casteljau's construction, as [handleMouseDown] writes it out. *)
Definition lerp (t : num) (a b : Point num) : Point num :=
  {| x := (#1 - t) * x a + t * x b; y := (#1 - t) * y a + t * y b |}.

(** The four points of segment [i] of a node array, as the insertion and the
    symmetry scans and [generatePathData] read them. *)
Definition segment (arr : list (Node num)) (i : nat)
  : result (Point num * Point num * Point num * Point num) :=
  let* n1 := get arr i in
  let* n2 := get arr ((i + 1) mod length arr) in
  Ok (anchor n1, ctrl2 n1, ctrl1 n2, anchor n2).

End Kernel.

(** ** State updates *)

Section Setters.
Context {num : Type}.

(** The [useState] setters and the writes to the [useRef] boxes: each replaces
    one cell of the state. *)
Definition setNodes (v : list (Node num)) (s : AppState num) : AppState num :=
  mkAppState v (isPathClosed s) (draggedInfo s) (selectedNodeIndex s)
    (isSnapEnabled s) (viewState s) (isPanning s) (isSpacePressed s)
    (symmetryState s) (svgRef s) (wasDragging s) (mouseDownPos s)
    (panStartPos s) (history s) (historyIndex s) (alerts s).

Definition setIsPathClosed (v : bool) (s : AppState num) : AppState num :=
  mkAppState (nodes s) v (draggedInfo s) (selectedNodeIndex s)
    (isSnapEnabled s) (viewState s) (isPanning s) (isSpacePressed s)
    (symmetryState s) (svgRef s) (wasDragging s) (mouseDownPos s)
    (panStartPos s) (history s) (historyIndex s) (alerts s).

Definition setDraggedInfo (v : option (nat * DragType)) (s : AppState num) : AppState num :=
  mkAppState (nodes s) (isPathClosed s) v (selectedNodeIndex s)
    (isSnapEnabled s) (viewState s) (isPanning s) (isSpacePressed s)
    (symmetryState s) (svgRef s) (wasDragging s) (mouseDownPos s)
    (panStartPos s) (history s) (historyIndex s) (alerts s).

Definition setSelectedNodeIndex (v : option nat) (s : AppState num) : AppState num :=
  mkAppState (nodes s) (isPathClosed s) (draggedInfo s) v (isSnapEnabled s)
    (viewState s) (isPanning s) (isSpacePressed s) (symmetryState s)
    (svgRef s) (wasDragging s) (mouseDownPos s) (panStartPos s) (history s)
    (historyIndex s) (alerts s).

Definition setIsSnapEnabled (v : bool) (s : AppState num) : AppState num :=
  mkAppState (nodes s) (isPathClosed s) (draggedInfo s) (selectedNodeIndex s)
    v (viewState s) (isPanning s) (isSpacePressed s) (symmetryState s)
    (svgRef s) (wasDragging s) (mouseDownPos s) (panStartPos s) (history s)
    (historyIndex s) (alerts s).

Definition setViewState (v : ViewState num) (s : AppState num) : AppState num :=
  mkAppState (nodes s) (isPathClosed s) (draggedInfo s) (selectedNodeIndex s)
    (isSnapEnabled s) v (isPanning s) (isSpacePressed s) (symmetryState s)
    (svgRef s) (wasDragging s) (mouseDownPos s) (panStartPos s) (history s)
    (historyIndex s) (alerts s).

Definition setIsPanning (v : bool) (s : AppState num) : AppState num :=
  mkAppState (nodes s) (isPathClosed s) (draggedInfo s) (selectedNodeIndex s)
    (isSnapEnabled s) (viewState s) v (isSpacePressed s) (symmetryState s)
    (svgRef s) (wasDragging s) (mouseDownPos s) (panStartPos s) (history s)
    (historyIndex s) (alerts s).

Definition setIsSpacePressed (v : bool) (s : AppState num) : AppState num :=
  mkAppState (nodes s) (isPathClosed s) (draggedInfo s) (selectedNodeIndex s)
    (isSnapEnabled s) (viewState s) (isPanning s) v (symmetryState s)
    (svgRef s) (wasDragging s) (mouseDownPos s) (panStartPos s) (history s)
    (historyIndex s) (alerts s).

Definition setSymmetryState (v : SymmetryState) (s : AppState num) : AppState num :=
  mkAppState (nodes s) (isPathClosed s) (draggedInfo s) (selectedNodeIndex s)
    (isSnapEnabled s) (viewState s) (isPanning s) (isSpacePressed s) v
    (svgRef s) (wasDragging s) (mouseDownPos s) (panStartPos s) (history s)
    (historyIndex s) (alerts s).

Definition set_wasDragging (v : bool) (s : AppState num) : AppState num :=
  mkAppState (nodes s) (isPathClosed s) (draggedInfo s) (selectedNodeIndex s)
    (isSnapEnabled s) (viewState s) (isPanning s) (isSpacePressed s)
    (symmetryState s) (svgRef s) v (mouseDownPos s) (panStartPos s)
    (history s) (historyIndex s) (alerts s).

Definition set_mouseDownPos (v : option (Point num)) (s : AppState num) : AppState num :=
  mkAppState (nodes s) (isPathClosed s) (draggedInfo s) (selectedNodeIndex s)
    (isSnapEnabled s) (viewState s) (isPanning s) (isSpacePressed s)
    (symmetryState s) (svgRef s) (wasDragging s) v (panStartPos s) (history s)
    (historyIndex s) (alerts s).

Definition set_panStartPos (v : option (Point num)) (s : AppState num) : AppState num :=
  mkAppState (nodes s) (isPathClosed s) (draggedInfo s) (selectedNodeIndex s)
    (isSnapEnabled s) (viewState s) (isPanning s) (isSpacePressed s)
    (symmetryState s) (svgRef s) (wasDragging s) (mouseDownPos s) v
    (history s) (historyIndex s) (alerts s).

Definition setHistory (v : list (HistoryState num)) (s : AppState num) : AppState num :=
  mkAppState (nodes s) (isPathClosed s) (draggedInfo s) (selectedNodeIndex s)
    (isSnapEnabled s) (viewState s) (isPanning s) (isSpacePressed s)
    (symmetryState s) (svgRef s) (wasDragging s) (mouseDownPos s)
    (panStartPos s) v (historyIndex s) (alerts s).

Definition setHistoryIndex (v : nat) (s : AppState num) : AppState num :=
  mkAppState (nodes s) (isPathClosed s) (draggedInfo s) (selectedNodeIndex s)
    (isSnapEnabled s) (viewState s) (isPanning s) (isSpacePressed s)
    (symmetryState s) (svgRef s) (wasDragging s) (mouseDownPos s)
    (panStartPos s) (history s) v (alerts s).

Definition set_alerts (v : list MessageKey) (s : AppState num) : AppState num :=
  mkAppState (nodes s) (isPathClosed s) (draggedInfo s) (selectedNodeIndex s)
    (isSnapEnabled s) (viewState s) (isPanning s) (isSpacePressed s)
    (symmetryState s) (svgRef s) (wasDragging s) (mouseDownPos s)
    (panStartPos s) (history s) (historyIndex s) v.

(** [alert(t(key))]. *)
Definition alert (key : MessageKey) (s : AppState num) : AppState num :=
  set_alerts (alerts s ++ [key]) s.

Definition set_ctrl1 (p : Point num) (n : Node num) : Node num :=
  {| anchor := anchor n; ctrl1 := p; ctrl2 := ctrl2 n; type := type n |}.

Definition set_ctrl2 (p : Point num) (n : Node num) : Node num :=
  {| anchor := anchor n; ctrl1 := ctrl1 n; ctrl2 := p; type := type n |}.

Definition set_type (k : NodeType) (n : Node num) : Node num :=
  {| anchor := anchor n; ctrl1 := ctrl1 n; ctrl2 := ctrl2 n; type := k |}.

End Setters.
(** ** History *)

Section History.
Context {num : Type}.

(** [useState] initial values; the pan is re-centred by [mountEffect]. *)
Definition initialView {N : Number num} : ViewState num :=
  {| zoom := (#25 / #100)%num; pan := {| x := (#0)%num; y := (#0)%num |} |}.

Definition initialState {N : Number num} (svg : option (Rect num)) : AppState num :=
  {| nodes := []; isPathClosed := false; draggedInfo := None;
     selectedNodeIndex := None; isSnapEnabled := false;
     viewState := initialView; isPanning := false; isSpacePressed := false;
     symmetryState := inactive; svgRef := svg; wasDragging := false;
     mouseDownPos := None; panStartPos := None;
     history := [ {| hs_nodes := []; hs_isPathClosed := false |} ];
     historyIndex := 0; alerts := [] |}.

Definition updateStateAndHistory (newNodes : list (Node num))
    (newIsPathClosed : bool) (s : AppState num) : AppState num :=
  let newHistory :=
    slice 0 (historyIndex s + 1) (history s)
      ++ [ {| hs_nodes := newNodes; hs_isPathClosed := newIsPathClosed |} ] in
  setHistoryIndex (length newHistory - 1)
    (setHistory newHistory
      (setIsPathClosed newIsPathClosed (setNodes newNodes s))).

Definition undo (s : AppState num) : result (AppState num) :=
  if 0 <? historyIndex s then
    let newIndex := historyIndex s - 1 in
    let* entry := get (history s) newIndex in
    Ok (setIsPathClosed (hs_isPathClosed entry)
         (setNodes (hs_nodes entry) (setHistoryIndex newIndex s)))
  else Ok s.

(** [history.length - 1] is [-1] on an empty history, below every index, as
    the truncated subtraction is. *)
Definition redo (s : AppState num) : result (AppState num) :=
  if historyIndex s <? length (history s) - 1 then
    let newIndex := historyIndex s + 1 in
    let* entry := get (history s) newIndex in
    Ok (setIsPathClosed (hs_isPathClosed entry)
         (setNodes (hs_nodes entry) (setHistoryIndex newIndex s)))
  else Ok s.

End History.

(** ** The symmetry tool *)

Section Symmetry.
Context {num : Type} {N : Number num} {I : Infinite num}.
Local Open Scope num_scope.

(** The scan for the closest edge: one round on
    [(closestEdgeIndex, minDistance)]. *)
Definition edge_step (point : Point num) (arr : list (Node num)) (i : nat)
    (acc : Z * num) : result (Z * num) :=
  let* ni := get arr i in
  let* nj := get arr ((i + 1) mod length arr) in
  let p0 := anchor ni in
  let p3 := anchor nj in
  let p1 := ctrl2 ni in
  let p2 := ctrl1 nj in
  let d := distance (findClosestPointOnCubicBezier point p0 p1 p2 p3) in
  if d <? snd acc then Ok (Z.of_nat i, d) else Ok acc.

Definition closestEdge (point : Point num) (arr : list (Node num))
  : result (Z * num) :=
  for_loop 0 (length arr) (edge_step point arr) ((-1)%Z, Infinity).

Definition isStraight (pA pB ctrlA ctrlB : Point num) : bool :=
  (Math_abs ((x pB - x pA) * (y ctrlA - y pA) - (y pB - y pA) * (x ctrlA - x pA))
     <? #1 / #1000)
  && (Math_abs ((x pB - x pA) * (y ctrlB - y pA) - (y pB - y pA) * (x ctrlB - x pA))
     <? #1 / #1000).

Definition A_coeff (pA pB : Point num) : num := y pB - y pA.
Definition B_coeff (pA pB : Point num) : num := x pA - x pB.
Definition C_coeff (pA pB : Point num) : num := x pB * y pA - y pB * x pA.
Definition D_coeff (pA pB : Point num) : num :=
  A_coeff pA pB * A_coeff pA pB + B_coeff pA pB * B_coeff pA pB.

Definition reflectPoint (pA pB : Point num) (p : Point num) : Point num :=
  if D_coeff pA pB =? #0 then {| x := x p; y := y p |}
  else
    let val := A_coeff pA pB * x p + B_coeff pA pB * y p + C_coeff pA pB in
    {| x := x p - #2 * A_coeff pA pB * val / D_coeff pA pB;
       y := y p - #2 * B_coeff pA pB * val / D_coeff pA pB |}.

Definition reflectNode (pA pB : Point num) (node : Node num) : Node num :=
  {| anchor := reflectPoint pA pB (anchor node);
     ctrl1 := reflectPoint pA pB (ctrl1 node);
     ctrl2 := reflectPoint pA pB (ctrl2 node);
     type := type node |}.

(** A division that is refused on a zero divisor, and [reflectPoint] with
    its two divisions checked that way. *)
Definition checked_div (a b : num) : option num :=
  if b =? #0 then None else Some (a / b).

Definition reflectPointChecked (pA pB : Point num) (p : Point num)
  : option (Point num) :=
  if D_coeff pA pB =? #0 then Some {| x := x p; y := y p |}
  else
    let val := A_coeff pA pB * x p + B_coeff pA pB * y p + C_coeff pA pB in
    match checked_div (#2 * A_coeff pA pB * val) (D_coeff pA pB),
          checked_div (#2 * B_coeff pA pB * val) (D_coeff pA pB) with
    | Some qx, Some qy => Some {| x := x p - qx; y := y p - qy |}
    | _, _ => None
    end.

(** [while (currentIndex !== axisNode1Index)]: at most [fuel] rounds. *)
Fixpoint collectBody (fuel : nat) (arr : list (Node num))
    (axisNode1Index currentIndex : nat) (bodyPath : list (Node num))
  : result (list (Node num)) :=
  if (currentIndex =? axisNode1Index)%nat then Ok bodyPath
  else
    match fuel with
    | O => OutOfFuel
    | S fuel' =>
        let* n := get arr currentIndex in
        collectBody fuel' arr axisNode1Index
          ((currentIndex + 1) mod length arr) (bodyPath ++ [n])
    end.

(** Swap of the handles of a reversed node. *)
Definition swapHandles (node : Node num) : Node num :=
  {| anchor := anchor node; ctrl1 := ctrl2 node; ctrl2 := ctrl1 node;
     type := type node |}.

Definition handleSymmetryEdgePick (point : Point num) (s : AppState num)
  : result (AppState num) :=
  if negb (isPathClosed s) || (length (nodes s) <? 3)%nat then
    Ok (setSymmetryState inactive s)
  else
    let* scan := closestEdge point (nodes s) in
    let closestEdgeIndex := fst scan in
    if (closestEdgeIndex =? -1)%Z then Ok (setSymmetryState inactive s)
    else
      let axisNode1Index := Z.to_nat closestEdgeIndex in
      let axisNode2Index := (Z.to_nat closestEdgeIndex + 1) mod length (nodes s) in
      let* nA := get (nodes s) axisNode1Index in
      let* nB := get (nodes s) axisNode2Index in
      let pA := anchor nA in
      let pB := anchor nB in
      let ctrlA := ctrl2 nA in
      let ctrlB := ctrl1 nB in
      if negb (isStraight pA pB ctrlA ctrlB) then
        Ok (setSymmetryState inactive (alert notStraightEdgeError s))
      else
        let* body := collectBody (length (nodes s)) (nodes s)
                       axisNode1Index axisNode2Index [] in
        let bodyPath := body ++ [nA] in
        let intermediateNodes := slice 1 (length bodyPath - 1) bodyPath in
        let mirroredIntermediateNodes :=
          map swapHandles (rev (map (reflectNode pA pB) intermediateNodes)) in
        let newA := set_type smooth (set_ctrl2 (reflectPoint pA pB (ctrl1 nA)) nA) in
        let newB := set_type smooth (set_ctrl1 (reflectPoint pA pB (ctrl2 nB)) nB) in
        let combinedNodes :=
          [newA] ++ mirroredIntermediateNodes ++ [newB] ++ intermediateNodes in
        Ok (setSymmetryState inactive (updateStateAndHistory combinedNodes true s)).

End Symmetry.

(** ** Pointer, wheel and toolbar handlers *)

Section Handlers.
Context {num : Type} {N : Number num}.
Local Open Scope num_scope.

(** The effect run on mount, with the canvas element's client size. *)
Definition mountEffect (clientWidth clientHeight : num) (s : AppState num)
  : AppState num :=
  match svgRef s with
  | None => s
  | Some _ =>
      let vs := viewState s in
      setViewState
        {| zoom := zoom vs;
           pan := {| x := (clientWidth - CANVAS_WIDTH * zoom vs) / #2;
                     y := (clientHeight - CANVAS_HEIGHT * zoom vs) / #2 |} |} s
  end.

(** Device to world coordinates under a view. *)
Definition toWorld (d : Point num) (vs : ViewState num) : Point num :=
  {| x := (x d - x (pan vs)) / zoom vs; y := (y d - y (pan vs)) / zoom vs |}.

(** [getSVGCoordinates] on a mouse event ([null] without a canvas element). *)
Definition getSVGCoordinates (event : MouseEvent num) (s : AppState num)
  : option (Point num) :=
  match svgRef s with
  | None => None
  | Some rect =>
      let svgX := clientX event - rect_left rect in
      let svgY := clientY event - rect_top rect in
      Some (toWorld {| x := svgX; y := svgY |} (viewState s))
  end.

Definition snap {M : MathLib num} (s : AppState num) (value : num) : num :=
  if isSnapEnabled s then Math_round (value / SNAP_GRID_SIZE) * SNAP_GRID_SIZE
  else value.

(** *** Insertion on a segment (the body of [if (bestInsertPos)]) *)

Definition insertOnSegment (arr : list (Node num)) (index : nat) (t : num)
  : result (list (Node num)) :=
  let next := (index + 1) mod length arr in
  let* n0 := get arr index in
  let* n1 := get arr next in
  let p0 := anchor n0 in
  let p1 := ctrl2 n0 in
  let p2 := ctrl1 n1 in
  let p3 := anchor n1 in
  let p01 := lerp t p0 p1 in
  let p12 := lerp t p1 p2 in
  let p23 := lerp t p2 p3 in
  let p012 := lerp t p01 p12 in
  let p123 := lerp t p12 p23 in
  let newAnchor := lerp t p012 p123 in
  let newNode :=
    {| anchor := newAnchor; ctrl1 := p012; ctrl2 := p123; type := smooth |} in
  let newNodes := arr in
  let* m0 := get newNodes index in
  let newNodes := update newNodes index (set_ctrl2 p01 m0) in
  let* m1 := get newNodes next in
  let newNodes := update newNodes next (set_ctrl1 p23 m1) in
  Ok (splice_in (index + 1) newNode newNodes).

(** The scan for the segment to insert on: one round on
    [(bestInsertPos, minDistance)]. *)
Definition insert_step {I : Infinite num} (point : Point num)
    (arr : list (Node num)) (i : nat) (acc : option (nat * num) * num)
  : result (option (nat * num) * num) :=
  let* ni := get arr i in
  let* nj := get arr ((i + 1) mod length arr) in
  let p0 := anchor ni in
  let p1 := ctrl2 ni in
  let p2 := ctrl1 nj in
  let p3 := anchor nj in
  let c := findClosestPointOnCubicBezier point p0 p1 p2 p3 in
  if distance c <? snd acc then Ok (Some (i, closest_t c), distance c)
  else Ok acc.

(** The scan over anchors and handles, from the last node down; [k] nodes
    remain to be tested. *)
Fixpoint hitTest {M : MathLib num} (point : Point num) (s : AppState num)
    (k : nat) : result (option (nat * DragType)) :=
  match k with
  | O => Ok None
  | S i =>
      let* node := get (nodes s) i in
      let anchorDist :=
        Math_hypot (x point - x (anchor node)) (y point - y (anchor node)) in
      if anchorDist <? #10 / zoom (viewState s) then Ok (Some (i, drag_anchor))
      else if isPathClosed s then
        let ctrl1Dist :=
          Math_hypot (x point - x (ctrl1 node)) (y point - y (ctrl1 node)) in
        let ctrl2Dist :=
          Math_hypot (x point - x (ctrl2 node)) (y point - y (ctrl2 node)) in
        if ctrl1Dist <? #8 / zoom (viewState s) then Ok (Some (i, drag_ctrl1))
        else if ctrl2Dist <? #8 / zoom (viewState s) then Ok (Some (i, drag_ctrl2))
        else hitTest point s i
      else hitTest point s i
  end.

Definition handleMouseDown {I : Infinite num} {M : MathLib num}
    (event : MouseEvent num) (s : AppState num) : result (AppState num) :=
  if isSpacePressed s then
    Ok (set_panStartPos (Some {| x := clientX event; y := clientY event |})
         (setIsPanning true s))
  else
    match getSVGCoordinates event s with
    | None => Ok s
    | Some point =>
        let s := set_wasDragging false (set_mouseDownPos (Some point) s) in
        match symmetryState s with
        | picking_edge =>
            let* s := handleSymmetryEdgePick point s in
            Ok (set_wasDragging true s)
        | inactive =>
            let* hit := hitTest point s (length (nodes s)) in
            match hit with
            | Some (i, role) =>
                Ok (setSelectedNodeIndex (Some i) (setDraggedInfo (Some (i, role)) s))
            | None =>
                let none := setSelectedNodeIndex None (setDraggedInfo None s) in
                if (0 <? length (nodes s))%nat then
                  let* scan :=
                    for_loop 0
                      (if isPathClosed s then length (nodes s)
                       else length (nodes s) - 1)
                      (insert_step point (nodes s))
                      (@None (nat * num), INSERT_THRESHOLD / zoom (viewState s)) in
                  match fst scan with
                  | Some (index, t) =>
                      let* newNodes := insertOnSegment (nodes s) index t in
                      Ok (setDraggedInfo (Some ((index + 1)%nat, drag_anchor))
                           (setSelectedNodeIndex (Some (index + 1)%nat)
                             (updateStateAndHistory newNodes (isPathClosed s) s)))
                  | None => Ok none
                  end
                else Ok none
            end
        end
    end.

(** *** Dragging *)

(** The node under the pointer after a move to [snappedPoint]. *)
Definition dragNode {M : MathLib num} (role : DragType) (snappedPoint : Point num)
    (node : Node num) : Node num :=
  match role with
  | drag_anchor =>
      let dx := x snappedPoint - x (anchor node) in
      let dy := y snappedPoint - y (anchor node) in
      {| anchor := snappedPoint;
         ctrl1 := {| x := x (ctrl1 node) + dx; y := y (ctrl1 node) + dy |};
         ctrl2 := {| x := x (ctrl2 node) + dx; y := y (ctrl2 node) + dy |};
         type := type node |}
  | drag_ctrl1 =>
      let node := set_ctrl1 snappedPoint node in
      match type node with
      | smooth =>
          let angle := Math_atan2 (y (anchor node) - y snappedPoint)
                                  (x (anchor node) - x snappedPoint) in
          let d2 := Math_hypot (x (anchor node) - x (ctrl2 node))
                               (y (anchor node) - y (ctrl2 node)) in
          set_ctrl2 {| x := x (anchor node) + d2 * Math_cos angle;
                       y := y (anchor node) + d2 * Math_sin angle |} node
      | corner => node
      end
  | drag_ctrl2 =>
      let node := set_ctrl2 snappedPoint node in
      match type node with
      | smooth =>
          let angle := Math_atan2 (y (anchor node) - y snappedPoint)
                                  (x (anchor node) - x snappedPoint) in
          let d1 := Math_hypot (x (anchor node) - x (ctrl1 node))
                               (y (anchor node) - y (ctrl1 node)) in
          set_ctrl1 {| x := x (anchor node) + d1 * Math_cos angle;
                       y := y (anchor node) + d1 * Math_sin angle |} node
      | corner => node
      end
  end.

(** [newNodes[index]] as the drag step uses it: [{ ...newNodes[index] }]
    copies the target node. When [index] is past the end of the array (the
    node was deleted while the button was down), the copy is the empty
    object: a drag of the anchor then reads [node.anchor.x] and throws; a drag
    of a handle assigns the handle, finds no [type] to compare with
    ['smooth'], and stores the object at [index]. *)
Definition dragTarget {A : Type} (arr : list A) (index : nat) (role : DragType)
  : result A :=
  match nth_error arr index with
  | Some node => Ok node
  | None =>
      match role with
      | drag_anchor => TypeError
      | drag_ctrl1 | drag_ctrl2 => NotANode
      end
  end.

Definition handleMouseMove {M : MathLib num} (event : MouseEvent num)
    (s : AppState num) : result (AppState num) :=
  match (if isPanning s then panStartPos s else None) with
  | Some start =>
      let dx := clientX event - x start in
      let dy := clientY event - y start in
      let vs := viewState s in
      Ok (set_panStartPos (Some {| x := clientX event; y := clientY event |})
           (setViewState
              {| zoom := zoom vs;
                 pan := {| x := x (pan vs) + dx; y := y (pan vs) + dy |} |} s))
  | None =>
      match mouseDownPos s with
      | None => Ok s
      | Some down =>
          match getSVGCoordinates event s with
          | None => Ok s
          | Some point =>
              let dist := Math_hypot (x point - x down) (y point - y down) in
              let s := if dist >? DRAG_THRESHOLD / zoom (viewState s)
                       then set_wasDragging true s else s in
              match draggedInfo s with
              | None => Ok s
              | Some (index, role) =>
                  let* node := dragTarget (nodes s) index role in
                  let snappedPoint :=
                    {| x := snap s (x point); y := snap s (y point) |} in
                  Ok (setNodes
                        (update (nodes s) index (dragNode role snappedPoint node)) s)
              end
          end
      end
  end.

(** *** Appending a node (the click branch of [handleMouseUp]) *)

(** The node literal created for a click at [snappedPoint]. *)
Definition newCornerNode (snappedPoint : Point num) : Node num :=
  {| anchor := snappedPoint;
     ctrl1 := {| x := x snappedPoint - #50; y := y snappedPoint |};
     ctrl2 := {| x := x snappedPoint + #50; y := y snappedPoint |};
     type := corner |}.

(** The body of [if (newNodes.length > 0)]: [updatedPrevNode] and the new node
    with its incoming handle set. *)
Definition smoothJoint {M : MathLib num} (prevNode newNode : Node num)
  : Node num * Node num :=
  let dx := x (anchor newNode) - x (anchor prevNode) in
  let dy := y (anchor newNode) - y (anchor prevNode) in
  let angle := Math_atan2 dy dx in
  let dist := Math_hypot dx dy * SMOOTHING_FACTOR in
  let updatedPrevNode :=
    set_ctrl2 {| x := x (anchor prevNode) + dist * Math_cos angle;
                 y := y (anchor prevNode) + dist * Math_sin angle |} prevNode in
  let newNode :=
    set_ctrl1 {| x := x (anchor newNode) - dist * Math_cos angle;
                 y := y (anchor newNode) - dist * Math_sin angle |} newNode in
  (updatedPrevNode, newNode).

Definition appendNode {M : MathLib num} (snappedPoint : Point num)
    (s : AppState num) : result (AppState num) :=
  let newNode := newCornerNode snappedPoint in
  let newNodes := nodes s in
  let* joined :=
    if (0 <? length newNodes)%nat then
      let* prevNode := get newNodes (length newNodes - 1) in
      let (updatedPrevNode, newNode) := smoothJoint prevNode newNode in
      Ok (update newNodes (length newNodes - 1) updatedPrevNode, newNode)
    else Ok (newNodes, newNode) in
  let newNodes := fst joined ++ [snd joined] in
  Ok (setSelectedNodeIndex (Some (length newNodes - 1)%nat)
       (updateStateAndHistory newNodes (isPathClosed s) s)).

Definition handleMouseUp {M : MathLib num} (event : MouseEvent num)
    (s : AppState num) : result (AppState num) :=
  let s := if isPanning s then set_panStartPos None (setIsPanning false s) else s in
  match getSVGCoordinates event s with
  | None => Ok s
  | Some point =>
      let* s' :=
        match draggedInfo s with
        | Some _ => Ok (updateStateAndHistory (nodes s) (isPathClosed s) s)
        | None =>
            if negb (wasDragging s) && negb (ctrlKey event)
               && negb (isSpacePressed s)
            then appendNode {| x := snap s (x point); y := snap s (y point) |} s
            else Ok s
        end in
      Ok (set_mouseDownPos None (setDraggedInfo None s'))
  end.

Definition handleMouseLeave (s : AppState num) : AppState num :=
  let s' :=
    match draggedInfo s with
    | Some _ => updateStateAndHistory (nodes s) (isPathClosed s) s
    | None => s
    end in
  set_panStartPos None
    (setIsPanning false (set_mouseDownPos None (setDraggedInfo None s'))).

(** *** Zoom *)

Definition handleWheel (event : MouseEvent num) (s : AppState num)
  : AppState num :=
  match svgRef s with
  | None => s
  | Some rect =>
      let mouseX := clientX event - rect_left rect in
      let mouseY := clientY event - rect_top rect in
      let vs := viewState s in
      let zoomFactor := #11 / #10 in
      let newZoom :=
        if deltaY event <? #0 then zoom vs * zoomFactor else zoom vs / zoomFactor in
      let clampedZoom := Math_max MIN_ZOOM (Math_min MAX_ZOOM newZoom) in
      if clampedZoom =? zoom vs then s
      else
        let newPanX := mouseX - (mouseX - x (pan vs)) * (clampedZoom / zoom vs) in
        let newPanY := mouseY - (mouseY - y (pan vs)) * (clampedZoom / zoom vs) in
        setViewState
          {| zoom := clampedZoom; pan := {| x := newPanX; y := newPanY |} |} s
  end.

(** *** Toolbar commands *)

(** [nodes.filter((_, i) => i !== k)]. *)
Fixpoint removeAt {A : Type} (k : nat) (arr : list A) : list A :=
  match arr, k with
  | [], _ => []
  | _ :: rest, O => rest
  | a :: rest, S j => a :: removeAt j rest
  end.

Definition deleteSelectedNode (s : AppState num) : AppState num :=
  match selectedNodeIndex s with
  | Some k =>
      let newNodes := removeAt k (nodes s) in
      setSelectedNodeIndex None
        (updateStateAndHistory newNodes
           (if (length newNodes <? 3)%nat then false else isPathClosed s) s)
  | None => s
  end.

Definition toggleClosePath {M : MathLib num} (s : AppState num)
  : result (AppState num) :=
  let newNodes := nodes s in
  let newIsPathClosed := negb (isPathClosed s) in
  let* newNodes :=
    if newIsPathClosed && (2 <=? length newNodes)%nat then
      let* firstNode := get newNodes 0 in
      let* lastNode := get newNodes (length newNodes - 1) in
      let dx := x (anchor firstNode) - x (anchor lastNode) in
      let dy := y (anchor firstNode) - y (anchor lastNode) in
      let angle := Math_atan2 dy dx in
      let dist := Math_hypot dx dy * SMOOTHING_FACTOR in
      let updatedLastNode :=
        set_ctrl2 {| x := x (anchor lastNode) + dist * Math_cos angle;
                     y := y (anchor lastNode) + dist * Math_sin angle |} lastNode in
      let updatedFirstNode :=
        set_ctrl1 {| x := x (anchor firstNode) - dist * Math_cos angle;
                     y := y (anchor firstNode) - dist * Math_sin angle |} firstNode in
      Ok (update (update newNodes 0 updatedFirstNode)
                 (length newNodes - 1) updatedLastNode)
    else Ok newNodes in
  Ok (updateStateAndHistory newNodes newIsPathClosed s).

Definition clearCanvas (s : AppState num) : AppState num :=
  setSelectedNodeIndex None (updateStateAndHistory [] false s).

Definition toggleApplySymmetry (s : AppState num) : AppState num :=
  match symmetryState s with
  | inactive => setSelectedNodeIndex None (setSymmetryState picking_edge s)
  | picking_edge => setSymmetryState inactive s
  end.

End Handlers.

(** ** Node objects and aliasing *)

(** The handlers above compute with node values. In the program a node is an
    object, an array holds references to node objects, and [[...nodes]] copies
    the array but not the objects. This module reads the operations that write
    nodes at that level: [objects] is the store of node objects (a reference is
    an index into it), and the live array and the history entries hold
    references. *)
Module Heap.
Section Store.
Context {num : Type} {N : Number num}.
Local Open Scope num_scope.

Record State : Type := mkState {
  objects : list (Node num);
  nodes : list nat;
  isPathClosed : bool;
  history : list (list nat * bool);
  historyIndex : nat
}.

Definition initial : State :=
  {| objects := []; nodes := []; isPathClosed := false;
     history := [ ([], false) ]; historyIndex := 0 |}.

(** An object literal or a spread copy: a new object. *)
Definition alloc (n : Node num) (objs : list (Node num)) : list (Node num) * nat :=
  (objs ++ [n], length objs).

(** The node values an array of references denotes. *)
Fixpoint read (objs : list (Node num)) (arr : list nat) : result (list (Node num)) :=
  match arr with
  | [] => Ok []
  | r :: rest =>
      let* n := get objs r in
      let* ns := read objs rest in
      Ok (n :: ns)
  end.

(** The path a history entry shows when it is restored. *)
Definition snapshot (s : State) (k : nat) : result (list (Node num) * bool) :=
  let* entry := get (history s) k in
  let* ns := read (objects s) (fst entry) in
  Ok (ns, snd entry).

Definition updateStateAndHistory (objs : list (Node num)) (newNodes : list nat)
    (newIsPathClosed : bool) (s : State) : State :=
  let newHistory :=
    slice 0 (historyIndex s + 1) (history s) ++ [ (newNodes, newIsPathClosed) ] in
  {| objects := objs; nodes := newNodes; isPathClosed := newIsPathClosed;
     history := newHistory; historyIndex := length newHistory - 1 |}.

Definition undo (s : State) : result State :=
  if (0 <? historyIndex s)%nat then
    let newIndex := (historyIndex s - 1)%nat in
    let* entry := get (history s) newIndex in
    Ok {| objects := objects s; nodes := fst entry; isPathClosed := snd entry;
          history := history s; historyIndex := newIndex |}
  else Ok s.

(** [insertOnSegment]: [newNodes[index].ctrl2 = p01] and
    [newNodes[next].ctrl1 = p23] assign fields of the objects that the copied
    array still shares with [nodes]. *)
Definition insertOnSegment (index : nat) (t : num) (s : State) : result State :=
  let arr := nodes s in
  let next := (index + 1) mod length arr in
  let* r0 := get arr index in
  let* r1 := get arr next in
  let* n0 := get (objects s) r0 in
  let* n1 := get (objects s) r1 in
  let p0 := anchor n0 in
  let p1 := ctrl2 n0 in
  let p2 := ctrl1 n1 in
  let p3 := anchor n1 in
  let p01 := lerp t p0 p1 in
  let p12 := lerp t p1 p2 in
  let p23 := lerp t p2 p3 in
  let p012 := lerp t p01 p12 in
  let p123 := lerp t p12 p23 in
  let newAnchor := lerp t p012 p123 in
  let (objs, newNode) :=
    alloc {| anchor := newAnchor; ctrl1 := p012; ctrl2 := p123; type := smooth |}
          (objects s) in
  let newNodes := arr in
  let* m0 := get objs r0 in
  let objs := update objs r0 (set_ctrl2 p01 m0) in
  let* m1 := get objs r1 in
  let objs := update objs r1 (set_ctrl1 p23 m1) in
  Ok (updateStateAndHistory objs (splice_in (index + 1) newNode newNodes)
        (isPathClosed s) s).

(** The drag step of [handleMouseMove]: [{ ...newNodes[index] }] is a new
    object, the fields are assigned on it, and it replaces the reference in
    the copied array. No history entry is made. With [index] past the end of
    the array the copy is the empty object, as in [dragTarget]. *)
Definition drag {M : MathLib num} (index : nat) (role : DragType)
    (snappedPoint : Point num) (s : State) : result State :=
  let* r := dragTarget (nodes s) index role in
  let* old := get (objects s) r in
  let (objs, node) := alloc (dragNode role snappedPoint old) (objects s) in
  Ok {| objects := objs; nodes := update (nodes s) index node;
        isPathClosed := isPathClosed s; history := history s;
        historyIndex := historyIndex s |}.

(** The click branch of [handleMouseUp]: the node literal and
    [{ ...prevNode, ctrl2: ... }] are new objects. *)
Definition appendNode {M : MathLib num} (snappedPoint : Point num) (s : State)
  : result State :=
  let newNodes := nodes s in
  if (0 <? length newNodes)%nat then
    let* r := get newNodes (length newNodes - 1) in
    let* prevNode := get (objects s) r in
    let (updatedPrevNode, newNode) :=
      smoothJoint prevNode (newCornerNode snappedPoint) in
    let (objs, rNew) := alloc newNode (objects s) in
    let (objs, rPrev) := alloc updatedPrevNode objs in
    Ok (updateStateAndHistory objs
          (update newNodes (length newNodes - 1) rPrev ++ [rNew])
          (isPathClosed s) s)
  else
    let (objs, rNew) := alloc (newCornerNode snappedPoint) (objects s) in
    Ok (updateStateAndHistory objs (newNodes ++ [rNew]) (isPathClosed s) s).

End Store.
End Heap.

(** ** The two readings of numbers *)

(** *** Binary64 *)

Definition float_of_Z (z : Z) : float :=
  match z with
  | Z0 => PrimFloat.zero
  | Zpos _ => PrimFloat.of_uint63 (Uint63.of_Z z)
  | Zneg p => PrimFloat.opp (PrimFloat.of_uint63 (Uint63.of_Z (Zpos p)))
  end.

Definition is_negative_zero (a : float) : bool :=
  match PrimFloat.classify a with
  | NZero => true
  | _ => false
  end.

(** [Math.max] and [Math.min]: NaN if an argument is, and [-0] below [+0]. *)
Definition float_max (a b : float) : float :=
  if PrimFloat.is_nan a || PrimFloat.is_nan b then PrimFloat.nan
  else if PrimFloat.ltb a b then b
  else if PrimFloat.ltb b a then a
  else if is_negative_zero a then b else a.

Definition float_min (a b : float) : float :=
  if PrimFloat.is_nan a || PrimFloat.is_nan b then PrimFloat.nan
  else if PrimFloat.ltb a b then a
  else if PrimFloat.ltb b a then b
  else if is_negative_zero a then a else b.

#[export] Instance IEEE : Number float := {|
  fromZ := float_of_Z;
  nadd := PrimFloat.add;
  nsub := PrimFloat.sub;
  nmul := PrimFloat.mul;
  ndiv := PrimFloat.div;
  nlt := PrimFloat.ltb;
  neq := PrimFloat.eqb;
  Math_abs := PrimFloat.abs;
  Math_sqrt := PrimFloat.sqrt;
  Math_max := float_max;
  Math_min := float_min
|}.

#[export] Instance IEEE_Infinity : Infinite float := {|
  Infinity := PrimFloat.infinity
|}.

(** Neither an infinity nor NaN. *)
Definition isFinite (a : float) : bool :=
  negb (PrimFloat.is_nan a) && negb (PrimFloat.is_infinity a).

(** *** Real numbers *)

Definition Rltb (a b : R) : bool := if Rlt_dec a b then true else false.

Definition Reqb (a b : R) : bool := if Req_dec_T a b then true else false.

(** The angle of the vector [(vx, vy)] in [(-PI, PI]], [0] for the null
    vector. *)
Definition Ratan2 (vy vx : R) : R :=
  if Rlt_dec 0 vx then atan (vy / vx)
  else if Rlt_dec vx 0 then
    if Rle_dec 0 vy then atan (vy / vx) + PI else atan (vy / vx) - PI
  else if Rlt_dec 0 vy then PI / 2
  else if Rlt_dec vy 0 then - (PI / 2)
  else 0.

#[export] Instance Real : Number R := {|
  fromZ := IZR;
  nadd := Rplus;
  nsub := Rminus;
  nmul := Rmult;
  ndiv := Rdiv;
  nlt := Rltb;
  neq := Reqb;
  Math_abs := Rabs;
  Math_sqrt := sqrt;
  Math_max := Rmax;
  Math_min := Rmin
|}.

#[export] Instance Real_MathLib : MathLib R := {|
  Math_hypot := fun a b => sqrt (a * a + b * b);
  Math_atan2 := Ratan2;
  Math_cos := cos;
  Math_sin := sin;
  Math_round := fun v => IZR (Int_part (v + / 2))
|}.

(** ** Runs and vocabulary of the statements *)

(** [k] presses of a command. *)
Fixpoint repeatM {A : Type} (k : nat) (f : A -> result A) (a : A) : result A :=
  match k with
  | O => Ok a
  | S k' => let* a' := f a in repeatM k' f a'
  end.

(** A click-to-append at each point in turn. *)
Fixpoint appendAll {num : Type} {N : Number num} {M : MathLib num}
    (ps : list (Point num)) (s : AppState num) : result (AppState num) :=
  match ps with
  | [] => Ok s
  | p :: rest => let* s' := appendNode p s in appendAll rest s'
  end.

(** The state showing history entry [k]. *)
Definition restore {num : Type} (k : nat) (s : AppState num) : AppState num :=
  match nth_error (history s) k with
  | Some entry =>
      setIsPathClosed (hs_isPathClosed entry)
        (setNodes (hs_nodes entry) (setHistoryIndex k s))
  | None => s
  end.

(** The live path is the current history entry. *)
Definition committed {num : Type} (s : AppState num) : Prop :=
  nth_error (history s) (historyIndex s)
  = Some {| hs_nodes := nodes s; hs_isPathClosed := isPathClosed s |}.

(** The history holds nothing beyond the state shown. *)
Definition atTip {num : Type} (s : AppState num) : Prop :=
  committed s /\ length (history s) = historyIndex s + 1.

(** The point at parameter [u] of a segment. *)
Definition segmentPoint {num : Type} {N : Number num} (u : num)
    (seg : Point num * Point num * Point num * Point num) : Point num :=
  let '(p0, p1, p2, p3) := seg in getPointOnCubicBezier u p0 p1 p2 p3.

(** Euclidean distance, as the handlers take it with [Math.hypot]. *)
Definition pointDistance {num : Type} {N : Number num} {M : MathLib num}
    (a b : Point num) : num :=
  Math_hypot (x a - x b)%num (y a - y b)%num.

(** Cross and dot product of the vectors from [o] to [a] and from [o] to [b]. *)
Definition cross {num : Type} {N : Number num} (o a b : Point num) : num :=
  ((x a - x o) * (y b - y o) - (y a - y o) * (x b - x o))%num.

Definition dot {num : Type} {N : Number num} (o a b : Point num) : num :=
  ((x a - x o) * (x b - x o) + (y a - y o) * (y b - y o))%num.

(** [q] is the mirror image of [p] across the line through [lineA] and
    [lineB]: the midpoint of [p] and [q] is on that line, and the step from
    [p] to [q] is perpendicular to it. *)
Definition mirrorImage (lineA lineB p q : Point R) : Prop :=
  cross lineA lineB {| x := ((x p + x q) / 2)%R; y := ((y p + y q) / 2)%R |} = 0%R
  /\ ((x q - x p) * (x lineB - x lineA) + (y q - y p) * (y lineB - y lineA) = 0)%R.

(** The cyclic walk over a closed path that starts at index [b]. *)
Definition bodyFrom {A : Type} (b : nat) (arr : list A) : list A :=
  skipn b arr ++ firstn b arr.

(** The nodes strictly between the end [B] and the start [A] of edge [i],
    walking forward from [B]. *)
Definition intermediates {A : Type} (i : nat) (arr : list A) : list A :=
  removelast (tl (bodyFrom ((i + 1) mod length arr) arr)).

(** The sampled distance from [point] to a segment. *)
Definition edgeDistance {num : Type} {N : Number num} {I : Infinite num}
    (point : Point num) (seg : Point num * Point num * Point num * Point num)
  : num :=
  let '(p0, p1, p2, p3) := seg in
  distance (findClosestPointOnCubicBezier point p0 p1 p2 p3).

(** What the scan for the closest edge holds after the edges below [k]:
    either nothing was selected, and no distance so far compared below
    [Infinity], or an edge below [k] is selected, and some distance did. *)
Definition scanned {num : Type} {N : Number num} {I : Infinite num}
    (point : Point num) (arr : list (Node num)) (k : nat) (acc : Z * num) : Prop :=
  (acc = ((-1)%Z, Infinity)
   /\ forall i seg, i < k -> segment arr i = Ok seg ->
        (edgeDistance point seg <? Infinity)%num = false)
  \/ ((0 <= fst acc < Z.of_nat k)%Z
      /\ exists i seg, i < k /\ segment arr i = Ok seg
           /\ (edgeDistance point seg <? Infinity)%num = true).

(** The ways a symmetry pick is turned down, with the messages shown. *)
Inductive symmetryFailure {num : Type} {N : Number num} {I : Infinite num}
    (point : Point num) (s : AppState num) : list MessageKey -> Prop :=
| NoEligiblePath :
    isPathClosed s = false \/ length (nodes s) < 3 ->
    symmetryFailure point s []
| NoEdgeFound (d : num) :
    isPathClosed s = true -> 3 <= length (nodes s) ->
    closestEdge point (nodes s) = Ok ((-1)%Z, d) ->
    symmetryFailure point s []
| NotStraightEdge (i : nat) (d : num) (pA ctrlA ctrlB pB : Point num) :
    isPathClosed s = true -> 3 <= length (nodes s) ->
    closestEdge point (nodes s) = Ok (Z.of_nat i, d) ->
    segment (nodes s) i = Ok (pA, ctrlA, ctrlB, pB) ->
    isStraight pA pB ctrlA ctrlB = false ->
    symmetryFailure point s [notStraightEdgeError].

(** ** Magnitudes of binary64 numbers *)

(** The magnitude of a binary64 number [m * 2^e] is the number of digits of [m]
    plus [e]: the number is below [2^k] in absolute value when its magnitude
    is at most [k]. Zeros have every magnitude; infinities and NaN none. *)
Definition magnitudeAtMost (k : Z) (f : spec_float) : Prop :=
  match f with
  | S754_zero _ => True
  | S754_finite _ m e => (Zpos (digits2_pos m) + e <= k)%Z
  | S754_infinity _ | S754_nan => False
  end.

(** The sign bit; [false] is positive. *)
Definition SFsign (f : spec_float) : bool :=
  match f with
  | S754_zero s | S754_infinity s | S754_finite s _ _ => s
  | S754_nan => false
  end.

(** The four weights of the curve point at parameter [t], as
    [getPointOnCubicBezier] forms them. *)
Definition bezierWeights {num : Type} {N : Number num} (t : num)
  : num * num * num * num :=
  let u := (#1 - t)%num in
  let tt := (t * t)%num in
  let uu := (u * u)%num in
  let uuu := (uu * u)%num in
  let ttt := (tt * t)%num in
  (uuu, #3 * uu * t, #3 * u * tt, ttt)%num.

(** A coordinate of magnitude below [2^500] (about [3.3e150]). *)
Definition moderate (a : float) : bool :=
  PrimFloat.ltb (PrimFloat.abs a) 0x1p+500.

Definition moderatePoint (p : Point float) : bool :=
  moderate (x p) && moderate (y p).

Definition moderateNode (n : Node float) : bool :=
  moderatePoint (anchor n) && moderatePoint (ctrl1 n) && moderatePoint (ctrl2 n).

(** ** Concrete paths *)

Definition finitePoint (p : Point float) : bool := isFinite (x p) && isFinite (y p).

Definition finiteNode (n : Node float) : bool :=
  finitePoint (anchor n) && finitePoint (ctrl1 n) && finitePoint (ctrl2 n).

(** A state showing a closed path, with that path as its one commit. *)
Definition closedPath {num : Type} {N : Number num} (arr : list (Node num))
  : AppState num :=
  setSymmetryState picking_edge
    (updateStateAndHistory arr true (initialState None)).

(** A triangle of corner nodes far from the origin: coordinates [2^700] and
    [2^701], default handles. *)
Definition farTriangle : list (Node float) :=
  map newCornerNode
    [ {| x := 0x1p+700%float; y := 0x1p+700%float |};
      {| x := 0x1p+701%float; y := 0x1p+700%float |};
      {| x := 0x1p+700%float; y := 0x1p+701%float |} ].

Definition origin : Point float := {| x := 0%float; y := 0%float |}.

(** A triangle of corner nodes with default handles whose first edge, from
    [(0,0)] to [(2^-600, 0)], lies on the line [y = 0] and is so short that
    the square of its length underflows. *)
Definition shortAxisTriangle : list (Node float) :=
  map newCornerNode
    [ {| x := 0%float; y := 0%float |};
      {| x := 0x1p-600%float; y := 0%float |};
      {| x := 1%float; y := 1%float |} ].

(** The square [(0,0) (100,0) (100,100) (0,100)] with handles lying on its
    edges. *)
Definition squareOf {num : Type} {N : Number num} : list (Node num) :=
  let P := fun a b : Z => {| x := (#a)%num; y := (#b)%num |} in
  [ {| anchor := P 0 0; ctrl1 := P 0 25; ctrl2 := P 25 0; type := corner |};
    {| anchor := P 100 0; ctrl1 := P 75 0; ctrl2 := P 100 25; type := corner |};
    {| anchor := P 100 100; ctrl1 := P 100 75; ctrl2 := P 75 100; type := corner |};
    {| anchor := P 0 100; ctrl1 := P 25 100; ctrl2 := P 0 75; type := corner |} ]%Z.

(** The same square with its top edge bent by the handle of the first node. *)
Definition bentSquare : list (Node float) :=
  update squareOf 0
    {| anchor := {| x := 0%float; y := 0%float |};
       ctrl1 := {| x := 0%float; y := 25%float |};
       ctrl2 := {| x := 25%float; y := 10%float |}; type := corner |}.

(** The store after a click at [(0,0)] and a click at [(100,0)] on the empty
    canvas: object 0 is the first node as created, object 1 the second node,
    object 2 the copy of the first node with its outgoing handle set; the live
    path and the last history entry are the array [[2; 1]]. *)
Definition twoClicks {num : Type} {N : Number num} : Heap.State (num := num) :=
  let P := fun a b : Z => {| x := (#a)%num; y := (#b)%num |} in
  {| Heap.objects :=
       [ {| anchor := P 0 0; ctrl1 := P (-50) 0; ctrl2 := P 50 0; type := corner |};
         {| anchor := P 100 0; ctrl1 := P 75 0; ctrl2 := P 150 0; type := corner |};
         {| anchor := P 0 0; ctrl1 := P (-50) 0; ctrl2 := P 25 0; type := corner |} ]%Z;
     Heap.nodes := [2; 1];
     Heap.isPathClosed := false;
     Heap.history := [ ([], false); ([0], false); ([2; 1], false) ];
     Heap.historyIndex := 2 |}.

(** ** Keyboard, snap toggle and grid *)

(** A keyboard event: the fields the key handlers read. *)
Record KeyboardEvent : Type := mkKeyboardEvent {
  key : string;
  key_ctrlKey : bool;
  metaKey : bool
}.

Section Keyboard.
Context {num : Type} {N : Number num}.
Local Open Scope num_scope.

Definition toggleSnap (s : AppState num) : AppState num :=
  setIsSnapEnabled (negb (isSnapEnabled s)) s.

(** The four [if] statements run in turn on the state of the render that
    created the listener; no two of the last three test the same key, and the
    first changes a cell the others do not read. *)
Definition handleKeyDown (event : KeyboardEvent) (s : AppState num)
  : result (AppState num) :=
  let s :=
    if (key event =? " ")%string && negb (isSpacePressed s)
    then setIsSpacePressed true s else s in
  let s :=
    if (key event =? "Delete")%string || (key event =? "Backspace")%string
    then deleteSelectedNode s else s in
  let* s :=
    if (key_ctrlKey event || metaKey event) && (key event =? "z")%string
    then undo s else Ok s in
  if (key_ctrlKey event || metaKey event) && (key event =? "y")%string
  then redo s else Ok s.

Definition handleKeyUp (event : KeyboardEvent) (s : AppState num) : AppState num :=
  if (key event =? " ")%string
  then setIsPanning false (setIsSpacePressed false s) else s.

(** The two [while] loops of [GridLines] on [majorGridSize], each stopped
    after [fuel] rounds. *)
Fixpoint growGrid (fuel : nat) (zoom majorGridSize : num) : result num :=
  if majorGridSize * zoom <? #60 then
    match fuel with
    | O => OutOfFuel
    | S fuel' => growGrid fuel' zoom (majorGridSize * #5)
    end
  else Ok majorGridSize.

Fixpoint shrinkGrid (fuel : nat) (zoom majorGridSize : num) : result num :=
  if majorGridSize * zoom >? #300 then
    match fuel with
    | O => OutOfFuel
    | S fuel' => shrinkGrid fuel' zoom (majorGridSize / #5)
    end
  else Ok majorGridSize.

(** [(majorGridSize, minorGridSize)] as [GridLines] computes them. *)
Definition gridSizes (fuel : nat) (zoom : num) : result (num * num) :=
  let* majorGridSize := growGrid fuel zoom #100 in
  let* majorGridSize := shrinkGrid fuel zoom majorGridSize in
  Ok (majorGridSize, majorGridSize / #5).

End Keyboard.

(** ** Path data *)

(** The conversion of a number to a string that a template literal applies
    ([Number::toString]). *)
Class NumberToString (num : Type) : Type := {
  toString : num -> string
}.

Section PathData.
Context {num : Type} {T : NumberToString num}.
Local Open Scope string_scope.

(** The text appended for the segment from [node1] to [node2]. *)
Definition curveTo (node1 node2 : Node num) : string :=
  " C " ++ toString (x (ctrl2 node1)) ++ " " ++ toString (y (ctrl2 node1))
  ++ ", " ++ toString (x (ctrl1 node2)) ++ " " ++ toString (y (ctrl1 node2))
  ++ ", " ++ toString (x (anchor node2)) ++ " " ++ toString (y (anchor node2)).

Definition generatePathData (pathNodes : list (Node num)) (closed : bool)
  : result string :=
  if (length pathNodes =? 0)%nat then Ok ""
  else
    let* node0 := get pathNodes 0 in
    let d := "M " ++ toString (x (anchor node0)) ++ " "
             ++ toString (y (anchor node0)) in
    let* d :=
      for_loop 0 (if closed then length pathNodes else (length pathNodes - 1)%nat)
        (fun i d =>
           let* node1 := get pathNodes i in
           let* node2 := get pathNodes ((i + 1) mod length pathNodes) in
           Ok (d ++ curveTo node1 node2))
        d in
    Ok (if closed then d ++ " Z" else d).

End PathData.

(** ** The component's events *)

(** What the rendered component lets through to the handlers above: the
    pointer and wheel listeners of the canvas, the key listeners of the
    window, and a click on a toolbar button. The buttons for the export and
    the language write none of the cells of [AppState] and are left out. *)
Inductive Command (num : Type) : Type :=
| MouseDown (event : MouseEvent num)
| MouseMove (event : MouseEvent num)
| MouseUp (event : MouseEvent num)
| MouseLeave
| Wheel (event : MouseEvent num)
| KeyDown (event : KeyboardEvent)
| KeyUp (event : KeyboardEvent)
| ClickUndo
| ClickRedo
| ClickClosePath
| ClickApplySymmetry
| ClickSnap
| ClickDeleteNode
| ClickClearCanvas.

Arguments MouseLeave {num}.
Arguments KeyDown {num}.
Arguments KeyUp {num}.
Arguments ClickUndo {num}.
Arguments ClickRedo {num}.
Arguments ClickClosePath {num}.
Arguments ClickApplySymmetry {num}.
Arguments ClickSnap {num}.
Arguments ClickDeleteNode {num}.
Arguments ClickClearCanvas {num}.

Section Component.
Context {num : Type} {N : Number num} {I : Infinite num} {M : MathLib num}.

(** [<button onClick={handler} disabled={disabled}>]: a disabled button
    fires no click. *)
Definition button (disabled : bool) (handler : AppState num -> result (AppState num))
    (s : AppState num) : result (AppState num) :=
  if disabled then Ok s else handler s.

Definition dispatch (c : Command num) (s : AppState num) : result (AppState num) :=
  match c with
  | MouseDown event => handleMouseDown event s
  | MouseMove event => handleMouseMove event s
  | MouseUp event => handleMouseUp event s
  | MouseLeave => Ok (handleMouseLeave s)
  | Wheel event => Ok (handleWheel event s)
  | KeyDown event => handleKeyDown event s
  | KeyUp event => Ok (handleKeyUp event s)
  | ClickUndo => button (historyIndex s =? 0)%nat undo s
  | ClickRedo => button (historyIndex s + 1 =? length (history s))%nat redo s
  | ClickClosePath => button (length (nodes s) <? 3)%nat toggleClosePath s
  | ClickApplySymmetry =>
      button ((length (nodes s) <? 3)%nat || negb (isPathClosed s))
        (fun s => Ok (toggleApplySymmetry s)) s
  | ClickSnap => Ok (toggleSnap s)
  | ClickDeleteNode =>
      button (match selectedNodeIndex s with None => true | Some _ => false end)
        (fun s => Ok (deleteSelectedNode s)) s
  | ClickClearCanvas => Ok (clearCanvas s)
  end.

(** The events of a session, in order. *)
Fixpoint session (cs : list (Command num)) (s : AppState num)
  : result (AppState num) :=
  match cs with
  | [] => Ok s
  | c :: rest => let* s' := dispatch c s in session rest s'
  end.

End Component.

(** ** Vocabulary of the further statements *)

(** The squared distance from [point] to sample [i] of a segment, as the
    nearest-point search takes it. *)
Definition sampleDistSq {num : Type} {N : Number num}
    (point p0 p1 p2 p3 : Point num) (i : nat) : num :=
  let pt := getPointOnCubicBezier (sample_t i) p0 p1 p2 p3 in
  (Math_pow2 (x pt - x point) + Math_pow2 (y pt - y point))%num.

(** The parameter of the nearest sample of a segment. *)
Definition edgeParameter {num : Type} {N : Number num} {I : Infinite num}
    (point : Point num) (seg : Point num * Point num * Point num * Point num)
  : num :=
  let '(p0, p1, p2, p3) := seg in
  closest_t (findClosestPointOnCubicBezier point p0 p1 p2 p3).


(** [s'] is [s] after a commit of the path that [s'] shows. *)
Definition commitOf {num : Type} (s s' : AppState num) : Prop :=
  history s'
  = firstn (historyIndex s + 1) (history s)
    ++ [ {| hs_nodes := nodes s'; hs_isPathClosed := isPathClosed s' |} ]
  /\ historyIndex s' = length (history s') - 1.

(** A closed path has at least 3 nodes: in a history entry, and in a state,
    whose history index is also inside the history. *)
Definition wellFormedEntry {num : Type} (entry : HistoryState num) : Prop :=
  hs_isPathClosed entry = true -> 3 <= length (hs_nodes entry).

Definition wellFormed {num : Type} (s : AppState num) : Prop :=
  historyIndex s < length (history s)
  /\ (isPathClosed s = true -> 3 <= length (nodes s))
  /\ Forall wellFormedEntry (history s).

(** Pointer moves, in order. *)
Fixpoint moveAll {num : Type} {N : Number num} {M : MathLib num}
    (events : list (MouseEvent num)) (s : AppState num) : result (AppState num) :=
  match events with
  | [] => Ok s
  | event :: rest => let* s' := handleMouseMove event s in moveAll rest s'
  end.

(** A pointer-up that ends a plain click: there is a canvas element, no drag
    target, the pointer did not move past the drag threshold, and neither
    Ctrl nor Space is held. *)
Definition plainClick {num : Type} (event : MouseEvent num) (s : AppState num)
  : bool :=
  match svgRef s, draggedInfo s with
  | Some _, None =>
      negb (wasDragging s) && negb (ctrlKey event) && negb (isSpacePressed s)
  | _, _ => false
  end.

(** The drag target, if there is one, is a node of the path. *)
Definition targetInPath {num : Type} (s : AppState num) : Prop :=
  match draggedInfo s with
  | Some (index, _) => index < length (nodes s)
  | None => True
  end.

(** A node of the mirrored half: reflected, with its handles exchanged. *)
Definition mirrorNode {num : Type} {N : Number num} (lineA lineB : Point num)
    (node : Node num) : Node num :=
  swapHandles (reflectNode lineA lineB node).

(** Reflecting the image of [p] gives [p] back. *)
Definition reflectsBack {num : Type} {N : Number num} (lineA lineB p : Point num)
  : Prop :=
  reflectPoint lineA lineB (reflectPoint lineA lineB p) = p.

(** ** Further concrete states *)

(** A [Math] library for runs in binary64 that stay clear of the
    trigonometric functions and of [round]: [hypot] by its defining formula,
    with the rule for an infinite argument, and NaN from the others. *)
Definition float_hypot (a b : float) : float :=
  if PrimFloat.is_infinity a || PrimFloat.is_infinity b then PrimFloat.infinity
  else PrimFloat.sqrt (a * a + b * b)%float.

Definition exampleMath : MathLib float := {|
  Math_hypot := float_hypot;
  Math_atan2 := fun _ _ => PrimFloat.nan;
  Math_cos := fun _ => PrimFloat.nan;
  Math_sin := fun _ => PrimFloat.nan;
  Math_round := fun _ => PrimFloat.nan
|}.

(** A canvas element whose bounding rectangle starts at the client origin,
    and the square drawn on it. *)
Definition canvasAtOrigin {num : Type} {N : Number num} : Rect num :=
  {| rect_left := (#0)%num; rect_top := (#0)%num |}.

Definition squareOnCanvas {num : Type} {N : Number num} : AppState num :=
  updateStateAndHistory squareOf true (initialState (Some canvasAtOrigin)).

(** * Properties *)

(** ** Literals *)

(** The decimal literals of the source, read in binary64: the quotient of the
    two integers is the double that the literal denotes ([0.25], [0.1], [1.1]
    and [1e-3], the last three written in hexadecimal). *)
Example decimal_literals_binary64 :
  SMOOTHING_FACTOR = 0.25%float
  /\ MIN_ZOOM = 0x1.999999999999ap-4%float
  /\ (#11 / #10)%num = 0x1.199999999999ap+0%float
  /\ (#1 / #1000)%num = 0x1.0624dd2f1a9fcp-10%float.
Proof. repeat split; vm_compute; reflexivity. Qed.

(** ** Arrays *)

Lemma get_nth_error {A : Type} (arr : list A) (i : nat) (a : A) :
  get arr i = Ok a <-> nth_error arr i = Some a.
Proof.
  unfold get. destruct (nth_error arr i); split; intros H; inversion H; reflexivity.
Qed.

Lemma get_in_range {A : Type} (arr : list A) (i : nat) :
  i < length arr -> exists a, get arr i = Ok a.
Proof.
  intros Hi. unfold get.
  destruct (nth_error arr i) eqn:E; [ eauto | ].
  apply nth_error_None in E. lia.
Qed.

Lemma get_length {A : Type} (arr : list A) (i : nat) (a : A) :
  get arr i = Ok a -> i < length arr.
Proof.
  intros H. apply get_nth_error in H. apply nth_error_Some. congruence.
Qed.

(** The drag step reads its target as [get] does when the index is inside
    the array, and does not complete on any other index. *)
Lemma dragTarget_get {A : Type} (arr : list A) (i : nat) (role : DragType) (a : A) :
  dragTarget arr i role = Ok a <-> get arr i = Ok a.
Proof.
  unfold dragTarget, get.
  destruct (nth_error arr i); [ reflexivity | ].
  destruct role; split; discriminate.
Qed.

Lemma update_length {A : Type} (arr : list A) (i : nat) (v : A) :
  length (update arr i v) = length arr.
Proof.
  revert i. induction arr as [| a rest IH]; intros [| j]; simpl; auto.
Qed.

Lemma nth_error_update_same {A : Type} (arr : list A) (i : nat) (v : A) :
  i < length arr -> nth_error (update arr i v) i = Some v.
Proof.
  revert i. induction arr as [| a rest IH]; intros [| j] Hi; simpl in *;
    try lia; [ reflexivity | apply IH; lia ].
Qed.

Lemma nth_error_update_other {A : Type} (arr : list A) (i j : nat) (v : A) :
  i <> j -> nth_error (update arr i v) j = nth_error arr j.
Proof.
  revert i j. induction arr as [| a rest IH]; intros [| i] [| j] Hij; simpl;
    try reflexivity; try lia. apply IH. lia.
Qed.

(** ** History *)

Section HistoryFacts.
Context {num : Type}.
Implicit Types s : AppState num.

Lemma commit_history s (newNodes : list (Node num)) (closed : bool) :
  let s' := updateStateAndHistory newNodes closed s in
  history s' = firstn (historyIndex s + 1) (history s)
                 ++ [ {| hs_nodes := newNodes; hs_isPathClosed := closed |} ]
  /\ historyIndex s' = length (history s') - 1
  /\ nodes s' = newNodes /\ isPathClosed s' = closed.
Proof.
  simpl. unfold slice. rewrite Nat.sub_0_r. simpl. auto.
Qed.

(** A commit cuts the history after the current entry and makes the path it
    is given the new last entry, with the index on it. *)
Lemma commitOf_commit s (newNodes : list (Node num)) (closed : bool) :
  commitOf s (updateStateAndHistory newNodes closed s).
Proof.
  destruct (commit_history s newNodes closed) as (Hh & Hi & Hn & Hc).
  cbv zeta in Hh, Hi, Hn, Hc.
  unfold commitOf. rewrite Hn, Hc, Hi, Hh. split; reflexivity.
Qed.

Lemma commit_committed s (newNodes : list (Node num)) (closed : bool) :
  committed (updateStateAndHistory newNodes closed s).
Proof.
  unfold committed. simpl. unfold slice. rewrite Nat.sub_0_r. simpl skipn.
  rewrite length_app. simpl length.
  replace (length (firstn (historyIndex s + 1) (history s)) + 1 - 1)
    with (length (firstn (historyIndex s + 1) (history s))) by lia.
  rewrite nth_error_app2 by lia. rewrite Nat.sub_diag. reflexivity.
Qed.

Lemma commit_index s (newNodes : list (Node num)) (closed : bool) :
  historyIndex s < length (history s) ->
  let s' := updateStateAndHistory newNodes closed s in
  historyIndex s' = historyIndex s + 1
  /\ length (history s') = historyIndex s + 2
  /\ nth_error (history s') 0 = nth_error (history s) 0.
Proof.
  intros Hi. simpl. unfold slice. rewrite Nat.sub_0_r. simpl skipn.
  rewrite length_app, length_firstn. simpl length.
  rewrite Nat.min_l by lia. repeat split; try lia.
  replace (historyIndex s + 1) with (S (historyIndex s)) by lia.
  destruct (history s); [ simpl in Hi; lia | reflexivity ].
Qed.

Lemma restore_current s : committed s -> restore (historyIndex s) s = s.
Proof.
  unfold committed, restore. intros H. rewrite H. destruct s. reflexivity.
Qed.

Lemma restore_restore s (j k : nat) :
  j < length (history s) -> restore j (restore k s) = restore j s.
Proof.
  intros Hj. unfold restore at 2.
  destruct (nth_error (history s) k) as [e |] eqn:E.
  - unfold restore. simpl.
    destruct (nth_error (history s) j) eqn:F; [ reflexivity | ].
    apply nth_error_None in F. lia.
  - reflexivity.
Qed.

Lemma restore_fields s (k : nat) (e : HistoryState num) :
  nth_error (history s) k = Some e ->
  nodes (restore k s) = hs_nodes e
  /\ isPathClosed (restore k s) = hs_isPathClosed e
  /\ historyIndex (restore k s) = k
  /\ history (restore k s) = history s.
Proof.
  intros H. unfold restore. rewrite H. simpl. auto.
Qed.

Lemma undo_restore s :
  0 < historyIndex s -> historyIndex s < length (history s) ->
  undo s = Ok (restore (historyIndex s - 1) s).
Proof.
  intros H0 Hlt. unfold undo, restore.
  destruct (Nat.ltb_spec 0 (historyIndex s)); [ | lia ].
  unfold get.
  destruct (nth_error (history s) (historyIndex s - 1)) eqn:E; [ reflexivity | ].
  apply nth_error_None in E. lia.
Qed.

Lemma redo_restore s :
  historyIndex s + 1 < length (history s) ->
  redo s = Ok (restore (historyIndex s + 1) s).
Proof.
  intros Hlt. unfold redo, restore.
  destruct (Nat.ltb_spec (historyIndex s) (length (history s) - 1)); [ | lia ].
  unfold get.
  destruct (nth_error (history s) (historyIndex s + 1)) eqn:E; [ reflexivity | ].
  apply nth_error_None in E. lia.
Qed.

Lemma undo_at_first s : historyIndex s = 0 -> undo s = Ok s.
Proof. intros H. unfold undo. rewrite H. reflexivity. Qed.

Lemma redo_at_last s : historyIndex s = length (history s) - 1 -> redo s = Ok s.
Proof.
  intros H. unfold redo.
  destruct (Nat.ltb_spec (historyIndex s) (length (history s) - 1)); [ lia | ].
  reflexivity.
Qed.

Lemma undo_many (k : nat) : forall s,
  committed s -> historyIndex s < length (history s) -> k <= historyIndex s ->
  repeatM k undo s = Ok (restore (historyIndex s - k) s).
Proof.
  induction k as [| k IH]; intros s Hc Hlt Hk.
  - simpl. rewrite Nat.sub_0_r, restore_current; auto.
  - simpl. rewrite undo_restore by lia. simpl.
    assert (Hin : historyIndex s - 1 < length (history s)) by lia.
    destruct (nth_error (history s) (historyIndex s - 1)) as [e |] eqn:E;
      [ | apply nth_error_None in E; lia ].
    destruct (restore_fields s _ E) as (Hn & Hcl & Hi & Hh).
    rewrite IH.
    + rewrite Hi, restore_restore by lia. f_equal. f_equal. lia.
    + unfold committed. rewrite Hn, Hcl, Hi, Hh, E. destruct e; reflexivity.
    + rewrite Hi, Hh. lia.
    + rewrite Hi. lia.
Qed.

Lemma redo_many (k : nat) : forall s,
  committed s -> historyIndex s + k < length (history s) ->
  repeatM k redo s = Ok (restore (historyIndex s + k) s).
Proof.
  induction k as [| k IH]; intros s Hc Hlt.
  - simpl. rewrite Nat.add_0_r, restore_current; auto.
  - simpl. rewrite redo_restore by lia. simpl.
    destruct (nth_error (history s) (historyIndex s + 1)) as [e |] eqn:E;
      [ | apply nth_error_None in E; lia ].
    destruct (restore_fields s _ E) as (Hn & Hcl & Hi & Hh).
    rewrite IH.
    + rewrite Hi, restore_restore by lia. f_equal. f_equal. lia.
    + unfold committed. rewrite Hn, Hcl, Hi, Hh, E. destruct e; reflexivity.
    + rewrite Hi, Hh. lia.
Qed.

End HistoryFacts.

Section AppendFacts.
Context {num : Type} {N : Number num} {M : MathLib num}.
Implicit Types s : AppState num.

Lemma appendNode_commits (p : Point num) s :
  exists newNodes,
    appendNode p s
    = Ok (setSelectedNodeIndex (Some (length newNodes - 1))
            (updateStateAndHistory newNodes (isPathClosed s) s))
    /\ length newNodes = S (length (nodes s)).
Proof.
  unfold appendNode.
  destruct (Nat.ltb_spec 0 (length (nodes s))) as [Hpos | Hz].
  - destruct (get_in_range (nodes s) (i := length (nodes s) - 1)) as [prev Hprev];
      [ lia | ].
    rewrite Hprev. simpl.
    destruct (smoothJoint prev (newCornerNode p)) as [updatedPrev newNode]. simpl.
    eexists. split; [ reflexivity | ].
    rewrite length_app, update_length. simpl. lia.
  - simpl. eexists. split; [ reflexivity | ].
    rewrite length_app. simpl. lia.
Qed.

Lemma appendNode_tip (p : Point num) s :
  historyIndex s < length (history s) ->
  exists s', appendNode p s = Ok s'
    /\ atTip s'
    /\ historyIndex s' = historyIndex s + 1
    /\ nth_error (history s') 0 = nth_error (history s) 0
    /\ length (nodes s') = S (length (nodes s)).
Proof.
  intros Hlt. destruct (appendNode_commits p s) as (nn & Heq & Hlen).
  eexists. split; [ exact Heq | ].
  destruct (commit_index s nn (isPathClosed s) Hlt) as (Hi & Hl & H0).
  pose proof (commit_committed s nn (isPathClosed s)) as Hc.
  unfold atTip, committed in *. simpl in *.
  repeat split; auto; lia.
Qed.

Lemma appendAll_tip (ps : list (Point num)) : forall s,
  atTip s ->
  exists s', appendAll ps s = Ok s'
    /\ atTip s'
    /\ historyIndex s' = historyIndex s + length ps
    /\ nth_error (history s') 0 = nth_error (history s) 0
    /\ length (nodes s') = length (nodes s) + length ps.
Proof.
  induction ps as [| p rest IH]; intros s Htip.
  - exists s. simpl.
    split; [ reflexivity | ]. split; [ exact Htip | ].
    split; [ lia | ]. split; [ reflexivity | lia ].
  - destruct Htip as (Hc & Hl).
    destruct (appendNode_tip p s) as (s1 & H1 & Htip1 & Hi1 & H01 & Hn1); [ lia | ].
    destruct (IH s1 Htip1) as (s2 & H2 & Htip2 & Hi2 & H02 & Hn2).
    exists s2. cbn [appendAll]. rewrite H1. cbn [bind length].
    split; [ exact H2 | ]. split; [ exact Htip2 | ].
    split; [ lia | ]. split; [ congruence | lia ].
Qed.

Lemma initialState_tip (svg : option (Rect num)) : atTip (initialState svg).
Proof. split; reflexivity. Qed.

End AppendFacts.

(** C7. A commit keeps the history up to the current index, appends the new
    [(nodes, closed)] entry and makes it the current one; undo at index 0 and
    redo at the last index return the state they were given; from the initial
    empty path, a click-to-append at each of N points, then N undos, yields
    the empty open path at index 0, and N redos from there yield the state
    after the N appends again. *)
Theorem history_commit_undo_redo {num : Type} {N : Number num} {M : MathLib num} :
  (forall (s : AppState num) (newNodes : list (Node num)) (closed : bool),
     let s' := updateStateAndHistory newNodes closed s in
     let entry := {| hs_nodes := newNodes; hs_isPathClosed := closed |} in
     history s' = firstn (historyIndex s + 1) (history s) ++ [entry]
     /\ historyIndex s' = length (history s') - 1
     /\ nth_error (history s') (historyIndex s') = Some entry
     /\ nodes s' = newNodes /\ isPathClosed s' = closed)
  /\ (forall s : AppState num, historyIndex s = 0 -> undo s = Ok s)
  /\ (forall s : AppState num,
        historyIndex s = length (history s) - 1 -> redo s = Ok s)
  /\ (forall (svg : option (Rect num)) (ps : list (Point num)),
        exists sN s0,
          appendAll ps (initialState svg) = Ok sN
          /\ length (nodes sN) = length ps
          /\ historyIndex sN = length ps
          /\ repeatM (length ps) undo sN = Ok s0
          /\ nodes s0 = [] /\ isPathClosed s0 = false /\ historyIndex s0 = 0
          /\ repeatM (length ps) redo s0 = Ok sN).
Proof.
  split; [ | split; [ | split ] ].
  - intros s newNodes closed s' entry.
    destruct (commit_history s newNodes closed) as (Hh & Hi & Hn & Hc).
    repeat split; auto. apply (commit_committed s newNodes closed).
  - intros s. apply undo_at_first.
  - intros s. apply redo_at_last.
  - intros svg ps.
    destruct (appendAll_tip ps (initialState_tip svg))
      as (sN & Hrun & (Hc & Hl) & Hi & H0 & Hn).
    simpl in Hi, Hn.
    change (nth_error (history sN) 0
            = Some {| hs_nodes := []; hs_isPathClosed := false |}) in H0.
    exists sN, (restore 0 sN).
    assert (Hu : repeatM (length ps) undo sN = Ok (restore 0 sN)).
    { rewrite undo_many by (auto; lia). f_equal. f_equal. lia. }
    destruct (restore_fields sN 0 H0) as (Rn & Rc & Ri & Rh).
    repeat split; auto.
    rewrite redo_many.
    + rewrite Ri, restore_restore by lia. simpl.
      rewrite <- Hi. rewrite restore_current by assumption. reflexivity.
    + unfold committed. rewrite Rn, Rc, Ri, Rh. exact H0.
    + rewrite Ri, Rh. lia.
Qed.

(** ** The scan for the closest edge *)

Section ScanFacts.
Context {num : Type} {N : Number num} {I : Infinite num}.
Implicit Types (point : Point num) (arr : list (Node num)).

Lemma segment_in_range arr (i : nat) :
  i < length arr ->
  exists n1 n2,
    get arr i = Ok n1 /\ get arr ((i + 1) mod length arr) = Ok n2
    /\ segment arr i = Ok (anchor n1, ctrl2 n1, ctrl1 n2, anchor n2).
Proof.
  intros Hi.
  destruct (get_in_range arr Hi) as [n1 H1].
  destruct (get_in_range arr (i := (i + 1) mod length arr)) as [n2 H2].
  { apply Nat.mod_upper_bound. lia. }
  exists n1, n2. unfold segment. rewrite H1, H2. auto.
Qed.

Lemma edge_step_segment point arr (i : nat) (acc : Z * num) :
  i < length arr ->
  exists seg,
    segment arr i = Ok seg
    /\ edge_step point arr i acc
       = Ok (if (edgeDistance point seg <? snd acc)%num
             then (Z.of_nat i, edgeDistance point seg) else acc).
Proof.
  intros Hi. destruct (segment_in_range arr Hi) as (n1 & n2 & H1 & H2 & Hs).
  eexists. split; [ exact Hs | ].
  unfold edge_step. rewrite H1, H2. cbn [bind edgeDistance].
  destruct (_ <? _)%num; reflexivity.
Qed.

Lemma scanned_step point arr (k : nat) (acc : Z * num) :
  k < length arr -> scanned point arr k acc ->
  exists acc', edge_step point arr k acc = Ok acc' /\ scanned point arr (S k) acc'.
Proof.
  intros Hk Hinv.
  destruct (edge_step_segment point arr acc Hk) as (seg & Hs & Hstep).
  rewrite Hstep. eexists. split; [ reflexivity | ].
  destruct Hinv as [(Hacc & Hnone) | (Hrange & i & seg' & Hi & Hs' & Hlt)].
  - subst acc. cbn [snd].
    destruct (edgeDistance point seg <? Infinity)%num eqn:E.
    + right. cbn [fst]. split; [ lia | ]. exists k, seg. auto.
    + left. split; [ reflexivity | ]. intros j sj Hj Hsj.
      destruct (Nat.eq_dec j k) as [-> | Hne].
      * rewrite Hs in Hsj. inversion Hsj. subst sj. exact E.
      * apply (Hnone j); [ lia | exact Hsj ].
  - right. split.
    + destruct (nlt (edgeDistance point seg) (snd acc)); cbn [fst]; lia.
    + exists i, seg'. auto.
Qed.

Lemma scanned_loop point arr (count : nat) : forall (from : nat) (acc : Z * num),
  from + count <= length arr -> scanned point arr from acc ->
  exists acc', for_loop from count (edge_step point arr) acc = Ok acc'
               /\ scanned point arr (from + count) acc'.
Proof.
  induction count as [| c IH]; intros from acc Hle Hinv.
  - exists acc. rewrite Nat.add_0_r. auto.
  - destruct (@scanned_step point arr from acc) as (acc1 & H1 & Hinv1);
      [ lia | exact Hinv | ].
    destruct (IH (S from) acc1) as (acc2 & H2 & Hinv2); [ lia | exact Hinv1 | ].
    exists acc2. cbn [for_loop]. rewrite H1. cbn [bind].
    replace (from + S c) with (S from + c) by lia. auto.
Qed.

(** The scan returns; it leaves [-1] exactly when no sampled distance to an
    edge compared below [Infinity], and otherwise the index of an edge. *)
Lemma closestEdge_scanned point arr :
  exists acc, closestEdge point arr = Ok acc
              /\ scanned point arr (length arr) acc.
Proof.
  unfold closestEdge.
  destruct (@scanned_loop point arr (length arr) 0 ((-1)%Z, Infinity))
    as (acc & Hrun & Hinv).
  - lia.
  - left. split; [ reflexivity | ]. intros i seg Hi. lia.
  - exists acc. auto.
Qed.

Lemma closestEdge_index point arr (i : nat) (d : num) :
  closestEdge point arr = Ok (Z.of_nat i, d) -> i < length arr.
Proof.
  intros H. destruct (closestEdge_scanned point arr) as (acc & Hrun & Hinv).
  rewrite H in Hrun. inversion Hrun. subst acc.
  destruct Hinv as [(Hacc & _) | (Hrange & _)].
  - inversion Hacc. lia.
  - cbn [fst] in Hrange. lia.
Qed.

(** The distance held with a selected edge compares below [Infinity], in a
    reading of numbers where whatever compares below a number does. *)
Section Below.
Hypothesis nlt_below :
  forall a b : num, (a <? b)%num = true -> (a <? Infinity)%num = true.

Lemma selected_below_loop point arr (count : nat) :
  forall (from : nat) (acc acc' : Z * num),
    fst acc = (-1)%Z \/ (snd acc <? Infinity)%num = true ->
    for_loop from count (edge_step point arr) acc = Ok acc' ->
    fst acc' = (-1)%Z \/ (snd acc' <? Infinity)%num = true.
Proof.
  induction count as [| c IH]; intros from acc acc' Hacc Hrun; cbn [for_loop] in Hrun.
  - inversion Hrun. subst acc'. exact Hacc.
  - destruct (edge_step point arr from acc) as [acc1 | | |] eqn:Hstep;
      try discriminate.
    cbn [bind] in Hrun. apply (IH (S from) acc1 acc'); [ | exact Hrun ].
    unfold edge_step in Hstep.
    destruct (get arr from) as [ni | | |]; try discriminate.
    destruct (get arr ((from + 1) mod length arr)) as [nj | | |]; try discriminate.
    cbn [bind] in Hstep.
    destruct (nlt _ (snd acc)) eqn:Hlt; inversion Hstep; subst acc1.
    + right. cbn [snd]. exact (nlt_below _ _ Hlt).
    + exact Hacc.
Qed.

Lemma closestEdge_below point arr (k : Z) (d : num) :
  closestEdge point arr = Ok (k, d) ->
  k <> (-1)%Z -> (d <? Infinity)%num = true.
Proof.
  intros Hrun Hk. unfold closestEdge in Hrun.
  destruct (@selected_below_loop point arr (length arr) 0
              ((-1)%Z, Infinity) (k, d)) as [Hnone | Hbelow].
  - left. reflexivity.
  - exact Hrun.
  - cbn [fst] in Hnone. contradiction.
  - exact Hbelow.
Qed.

End Below.

End ScanFacts.

(** ** The symmetry tool *)

Section SymmetryFacts.
Context {num : Type} {N : Number num} {I : Infinite num}.
Implicit Types (point : Point num) (arr : list (Node num)) (s : AppState num).

Lemma skipn_cons_nth {A : Type} (l : list A) (c : nat) (a : A) :
  nth_error l c = Some a -> skipn c l = a :: skipn (S c) l.
Proof.
  revert c. induction l as [| h t IH]; intros [| c] H; simpl in *;
    try discriminate.
  - inversion H. reflexivity.
  - apply IH in H. rewrite H. reflexivity.
Qed.

Lemma firstn_snoc_nth {A : Type} (l : list A) (c : nat) (a : A) :
  nth_error l c = Some a -> firstn (S c) l = firstn c l ++ [a].
Proof.
  revert c. induction l as [| h t IH]; intros [| c] H; simpl in *;
    try discriminate.
  - inversion H. reflexivity.
  - apply IH in H. simpl in H. rewrite H. reflexivity.
Qed.

(** [k] rounds of the walk from [c] that neither wrap before the last one
    nor meet the stop index. *)
Lemma collectBody_run arr (a : nat) (k : nat) :
  forall (c fuel : nat) (acc : list (Node num)),
    c < length arr -> c + k <= length arr -> k <= fuel ->
    (forall j, c <= j < c + k -> j <> a) ->
    collectBody fuel arr a c acc
    = collectBody (fuel - k) arr a ((c + k) mod length arr)
        (acc ++ firstn k (skipn c arr)).
Proof.
  induction k as [| k IH]; intros c fuel acc Hc Hck Hfuel Hne.
  - rewrite Nat.add_0_r, Nat.sub_0_r, Nat.mod_small by lia.
    simpl. rewrite app_nil_r. reflexivity.
  - destruct fuel as [| fuel]; [ lia | ].
    destruct (nth_error arr c) as [n |] eqn:E;
      [ | apply nth_error_None in E; lia ].
    cbn [collectBody].
    destruct (Nat.eqb_spec c a) as [Heq | _]; [ exfalso; apply (Hne c); lia | ].
    unfold get. rewrite E. cbn [bind].
    rewrite (skipn_cons_nth arr c E). cbn [firstn].
    replace (S fuel - S k) with (fuel - k) by lia.
    destruct (Nat.eq_dec (c + 1) (length arr)) as [Hwrap | Hin].
    + assert (k = 0) by lia. subst k.
      rewrite Nat.sub_0_r. cbn [firstn]. destruct fuel; reflexivity.
    + rewrite (Nat.mod_small (c + 1)) by lia.
      rewrite IH; try lia.
      * replace (c + 1 + k) with (c + S k) by lia.
        replace (c + 1) with (S c) by lia.
        rewrite <- app_assoc. reflexivity.
      * intros j Hj. apply Hne. lia.
Qed.

Lemma collectBody_stop arr (a fuel : nat) (acc : list (Node num)) :
  collectBody fuel arr a a acc = Ok acc.
Proof. destruct fuel; cbn [collectBody]; rewrite Nat.eqb_refl; reflexivity. Qed.

(** The walk from [B] stops at [A] within [length arr] rounds, and with [A]
    pushed the body is the cyclic walk that starts at [B]. *)
Lemma collectBody_bodyFrom arr (i : nat) (nA : Node num) :
  nth_error arr i = Some nA ->
  exists body,
    collectBody (length arr) arr i ((i + 1) mod length arr) [] = Ok body
    /\ body ++ [nA] = bodyFrom ((i + 1) mod length arr) arr.
Proof.
  intros HA.
  assert (Hi : i < length arr) by (apply nth_error_Some; congruence).
  destruct (Nat.eq_dec (i + 1) (length arr)) as [Hlast | Hmid].
  - rewrite Hlast, Nat.Div0.mod_same.
    rewrite (@collectBody_run arr i i 0 (length arr) []); try lia.
    + rewrite Nat.add_0_l, Nat.mod_small by lia.
      rewrite collectBody_stop. eexists. split; [ reflexivity | ].
      unfold bodyFrom. simpl. rewrite app_nil_r.
      rewrite <- (firstn_snoc_nth arr i HA).
      replace (S i) with (length arr) by lia. apply firstn_all.
  - rewrite (Nat.mod_small (i + 1)) by lia.
    rewrite (@collectBody_run arr i (length arr - (i + 1)) (i + 1) (length arr) []);
      try lia.
    replace (i + 1 + (length arr - (i + 1))) with (length arr) by lia.
    rewrite Nat.Div0.mod_same.
    rewrite (@collectBody_run arr i i 0); try lia.
    rewrite Nat.add_0_l, Nat.mod_small by lia.
    rewrite collectBody_stop. eexists. split; [ reflexivity | ].
    unfold bodyFrom. simpl.
    rewrite firstn_all2 by (rewrite length_skipn; lia).
    rewrite <- app_assoc, <- (firstn_snoc_nth arr i HA).
    replace (S i) with (i + 1) by lia. reflexivity.
Qed.

Lemma bodyFrom_length {A : Type} (b : nat) (l : list A) :
  length (bodyFrom b l) = length l.
Proof.
  unfold bodyFrom. rewrite length_app, length_skipn, length_firstn. lia.
Qed.

Lemma slice_intermediate {A : Type} (l : list A) :
  slice 1 (length l - 1) l = removelast (tl l).
Proof.
  unfold slice. rewrite removelast_firstn_len.
  destruct l as [| h t]; simpl; [ reflexivity | ].
  f_equal. lia.
Qed.

Lemma intermediates_length {A : Type} (i : nat) (l : list A) :
  length (intermediates i l) = length l - 2.
Proof.
  unfold intermediates. rewrite removelast_firstn_len, length_firstn.
  pose proof (bodyFrom_length ((i + 1) mod length l) l) as Hb.
  destruct (bodyFrom ((i + 1) mod length l) l) as [| h t]; simpl in *; lia.
Qed.

(** C2. When the path is open or has fewer than 3 nodes, or the scan finds no
    edge, or the closest edge fails the straightness test, the symmetry pick
    completes with the nodes, the closed flag, the history and its index as
    they were and with the symmetry mode inactive; the only message shown is
    [notStraightEdgeError], in the last case. *)
Theorem symmetry_failure_leaves_path point s (report : list MessageKey) :
  symmetryFailure point s report ->
  exists s',
    handleSymmetryEdgePick point s = Ok s'
    /\ nodes s' = nodes s
    /\ isPathClosed s' = isPathClosed s
    /\ history s' = history s
    /\ historyIndex s' = historyIndex s
    /\ symmetryState s' = inactive
    /\ alerts s' = alerts s ++ report.
Proof.
  intros Hfail. unfold handleSymmetryEdgePick.
  destruct Hfail as [Hno | d Hc Hlen Hscan | i d pA ctrlA ctrlB pB Hc Hlen Hscan Hseg Hbent].
  - assert (Hguard : negb (isPathClosed s) || (length (nodes s) <? 3) = true).
    { destruct Hno as [Hopen | Hshort].
      - rewrite Hopen. reflexivity.
      - apply orb_true_iff. right. apply Nat.ltb_lt. exact Hshort. }
    rewrite Hguard. eexists. split; [ reflexivity | ].
    simpl. rewrite app_nil_r. repeat split.
  - rewrite Hc. destruct (Nat.ltb_spec (length (nodes s)) 3); [ lia | ].
    cbn [negb orb]. rewrite Hscan. cbn [bind fst]. rewrite Z.eqb_refl.
    eexists. split; [ reflexivity | ].
    simpl. rewrite app_nil_r. repeat split; assumption.
  - rewrite Hc. destruct (Nat.ltb_spec (length (nodes s)) 3); [ lia | ].
    cbn [negb orb]. rewrite Hscan. cbn [bind fst].
    destruct (Z.eqb_spec (Z.of_nat i) (-1)); [ lia | ].
    rewrite Nat2Z.id.
    pose proof (@closestEdge_index _ _ _ _ _ _ d Hscan) as Hi.
    destruct (segment_in_range (nodes s) Hi) as (nA & nB & HA & HB & Hseg').
    rewrite Hseg in Hseg'. inversion Hseg'. subst.
    rewrite HA, HB. cbn [bind]. rewrite Hbent. cbn [negb].
    eexists. split; [ reflexivity | ]. simpl. repeat split; assumption.
Qed.

(** The path a pick assembles on edge [i], from node [nA] to node [nB]. *)
Lemma symmetry_pick_assembles point s (i : nat) (d : num) (nA nB : Node num) :
  isPathClosed s = true ->
  3 <= length (nodes s) ->
  closestEdge point (nodes s) = Ok (Z.of_nat i, d) ->
  get (nodes s) i = Ok nA ->
  get (nodes s) ((i + 1) mod length (nodes s)) = Ok nB ->
  isStraight (anchor nA) (anchor nB) (ctrl2 nA) (ctrl1 nB) = true ->
  handleSymmetryEdgePick point s
  = Ok (setSymmetryState inactive
          (updateStateAndHistory
             (set_type smooth
                (set_ctrl2 (reflectPoint (anchor nA) (anchor nB) (ctrl1 nA)) nA)
              :: map (mirrorNode (anchor nA) (anchor nB))
                   (rev (intermediates i (nodes s)))
              ++ set_type smooth
                   (set_ctrl1 (reflectPoint (anchor nA) (anchor nB) (ctrl2 nB)) nB)
                 :: intermediates i (nodes s))
             true s)).
Proof.
  intros Hc Hlen Hscan HA HB Hst.
  unfold handleSymmetryEdgePick.
  rewrite Hc. destruct (Nat.ltb_spec (length (nodes s)) 3); [ lia | ].
  cbn [negb orb]. rewrite Hscan. cbn [bind fst].
  destruct (Z.eqb_spec (Z.of_nat i) (-1)); [ lia | ].
  rewrite Nat2Z.id, HA, HB. cbn [bind]. rewrite Hst. cbn [negb].
  destruct (collectBody_bodyFrom (nodes s) i (proj1 (get_nth_error _ _ _) HA))
    as (body & Hbody & Hfrom).
  rewrite Hbody. cbn [bind]. rewrite Hfrom, slice_intermediate.
  fold (intermediates i (nodes s)).
  assert (Hmirror :
    map swapHandles (rev (map (reflectNode (anchor nA) (anchor nB))
                            (intermediates i (nodes s))))
    = map (mirrorNode (anchor nA) (anchor nB)) (rev (intermediates i (nodes s)))).
  { rewrite <- map_rev, map_map. reflexivity. }
  rewrite Hmirror. reflexivity.
Qed.

End SymmetryFacts.

(** Witness of C2: an open path, and the square with a bent first edge. *)
Lemma symmetry_failure_leaves_path_witness :
  (exists s',
     handleSymmetryEdgePick origin (initialState (num := float) None) = Ok s'
     /\ nodes s' = [] /\ symmetryState s' = inactive /\ alerts s' = [])
  /\ (exists s',
        handleSymmetryEdgePick {| x := 50%float; y := 1%float |}
          (closedPath bentSquare) = Ok s'
        /\ nodes s' = bentSquare /\ symmetryState s' = inactive
        /\ alerts s' = [notStraightEdgeError]).
Proof.
  split.
  - destruct (@symmetry_failure_leaves_path float IEEE IEEE_Infinity origin
                (initialState None) [])
      as (s' & Hrun & Hn & _ & _ & _ & Hs & Ha).
    + apply NoEligiblePath. left. reflexivity.
    + exists s'. auto.
  - destruct (@symmetry_failure_leaves_path float IEEE IEEE_Infinity
                {| x := 50%float; y := 1%float |} (closedPath bentSquare)
                [notStraightEdgeError])
      as (s' & Hrun & Hn & _ & _ & _ & Hs & Ha).
    + eapply (@NotStraightEdge float IEEE IEEE_Infinity _ _ 0).
      * reflexivity.
      * simpl. lia.
      * vm_compute. reflexivity.
      * reflexivity.
      * vm_compute. reflexivity.
    + exists s'. auto.
Defined.

(** ** The nearest-point search *)

Section SearchFacts.
Context {num : Type} {N : Number num}.

(** The parameter the sampling loop holds is its initial one or a sample's. *)
Lemma sampling_keeps_samples (point p0 p1 p2 p3 : Point num) (l : list nat) :
  forall acc : num * num,
    let r := fold_left (fun a i => sample_step point p0 p1 p2 p3 i a) l acc in
    snd r = snd acc \/ In (snd r) (map sample_t l).
Proof.
  induction l as [| i rest IH]; intros acc; cbn [fold_left map].
  - left. reflexivity.
  - destruct (IH (sample_step point p0 p1 p2 p3 i acc)) as [Hsame | Hin].
    + rewrite Hsame. unfold sample_step.
      destruct (nlt _ (fst acc)); cbn [snd]; [ right; left | left ]; reflexivity.
    + right. right. exact Hin.
Qed.

Lemma closest_t_is_sample {I : Infinite num} (point p0 p1 p2 p3 : Point num) :
  In (closest_t (findClosestPointOnCubicBezier point p0 p1 p2 p3))
     ((#0)%num :: map sample_t (seq 0 (S steps))).
Proof.
  unfold findClosestPointOnCubicBezier. cbn [closest_t].
  destruct (sampling_keeps_samples point p0 p1 p2 p3 (seq 0 (S steps))
              (Infinity, (#0)%num)) as [Hinit | Hin].
  - left. symmetry. exact Hinit.
  - right. exact Hin.
Qed.

End SearchFacts.

(** In binary64 every parameter the search can return lies in [[0, 1]]. *)
Lemma closest_t_unit_interval (point p0 p1 p2 p3 : Point float) :
  let t := closest_t (findClosestPointOnCubicBezier point p0 p1 p2 p3) in
  PrimFloat.leb 0 t = true /\ PrimFloat.leb t 1 = true.
Proof.
  intros t.
  assert (Hall : forallb (fun v => PrimFloat.leb 0 v && PrimFloat.leb v 1)
                   ((#0)%num :: map sample_t (seq 0 (S steps))) = true)
    by (vm_compute; reflexivity).
  rewrite forallb_forall in Hall.
  specialize (Hall t (closest_t_is_sample point p0 p1 p2 p3)).
  apply andb_true_iff in Hall. exact Hall.
Qed.

(** Counterexample to C10 as stated: a closed triangle whose coordinates are
    all finite ([2^700], [2^701]) and a pick at the origin. Every squared
    distance overflows, so no sample compares below [Infinity]: the search
    returns the distance [Infinity], the scan selects no edge, and the pick
    takes the branch for [closestEdgeIndex === -1]. *)
Lemma closest_edge_overflow :
  isPathClosed (closedPath farTriangle) = true
  /\ length (nodes (closedPath farTriangle)) = 3
  /\ forallb finiteNode farTriangle = true
  /\ finitePoint origin = true
  /\ closestEdge origin farTriangle = Ok ((-1)%Z, PrimFloat.infinity)
  /\ (forall i seg, segment farTriangle i = Ok seg ->
        isFinite (edgeDistance origin seg) = false)
  /\ handleSymmetryEdgePick origin (closedPath farTriangle)
     = Ok (setSymmetryState inactive (closedPath farTriangle)).
Proof.
  split; [ reflexivity | ]. split; [ reflexivity | ].
  split; [ vm_compute; reflexivity | ]. split; [ vm_compute; reflexivity | ].
  split; [ vm_compute; reflexivity | ].
  split; [ | vm_compute; reflexivity ].
  intros i seg Hseg.
  destruct i as [| [| [| i]]];
    [ | | | vm_compute in Hseg; destruct i; discriminate ];
    vm_compute in Hseg; inversion Hseg; subst seg; vm_compute; reflexivity.
Qed.

(** In binary64, what compares below a number compares below [Infinity]. *)
Lemma ltb_below_infinity (a b : float) :
  PrimFloat.ltb a b = true -> PrimFloat.ltb a PrimFloat.infinity = true.
Proof.
  rewrite !FloatAxioms.ltb_spec.
  change (Prim2SF PrimFloat.infinity) with (S754_infinity false).
  unfold SFltb.
  destruct (Prim2SF a) as [sa | sa | | sa ma ea];
    destruct (Prim2SF b) as [sb | sb | | sb mb eb];
    try destruct sa; try destruct sb; cbn; intros H; try discriminate;
    reflexivity.
Qed.

(** ** Reflection across the axis *)

(** The guard of [reflectPoint], for every reading of numbers: the quotients
    are formed only on a divisor that does not compare equal to zero. *)
Lemma reflectPoint_checked {num : Type} {N : Number num} (pA pB p : Point num) :
  reflectPointChecked pA pB p = Some (reflectPoint pA pB p).
Proof.
  unfold reflectPointChecked, reflectPoint, checked_div.
  destruct (neq (D_coeff pA pB) (fromZ 0)); reflexivity.
Qed.

(** Unfolding of the numeric interface at the real numbers. *)
Ltac real_ops :=
  cbn [nadd nsub nmul ndiv nlt neq fromZ Math_abs Math_sqrt Math_max Math_min
       Math_hypot Math_atan2 Math_cos Math_sin Math_round Real Real_MathLib] in *.

Lemma Reqb_true (a b : R) : Reqb a b = true <-> a = b.
Proof. unfold Reqb. destruct (Req_dec_T a b); split; congruence. Qed.

Lemma Reqb_false (a b : R) : Reqb a b = false <-> a <> b.
Proof. unfold Reqb. destruct (Req_dec_T a b); split; congruence. Qed.

Lemma Rltb_true (a b : R) : Rltb a b = true <-> (a < b)%R.
Proof. unfold Rltb. destruct (Rlt_dec a b); split; congruence. Qed.

Lemma Rltb_false (a b : R) : Rltb a b = false <-> (b <= a)%R.
Proof.
  unfold Rltb. destruct (Rlt_dec a b); split; try congruence; intros; lra.
Qed.

(** The straightness test over the reals: both handles of the edge have a
    cross product with the edge of absolute value below [1e-3]. *)
Lemma isStraight_tolerance (pA pB ctrlA ctrlB : Point R) :
  isStraight pA pB ctrlA ctrlB = true
  <-> (Rabs (cross pA pB ctrlA) < 1 / 1000)%R
      /\ (Rabs (cross pA pB ctrlB) < 1 / 1000)%R.
Proof.
  unfold isStraight, cross. real_ops.
  rewrite andb_true_iff, !Rltb_true. reflexivity.
Qed.

Lemma Point_eta {num : Type} (p : Point num) : {| x := x p; y := y p |} = p.
Proof. destruct p. reflexivity. Qed.

Lemma D_coeff_zero_iff (lineA lineB : Point R) :
  D_coeff lineA lineB = 0%R <-> lineA = lineB.
Proof.
  unfold D_coeff, A_coeff, B_coeff. real_ops.
  destruct lineA as [ax ay], lineB as [bx by']. cbn [x y]. split.
  - intros H. destruct (Rplus_sqr_eq_0 (by' - ay) (ax - bx) H) as [Hy Hx].
    f_equal; lra.
  - intros H. inversion H. subst. ring.
Qed.

(** Over the reals and on an axis of two distinct points, [reflectPoint] is
    the mirror image: the midpoint of a point and its image is on the axis,
    and the step from the point to its image is along the normal [(A, B)]. *)
Lemma reflectPoint_mirror (lineA lineB p : Point R) :
  lineA <> lineB ->
  let q := reflectPoint lineA lineB p in
  (A_coeff lineA lineB * ((x p + x q) / 2) + B_coeff lineA lineB * ((y p + y q) / 2)
   + C_coeff lineA lineB = 0)%R
  /\ ((x q - x p) * B_coeff lineA lineB = (y q - y p) * A_coeff lineA lineB)%R.
Proof.
  intros Hne q.
  assert (HD : D_coeff lineA lineB <> 0%R)
    by (intros H; apply Hne, D_coeff_zero_iff, H).
  unfold q, reflectPoint. real_ops. rewrite (proj2 (Reqb_false _ _) HD).
  cbn [x y]. unfold D_coeff in *. real_ops.
  set (A := A_coeff lineA lineB) in *. set (B := B_coeff lineA lineB) in *.
  set (C := C_coeff lineA lineB) in *.
  split; field; exact HD.
Qed.

(** Finite binary64 numbers are zeros or have a mantissa and an exponent. *)
Lemma isFinite_cases (a : float) :
  isFinite a = true ->
  (exists s, Prim2SF a = S754_zero s)
  \/ (exists s m e, Prim2SF a = S754_finite s m e).
Proof.
  unfold isFinite, PrimFloat.is_nan, PrimFloat.is_infinity.
  rewrite !FloatAxioms.eqb_spec, FloatAxioms.abs_spec.
  destruct (Prim2SF a) as [s | s | | s m e]; intros H.
  - left. eauto.
  - destruct s; vm_compute in H; discriminate.
  - vm_compute in H. discriminate.
  - right. eauto.
Qed.

Lemma float_sub_diag (a : float) :
  isFinite a = true -> PrimFloat.sub a a = PrimFloat.zero.
Proof.
  intros H. apply Prim2SF_inj. rewrite FloatAxioms.sub_spec.
  destruct (isFinite_cases a H) as [(s & E) | (s & m & e & E)]; rewrite E.
  - destruct s; reflexivity.
  - unfold SF64sub, SFsub. cbv zeta. rewrite Z.sub_diag. reflexivity.
Qed.

(** In binary64, an axis whose two points are the same finite point has zero
    coefficients and divisor, and the input point is returned. *)
Lemma reflectPoint_degenerate_binary64 (lineA p : Point float) :
  finitePoint lineA = true ->
  A_coeff lineA lineA = PrimFloat.zero
  /\ B_coeff lineA lineA = PrimFloat.zero
  /\ D_coeff lineA lineA = PrimFloat.zero
  /\ reflectPoint lineA lineA p = p.
Proof.
  unfold finitePoint. intros H. apply andb_true_iff in H. destruct H as [Hx Hy].
  assert (HA : A_coeff lineA lineA = PrimFloat.zero)
    by (unfold A_coeff; cbn [nsub IEEE]; apply float_sub_diag, Hy).
  assert (HB : B_coeff lineA lineA = PrimFloat.zero)
    by (unfold B_coeff; cbn [nsub IEEE]; apply float_sub_diag, Hx).
  assert (HD : D_coeff lineA lineA = PrimFloat.zero)
    by (unfold D_coeff; rewrite HA, HB; reflexivity).
  repeat split; auto.
  unfold reflectPoint. rewrite HD. cbn. apply Point_eta.
Qed.

(** The same over the reals, where the divisor is zero on no other axis. *)
Lemma reflectPoint_real_axis (lineA lineB p : Point R) :
  (lineA = lineB ->
   A_coeff lineA lineB = 0%R /\ B_coeff lineA lineB = 0%R
   /\ D_coeff lineA lineB = 0%R
   /\ reflectPoint lineA lineB p = p)
  /\ (lineA <> lineB ->
      (0 < D_coeff lineA lineB)%R
      /\ reflectPoint lineA lineB p
         = let val := (A_coeff lineA lineB * x p + B_coeff lineA lineB * y p
                       + C_coeff lineA lineB)%R in
           {| x := (x p - 2 * A_coeff lineA lineB * val / D_coeff lineA lineB)%R;
              y := (y p - 2 * B_coeff lineA lineB * val / D_coeff lineA lineB)%R |}).
Proof.
  split.
  - intros Heq. pose proof (proj2 (D_coeff_zero_iff lineA lineB) Heq) as HD.
    repeat split.
    + subst lineB. unfold A_coeff. real_ops. ring.
    + subst lineB. unfold B_coeff. real_ops. ring.
    + exact HD.
    + unfold reflectPoint. rewrite HD. real_ops.
      rewrite (proj2 (Reqb_true 0 0) eq_refl). apply Point_eta.
  - intros Hne.
    assert (HD : D_coeff lineA lineB <> 0%R)
      by (intros H; apply Hne, D_coeff_zero_iff, H).
    split.
    + assert (0 <= D_coeff lineA lineB)%R
        by (unfold D_coeff; real_ops; nra).
      lra.
    + unfold reflectPoint. real_ops.
      rewrite (proj2 (Reqb_false _ _) HD). reflexivity.
Qed.

(** Counterexample to C9 as stated: in binary64 the axis from [(0,0)] to
    [(2^-600, 0)] has two distinct points, yet the square of [B] underflows
    and the divisor is zero, not strictly positive; the guard returns the
    input point. *)
Example reflectPoint_underflow :
  let lineA := {| x := 0%float; y := 0%float |} in
  let lineB := {| x := 0x1p-600%float; y := 0%float |} in
  let p := {| x := 3%float; y := 4%float |} in
  PrimFloat.eqb (x lineA) (x lineB) = false
  /\ B_coeff lineA lineB = (- 0x1p-600)%float
  /\ D_coeff lineA lineB = 0%float
  /\ PrimFloat.ltb 0 (D_coeff lineA lineB) = false
  /\ reflectPoint lineA lineB p = p.
Proof. repeat split; vm_compute; reflexivity. Qed.

(** C9, amended. Under every reading of numbers, the two divisions of
    [reflectPoint] are never by zero, and the input point is returned
    whenever the divisor [A*A + B*B] compares equal to zero. When [lineA] and
    [lineB] are the same point (of finite coordinates, in binary64) the
    coefficients [A], [B] and the divisor are zero and the input point is
    returned unchanged. On an axis of two distinct points the divisor is
    strictly positive over the reals, and the result is the point computed
    with the two quotients. *)
Theorem reflectPoint_guards_division :
  (forall (num : Type) (N : Number num) (pA pB q : Point num),
     reflectPointChecked pA pB q = Some (reflectPoint pA pB q)
     /\ ((D_coeff pA pB =? #0)%num = true -> reflectPoint pA pB q = q))
  /\ (forall lineA p : Point float,
        finitePoint lineA = true ->
        A_coeff lineA lineA = PrimFloat.zero
        /\ B_coeff lineA lineA = PrimFloat.zero
        /\ D_coeff lineA lineA = PrimFloat.zero
        /\ reflectPoint lineA lineA p = p)
  /\ (forall lineA lineB p : Point R,
        (lineA = lineB ->
         A_coeff lineA lineB = 0%R /\ B_coeff lineA lineB = 0%R
         /\ D_coeff lineA lineB = 0%R
         /\ reflectPoint lineA lineB p = p)
        /\ (lineA <> lineB ->
            (0 < D_coeff lineA lineB)%R
            /\ reflectPoint lineA lineB p
               = let val := (A_coeff lineA lineB * x p + B_coeff lineA lineB * y p
                             + C_coeff lineA lineB)%R in
                 {| x := (x p - 2 * A_coeff lineA lineB * val
                                / D_coeff lineA lineB)%R;
                    y := (y p - 2 * B_coeff lineA lineB * val
                                / D_coeff lineA lineB)%R |})).
Proof.
  split; [ | split ].
  - intros num N pA pB q. split; [ apply reflectPoint_checked | ].
    intros HD. unfold reflectPoint. rewrite HD. apply Point_eta.
  - apply reflectPoint_degenerate_binary64.
  - apply reflectPoint_real_axis.
Qed.

(** Over the reals and on an axis of two distinct points, the point that
    [reflectPoint] returns is the mirror image across the line through the two
    points. *)
Lemma reflectPoint_mirrorImage (lineA lineB p : Point R) :
  lineA <> lineB -> mirrorImage lineA lineB p (reflectPoint lineA lineB p).
Proof.
  intros Hne.
  assert (HD : D_coeff lineA lineB <> 0%R)
    by (intros H; apply Hne, D_coeff_zero_iff, H).
  unfold mirrorImage, cross, reflectPoint. real_ops.
  rewrite (proj2 (Reqb_false _ _) HD).
  unfold D_coeff, A_coeff, B_coeff, C_coeff in *. real_ops.
  destruct lineA as [ax ay], lineB as [bx by'], p as [px py]. cbn [x y] in *.
  split; field; exact HD.
Qed.

(** Counterexample to C1 as stated: in binary64, the closed triangle
    [(0,0) (2^-600,0) (1,1)] picked at the origin. All coordinates are
    finite, the scan selects the first edge, whose two anchors differ and lie
    on the line [y = 0], and the edge passes the straightness test. The
    square of the edge's length underflows, [reflectPoint] returns its
    argument, and the mirrored copy of the node at [(1,1)] has its anchor at
    [(1,1)], not at the mirror image [(1,-1)]. *)
Lemma reflectAndMerge_underflow :
  let A := {| x := 0%float; y := 0%float |} in
  let B := {| x := 0x1p-600%float; y := 0%float |} in
  let C := {| x := 1%float; y := 1%float |} in
  isPathClosed (closedPath shortAxisTriangle) = true
  /\ length (nodes (closedPath shortAxisTriangle)) = 3
  /\ forallb finiteNode shortAxisTriangle = true
  /\ map (@anchor float) shortAxisTriangle = [A; B; C]
  /\ PrimFloat.eqb (x A) (x B) = false
  /\ closestEdge origin shortAxisTriangle = Ok (0%Z, 0%float)
  /\ (exists ctrlA ctrlB,
        segment shortAxisTriangle 0 = Ok (A, ctrlA, ctrlB, B)
        /\ isStraight A B ctrlA ctrlB = true)
  /\ intermediates 0 shortAxisTriangle = [newCornerNode C]
  /\ D_coeff A B = 0%float
  /\ exists s',
       handleSymmetryEdgePick origin (closedPath shortAxisTriangle) = Ok s'
       /\ map (@anchor float) (nodes s') = [A; C; B; C].
Proof.
  cbv zeta.
  do 6 (split; [ vm_compute; reflexivity | ]).
  split; [ do 2 eexists; split; vm_compute; reflexivity | ].
  do 2 (split; [ vm_compute; reflexivity | ]).
  eexists. split; vm_compute; reflexivity.
Qed.

(** C1, amended. Under every reading of numbers: on a closed path of at least
    3 nodes, when the scan selects edge [i] from node [A] to its successor [B]
    and the edge passes the straightness test, the symmetry pick completes
    with the path [A'], then the intermediate nodes (those strictly between
    [B] and [A] on the walk from [B]) in reverse order, each with
    [reflectPoint] applied to its anchor and its two handles and with the two
    handles exchanged, then [B'], then the intermediate nodes themselves;
    that is twice the number of intermediate nodes plus 2 nodes, and the path
    is closed. When the divisor [A*A + B*B] compares equal to zero,
    [reflectPoint] returns its argument, so the mirrored nodes are copies
    with their handles exchanged. Over the reals, on two distinct anchors,
    [reflectPoint] returns the mirror image of its argument across the line
    through the anchors of [A] and [B]. *)
Theorem reflectAndMerge_assembles :
  (forall (num : Type) (N : Number num) (I : Infinite num) (point : Point num)
          (s : AppState num) (i : nat) (d : num) (nA nB : Node num),
     isPathClosed s = true ->
     3 <= length (nodes s) ->
     closestEdge point (nodes s) = Ok (Z.of_nat i, d) ->
     get (nodes s) i = Ok nA ->
     get (nodes s) ((i + 1) mod length (nodes s)) = Ok nB ->
     isStraight (anchor nA) (anchor nB) (ctrl2 nA) (ctrl1 nB) = true ->
     let inter := intermediates i (nodes s) in
     let reflect := reflectPoint (anchor nA) (anchor nB) in
     let A' := {| anchor := anchor nA; ctrl1 := ctrl1 nA;
                  ctrl2 := reflect (ctrl1 nA); type := smooth |} in
     let B' := {| anchor := anchor nB; ctrl1 := reflect (ctrl2 nB);
                  ctrl2 := ctrl2 nB; type := smooth |} in
     let mirror := fun n : Node num =>
       {| anchor := reflect (anchor n); ctrl1 := reflect (ctrl2 n);
          ctrl2 := reflect (ctrl1 n); type := type n |} in
     exists s',
       handleSymmetryEdgePick point s = Ok s'
       /\ nodes s' = A' :: map mirror (rev inter) ++ B' :: inter
       /\ length inter = length (nodes s) - 2
       /\ length (nodes s') = 2 * length inter + 2
       /\ isPathClosed s' = true
       /\ ((D_coeff (anchor nA) (anchor nB) =? #0)%num = true ->
           forall p, reflect p = p))
  /\ (forall lineA lineB p : Point R,
        lineA <> lineB ->
        mirrorImage lineA lineB p (reflectPoint lineA lineB p)).
Proof.
  split; [ | apply reflectPoint_mirrorImage ].
  intros num N I point s i d nA nB Hc Hlen Hscan HA HB Hstraight
         inter reflect A' B' mirror.
  pose proof (@symmetry_pick_assembles num N I point s i d nA nB
                Hc Hlen Hscan HA HB Hstraight) as Hrun.
  eexists. split; [ exact Hrun | ].
  cbn [nodes setSymmetryState updateStateAndHistory setHistoryIndex setHistory
       setIsPathClosed setNodes isPathClosed].
  fold inter.
  split; [ reflexivity | ].
  split; [ apply intermediates_length | ].
  split.
  { cbn [length]. rewrite length_app, length_map, length_rev. cbn [length]. lia. }
  split; [ reflexivity | ].
  intros HD p. unfold reflect, reflectPoint. rewrite HD. apply Point_eta.
Qed.

(** Witness of C1 (amended): in binary64, the square with straight edges,
    picked near the middle of its first edge, becomes the six-node path that
    holds the square and its mirror image across the line [y = 0]; over the
    reals, what [reflectPoint] returns for [(1,1)] and the axis from the
    origin to [(1,0)] is the mirror image of [(1,1)]. *)
Lemma reflectAndMerge_assembles_witness :
  let P := fun a b : float => {| x := a; y := b |} in
  let Q := fun a b : R => {| x := a; y := b |} in
  (exists s',
     handleSymmetryEdgePick (P 50 1)%float (closedPath squareOf) = Ok s'
     /\ map (@anchor float) (nodes s')
        = [ P 0 0; P 0 (-100); P 100 (-100); P 100 0; P 100 100; P 0 100 ]%float
     /\ isPathClosed s' = true)
  /\ mirrorImage (Q 0 0)%R (Q 1 0)%R (Q 1 1)%R
       (reflectPoint (Q 0 0)%R (Q 1 0)%R (Q 1 1)%R).
Proof.
  intros P Q. split.
  - destruct (proj1 reflectAndMerge_assembles float IEEE IEEE_Infinity
                (P 50 1)%float (closedPath squareOf) 0 1%float
                {| anchor := P 0 0; ctrl1 := P 0 25; ctrl2 := P 25 0;
                   type := corner |}%float
                {| anchor := P 100 0; ctrl1 := P 75 0; ctrl2 := P 100 25;
                   type := corner |}%float)
      as (s' & Hrun & Hnodes & _ & _ & Hclosed & _).
    + reflexivity.
    + simpl. lia.
    + vm_compute. reflexivity.
    + reflexivity.
    + reflexivity.
    + vm_compute. reflexivity.
    + exists s'. split; [ exact Hrun | ]. split; [ | exact Hclosed ].
      rewrite Hnodes. vm_compute. reflexivity.
  - apply (proj2 reflectAndMerge_assembles (Q 0 0)%R (Q 1 0)%R (Q 1 1)%R).
    intros H. inversion H. lra.
Defined.

(** ** Insertion on a segment *)

Section InsertFacts.
Context {num : Type} {N : Number num}.
Implicit Types (arr : list (Node num)).

Lemma splice_in_length {A : Type} (i : nat) (v : A) (l : list A) :
  length (splice_in i v l) = S (length l).
Proof.
  unfold splice_in. rewrite length_app. cbn [length].
  rewrite length_firstn, length_skipn. lia.
Qed.

(** Reading the array after [splice(index + 1, 0, v)]. *)
Lemma splice_in_before {A : Type} (index : nat) (v : A) (l : list A) (j : nat) :
  j <= index -> index < length l ->
  nth_error (splice_in (index + 1) v l) j = nth_error l j.
Proof.
  intros Hj Hi. unfold splice_in.
  rewrite nth_error_app1 by (rewrite length_firstn; lia).
  rewrite nth_error_firstn.
  destruct (Nat.ltb_spec j (index + 1)); [ reflexivity | lia ].
Qed.

Lemma splice_in_at {A : Type} (index : nat) (v : A) (l : list A) :
  index < length l ->
  nth_error (splice_in (index + 1) v l) (index + 1) = Some v.
Proof.
  intros Hi. unfold splice_in.
  rewrite nth_error_app2 by (rewrite length_firstn; lia).
  rewrite length_firstn, Nat.min_l by lia. rewrite Nat.sub_diag. reflexivity.
Qed.

Lemma splice_in_next {A : Type} (index : nat) (v : A) (l : list A) :
  index < length l ->
  nth_error (splice_in (index + 1) v l) ((index + 1 + 1) mod S (length l))
  = nth_error l ((index + 1) mod length l).
Proof.
  intros Hi. destruct (Nat.eq_dec (index + 1) (length l)) as [Hlast | Hmid].
  - assert (Hm1 : (index + 1 + 1) mod S (length l) = 0)
      by (replace (index + 1 + 1) with (S (length l)) by lia;
          apply Nat.Div0.mod_same).
    assert (Hm2 : (index + 1) mod length l = 0)
      by (rewrite Hlast; apply Nat.Div0.mod_same).
    rewrite Hm1, Hm2. apply splice_in_before; lia.
  - rewrite !Nat.mod_small by lia. unfold splice_in.
    rewrite nth_error_app2 by (rewrite length_firstn; lia).
    rewrite length_firstn, Nat.min_l by lia.
    replace (index + 1 + 1 - (index + 1)) with 1 by lia.
    change (nth_error (skipn (index + 1) l) 0 = nth_error l (index + 1)).
    rewrite nth_error_skipn. f_equal. lia.
Qed.

(** The outcome of an insertion on a segment of the array: the array has one
    more node, the new node sits after [index], and the two segments that
    replace segment [index] have de Casteljau's control points. *)
Lemma insertOnSegment_segments arr (index : nat) (t : num)
    (p0 p1 p2 p3 : Point num) :
  segment arr index = Ok (p0, p1, p2, p3) ->
  let p01 := lerp t p0 p1 in
  let p12 := lerp t p1 p2 in
  let p23 := lerp t p2 p3 in
  let p012 := lerp t p01 p12 in
  let p123 := lerp t p12 p23 in
  let newAnchor := lerp t p012 p123 in
  exists arr',
    insertOnSegment arr index t = Ok arr'
    /\ length arr' = S (length arr)
    /\ get arr' (index + 1)
       = Ok {| anchor := newAnchor; ctrl1 := p012; ctrl2 := p123; type := smooth |}
    /\ segment arr' index = Ok (p0, p01, p012, newAnchor)
    /\ segment arr' (index + 1) = Ok (newAnchor, p123, p23, p3).
Proof.
  intros Hseg p01 p12 p23 p012 p123 newAnchor.
  unfold segment in Hseg.
  destruct (get arr index) as [n0 | | |] eqn:H0; try discriminate.
  destruct (get arr ((index + 1) mod length arr)) as [n1 | | |] eqn:H1;
    try discriminate.
  cbn [bind] in Hseg. inversion Hseg. subst p0 p1 p2 p3. clear Hseg.
  pose proof (get_length _ _ H0) as Hi.
  pose proof (get_length _ _ H1) as Hnext.
  set (next := (index + 1) mod length arr) in *.
  unfold insertOnSegment. fold next. rewrite H0, H1. cbn [bind].
  fold p01 p12 p23 p012 p123 newAnchor.
  set (arr1 := update arr index (set_ctrl2 p01 n0)).
  assert (H1' : exists m1, get arr1 next = Ok m1 /\ anchor m1 = anchor n1).
  { destruct (Nat.eq_dec index next) as [Heq | Hne].
    - exists (set_ctrl2 p01 n0). split.
      + apply get_nth_error. rewrite <- Heq. apply nth_error_update_same, Hi.
      + rewrite <- Heq in H1. rewrite H0 in H1. inversion H1. reflexivity.
    - exists n1. split; [ | reflexivity ].
      apply get_nth_error. unfold arr1.
      rewrite nth_error_update_other by exact Hne. apply get_nth_error, H1. }
  destruct H1' as (m1 & Hm1 & Hanchor). rewrite Hm1. cbn [bind].
  set (arr2 := update arr1 next (set_ctrl1 p23 m1)).
  assert (Hlen2 : length arr2 = length arr)
    by (unfold arr2, arr1; rewrite !update_length; reflexivity).
  assert (Hat : exists a, nth_error arr2 index = Some a
                          /\ anchor a = anchor n0 /\ ctrl2 a = p01).
  { destruct (Nat.eq_dec next index) as [Heq | Hne].
    - exists (set_ctrl1 p23 m1). split.
      + unfold arr2. rewrite Heq. apply nth_error_update_same.
        unfold arr1. rewrite update_length. exact Hi.
      + apply get_nth_error in Hm1. unfold arr1 in Hm1.
        rewrite Heq, nth_error_update_same in Hm1 by exact Hi.
        inversion Hm1. split; reflexivity.
    - exists (set_ctrl2 p01 n0). split; [ | split; reflexivity ].
      unfold arr2. rewrite nth_error_update_other by exact Hne.
      apply nth_error_update_same, Hi. }
  assert (Hnx : nth_error arr2 next = Some (set_ctrl1 p23 m1)).
  { apply nth_error_update_same. unfold arr1. rewrite update_length. exact Hnext. }
  destruct Hat as (a & Ha & Ha0 & Ha2).
  eexists. split; [ reflexivity | ].
  assert (Hi2 : index < length arr2) by lia.
  split; [ rewrite splice_in_length; lia | ].
  split; [ apply get_nth_error, splice_in_at, Hi2 | ].
  split.
  - unfold segment, get. rewrite splice_in_before by lia. rewrite Ha. cbn [bind].
    rewrite splice_in_length, Hlen2, (Nat.mod_small (index + 1)) by lia.
    rewrite splice_in_at by exact Hi2. cbn [bind anchor ctrl1]. congruence.
  - unfold segment, get. rewrite splice_in_at by exact Hi2. cbn [bind].
    rewrite splice_in_length, splice_in_next by exact Hi2.
    rewrite Hlen2. fold next. rewrite Hnx. cbn [bind anchor ctrl1 ctrl2 set_ctrl1].
    congruence.
Qed.

End InsertFacts.

(** De Casteljau's halves trace the curve they split. *)
Lemma deCasteljau_halves (t u : R) (p0 p1 p2 p3 : Point R) :
  let p01 := lerp t p0 p1 in
  let p12 := lerp t p1 p2 in
  let p23 := lerp t p2 p3 in
  let p012 := lerp t p01 p12 in
  let p123 := lerp t p12 p23 in
  let newAnchor := lerp t p012 p123 in
  newAnchor = getPointOnCubicBezier t p0 p1 p2 p3
  /\ getPointOnCubicBezier u p0 p01 p012 newAnchor
     = getPointOnCubicBezier (t * u)%R p0 p1 p2 p3
  /\ getPointOnCubicBezier u newAnchor p123 p23 p3
     = getPointOnCubicBezier (t + (1 - t) * u)%R p0 p1 p2 p3.
Proof.
  destruct p0 as [x0 y0], p1 as [x1 y1], p2 as [x2 y2], p3 as [x3 y3].
  unfold getPointOnCubicBezier, lerp. cbn [x y]. real_ops.
  repeat split; f_equal; ring.
Qed.

(** C4. Over the reals, inserting a node on segment [index] at any parameter
    [t] completes; the new node is Smooth, sits after [index] and has the
    point of the segment at [t] for anchor; and the two segments that replace
    the segment trace the same curve: the first at parameter [u] is the old
    segment at [t * u], the second is the old segment at [t + (1 - t) * u]. *)
Theorem insertion_preserves_curve (arr : list (Node R)) (index : nat) (t : R)
    (p0 p1 p2 p3 : Point R) :
  segment arr index = Ok (p0, p1, p2, p3) ->
  exists arr' newNode first second,
    insertOnSegment arr index t = Ok arr'
    /\ length arr' = S (length arr)
    /\ get arr' (index + 1) = Ok newNode
    /\ type newNode = smooth
    /\ anchor newNode = getPointOnCubicBezier t p0 p1 p2 p3
    /\ segment arr' index = Ok first
    /\ segment arr' (index + 1) = Ok second
    /\ forall u : R,
         segmentPoint u first = getPointOnCubicBezier (t * u)%R p0 p1 p2 p3
         /\ segmentPoint u second
            = getPointOnCubicBezier (t + (1 - t) * u)%R p0 p1 p2 p3.
Proof.
  intros Hseg.
  destruct (insertOnSegment_segments arr index t Hseg)
    as (arr' & Hrun & Hlen & Hnew & Hfirst & Hsecond).
  do 4 eexists.
  split; [ exact Hrun | ]. split; [ exact Hlen | ]. split; [ exact Hnew | ].
  split; [ reflexivity | ].
  split; [ apply (deCasteljau_halves t 0 p0 p1 p2 p3) | ].
  split; [ exact Hfirst | ]. split; [ exact Hsecond | ].
  intros u. cbn [segmentPoint].
  destruct (deCasteljau_halves t u p0 p1 p2 p3) as (_ & Hl & Hr). auto.
Qed.

Section RealGeometry.
Local Open Scope R_scope.

(** ** Polar coordinates over the reals *)

Lemma hypot_factor (vx vy : R) :
  vx <> 0 ->
  sqrt (vx * vx + vy * vy) = Rabs vx * sqrt (1 + Rsqr (vy / vx)).
Proof.
  intros Hx.
  rewrite <- sqrt_Rsqr_abs, <- sqrt_mult.
  - f_equal. unfold Rsqr. field. exact Hx.
  - apply Rle_0_sqr.
  - pose proof (Rle_0_sqr (vy / vx)). lra.
Qed.

Lemma sqrt_1_sqr_pos (z : R) : 0 < sqrt (1 + Rsqr z).
Proof. apply sqrt_lt_R0. pose proof (Rle_0_sqr z). lra. Qed.

(** The angle [Ratan2] gives and the length taken by [Math_hypot] recover the
    vector. *)
Lemma hypot_cos_atan2 (vx vy : R) :
  sqrt (vx * vx + vy * vy) * cos (Ratan2 vy vx) = vx.
Proof.
  unfold Ratan2.
  destruct (Rlt_dec 0 vx) as [Hpos | Hnpos].
  - rewrite hypot_factor, cos_atan, Rabs_right by lra.
    pose proof (sqrt_1_sqr_pos (vy / vx)). field. lra.
  - destruct (Rlt_dec vx 0) as [Hneg | Hnneg].
    + assert (Hc : cos (atan (vy / vx) + PI) = - cos (atan (vy / vx))
                   /\ cos (atan (vy / vx) - PI) = - cos (atan (vy / vx))).
      { split; [ apply neg_cos | ].
        rewrite cos_minus, cos_PI, sin_PI. ring. }
      destruct Hc as [Hc1 Hc2].
      pose proof (sqrt_1_sqr_pos (vy / vx)).
      destruct (Rle_dec 0 vy); [ rewrite Hc1 | rewrite Hc2 ];
        rewrite hypot_factor, cos_atan, Rabs_left by lra; field; lra.
    + assert (vx = 0) by lra. subst vx.
      destruct (Rlt_dec 0 vy); [ rewrite cos_PI2; ring | ].
      destruct (Rlt_dec vy 0); [ rewrite cos_neg, cos_PI2; ring | ].
      assert (vy = 0) by lra. subst vy.
      replace (0 * 0 + 0 * 0) with 0 by ring. rewrite sqrt_0. ring.
Qed.

Lemma hypot_sin_atan2 (vx vy : R) :
  sqrt (vx * vx + vy * vy) * sin (Ratan2 vy vx) = vy.
Proof.
  unfold Ratan2.
  destruct (Rlt_dec 0 vx) as [Hpos | Hnpos].
  - rewrite hypot_factor, sin_atan, Rabs_right by lra.
    pose proof (sqrt_1_sqr_pos (vy / vx)). field. lra.
  - destruct (Rlt_dec vx 0) as [Hneg | Hnneg].
    + assert (Hc : sin (atan (vy / vx) + PI) = - sin (atan (vy / vx))
                   /\ sin (atan (vy / vx) - PI) = - sin (atan (vy / vx))).
      { split; [ apply neg_sin | ].
        rewrite sin_minus, cos_PI, sin_PI. ring. }
      destruct Hc as [Hc1 Hc2].
      pose proof (sqrt_1_sqr_pos (vy / vx)).
      destruct (Rle_dec 0 vy); [ rewrite Hc1 | rewrite Hc2 ];
        rewrite hypot_factor, sin_atan, Rabs_left by lra; field; lra.
    + assert (vx = 0) by lra. subst vx.
      replace (0 * 0 + vy * vy) with (vy * vy) by ring.
      destruct (Rlt_dec 0 vy); [ rewrite sin_PI2, sqrt_square by lra; ring | ].
      destruct (Rlt_dec vy 0).
      * rewrite sin_neg, sin_PI2.
        replace (vy * vy) with ((- vy) * (- vy)) by ring.
        rewrite sqrt_square by lra. ring.
      * assert (vy = 0) by lra. subst vy.
        replace (0 * 0) with 0 by ring. rewrite sqrt_0. ring.
Qed.

Lemma hypot_scaled (c vx vy : R) :
  0 <= c ->
  sqrt ((c * vx) * (c * vx) + (c * vy) * (c * vy)) = c * sqrt (vx * vx + vy * vy).
Proof.
  intros Hc.
  replace ((c * vx) * (c * vx) + (c * vy) * (c * vy))
    with ((c * c) * (vx * vx + vy * vy)) by ring.
  rewrite sqrt_mult; [ rewrite sqrt_square by exact Hc; reflexivity | nra | nra ].
Qed.

Lemma hypot_polar (d theta : R) :
  0 <= d ->
  sqrt ((d * cos theta) * (d * cos theta) + (d * sin theta) * (d * sin theta)) = d.
Proof.
  intros Hd.
  replace ((d * cos theta) * (d * cos theta) + (d * sin theta) * (d * sin theta))
    with ((d * d) * (Rsqr (sin theta) + Rsqr (cos theta))) by (unfold Rsqr; ring).
  rewrite sin2_cos2, Rmult_1_r. apply sqrt_square, Hd.
Qed.

(** ** Moving a handle of a Smooth node *)

Lemma dragNode_smooth_ctrl1 (p : Point R) (node : Node R) :
  type node = smooth ->
  let node' := dragNode drag_ctrl1 p node in
  anchor node' = anchor node /\ type node' = smooth /\ ctrl1 node' = p
  /\ pointDistance (anchor node') (ctrl2 node')
     = pointDistance (anchor node) (ctrl2 node)
  /\ cross (anchor node') (ctrl1 node') (ctrl2 node') = 0
  /\ dot (anchor node') (ctrl1 node') (ctrl2 node') <= 0.
Proof.
  intros Hsmooth. destruct node as [[ax ay] c1 [c2x c2y] k]. destruct p as [px py].
  cbn [type] in Hsmooth. subst k.
  unfold dragNode, pointDistance, cross, dot.
  cbn [set_ctrl1 set_ctrl2 type anchor ctrl1 ctrl2 x y]. real_ops.
  set (d2 := sqrt ((ax - c2x) * (ax - c2x) + (ay - c2y) * (ay - c2y))).
  set (theta := Ratan2 (ay - py) (ax - px)).
  pose proof (hypot_cos_atan2 (ax - px) (ay - py)) as Hc.
  pose proof (hypot_sin_atan2 (ax - px) (ay - py)) as Hs.
  fold theta in Hc, Hs.
  set (h := sqrt ((ax - px) * (ax - px) + (ay - py) * (ay - py))) in *.
  assert (Hh : 0 <= h) by apply sqrt_pos.
  assert (Hd : 0 <= d2) by apply sqrt_pos.
  assert (H1 : cos theta * cos theta + sin theta * sin theta = 1)
    by (pose proof (sin2_cos2 theta) as H; unfold Rsqr in H; lra).
  repeat split.
  - replace ((ax - (ax + d2 * cos theta)) * (ax - (ax + d2 * cos theta))
             + (ay - (ay + d2 * sin theta)) * (ay - (ay + d2 * sin theta)))
      with ((d2 * cos theta) * (d2 * cos theta) + (d2 * sin theta) * (d2 * sin theta))
      by ring.
    apply hypot_polar, Hd.
  - replace (px - ax) with (- (h * cos theta)) by lra.
    replace (py - ay) with (- (h * sin theta)) by lra. ring.
  - replace (px - ax) with (- (h * cos theta)) by lra.
    replace (py - ay) with (- (h * sin theta)) by lra.
    replace (- (h * cos theta) * (ax + d2 * cos theta - ax)
             + - (h * sin theta) * (ay + d2 * sin theta - ay))
      with (- ((h * d2) * (cos theta * cos theta + sin theta * sin theta))) by ring.
    rewrite H1. pose proof (Rmult_le_pos _ _ Hh Hd). lra.
Qed.

Lemma dragNode_smooth_ctrl2 (p : Point R) (node : Node R) :
  type node = smooth ->
  let node' := dragNode drag_ctrl2 p node in
  anchor node' = anchor node /\ type node' = smooth /\ ctrl2 node' = p
  /\ pointDistance (anchor node') (ctrl1 node')
     = pointDistance (anchor node) (ctrl1 node)
  /\ cross (anchor node') (ctrl1 node') (ctrl2 node') = 0
  /\ dot (anchor node') (ctrl1 node') (ctrl2 node') <= 0.
Proof.
  intros Hsmooth. destruct node as [[ax ay] [c1x c1y] c2 k]. destruct p as [px py].
  cbn [type] in Hsmooth. subst k.
  unfold dragNode, pointDistance, cross, dot.
  cbn [set_ctrl1 set_ctrl2 type anchor ctrl1 ctrl2 x y]. real_ops.
  set (d1 := sqrt ((ax - c1x) * (ax - c1x) + (ay - c1y) * (ay - c1y))).
  set (theta := Ratan2 (ay - py) (ax - px)).
  pose proof (hypot_cos_atan2 (ax - px) (ay - py)) as Hc.
  pose proof (hypot_sin_atan2 (ax - px) (ay - py)) as Hs.
  fold theta in Hc, Hs.
  set (h := sqrt ((ax - px) * (ax - px) + (ay - py) * (ay - py))) in *.
  assert (Hh : 0 <= h) by apply sqrt_pos.
  assert (Hd : 0 <= d1) by apply sqrt_pos.
  assert (H1 : cos theta * cos theta + sin theta * sin theta = 1)
    by (pose proof (sin2_cos2 theta) as H; unfold Rsqr in H; lra).
  repeat split.
  - replace ((ax - (ax + d1 * cos theta)) * (ax - (ax + d1 * cos theta))
             + (ay - (ay + d1 * sin theta)) * (ay - (ay + d1 * sin theta)))
      with ((d1 * cos theta) * (d1 * cos theta) + (d1 * sin theta) * (d1 * sin theta))
      by ring.
    apply hypot_polar, Hd.
  - replace (px - ax) with (- (h * cos theta)) by lra.
    replace (py - ay) with (- (h * sin theta)) by lra. ring.
  - replace (px - ax) with (- (h * cos theta)) by lra.
    replace (py - ay) with (- (h * sin theta)) by lra.
    replace ((ax + d1 * cos theta - ax) * - (h * cos theta)
             + (ay + d1 * sin theta - ay) * - (h * sin theta))
      with (- ((h * d1) * (cos theta * cos theta + sin theta * sin theta))) by ring.
    rewrite H1. pose proof (Rmult_le_pos _ _ Hh Hd). lra.
Qed.

(** C6. Over the reals, a pointer move while a handle of a Smooth node is
    dragged completes; the dragged handle is at the (snapped) pointer
    position, the anchor is kept, the other handle keeps its distance from the
    anchor, and the three points are collinear (zero cross product at the
    anchor) with the handles on opposite rays (non-positive dot product). *)
Theorem smooth_handle_move (event : MouseEvent R) (s : AppState R)
    (down point : Point R) (index : nat) (role : DragType) (node : Node R) :
  isPanning s = false ->
  mouseDownPos s = Some down ->
  getSVGCoordinates event s = Some point ->
  draggedInfo s = Some (index, role) ->
  role <> drag_anchor ->
  get (nodes s) index = Ok node ->
  type node = smooth ->
  let p := {| x := snap s (x point); y := snap s (y point) |} in
  exists s' node',
    handleMouseMove event s = Ok s'
    /\ get (nodes s') index = Ok node'
    /\ anchor node' = anchor node
    /\ type node' = smooth
    /\ (role = drag_ctrl1 ->
        ctrl1 node' = p
        /\ pointDistance (anchor node') (ctrl2 node')
           = pointDistance (anchor node) (ctrl2 node))
    /\ (role = drag_ctrl2 ->
        ctrl2 node' = p
        /\ pointDistance (anchor node') (ctrl1 node')
           = pointDistance (anchor node) (ctrl1 node))
    /\ cross (anchor node') (ctrl1 node') (ctrl2 node') = 0
    /\ dot (anchor node') (ctrl1 node') (ctrl2 node') <= 0.
Proof.
  intros Hpan Hdown Hpoint Hdrag Hrole Hnode Hsmooth p.
  assert (Hrun : exists s1, nodes s1 = nodes s
            /\ handleMouseMove event s
               = Ok (setNodes (update (nodes s) index (dragNode role p node)) s1)).
  { unfold handleMouseMove. rewrite Hpan, Hdown, Hpoint.
    set (s1 := if nlt _ _ then set_wasDragging true s else s).
    assert (Hs1 : draggedInfo s1 = draggedInfo s /\ nodes s1 = nodes s
                  /\ snap s1 = snap s).
    { unfold s1. destruct (nlt _ _); repeat split; reflexivity. }
    destruct Hs1 as (Hd1 & Hn1 & Hsn1).
    rewrite Hd1, Hdrag. cbv beta iota.
    rewrite Hn1, (proj2 (dragTarget_get _ _ role _) Hnode), Hsn1. cbn [bind].
    exists s1. split; [ exact Hn1 | reflexivity ]. }
  destruct Hrun as (s1 & Hn1 & Hrun).
  eexists. exists (dragNode role p node).
  split; [ exact Hrun | ].
  split.
  { cbn [nodes setNodes]. apply get_nth_error, nth_error_update_same.
    eapply get_length, Hnode. }
  destruct role; [ congruence | | ].
  - destruct (dragNode_smooth_ctrl1 p node Hsmooth) as (Ha & Ht & Hc & Hdist & Hx & Hdot).
    repeat split; auto; intros; try discriminate; auto.
  - destruct (dragNode_smooth_ctrl2 p node Hsmooth) as (Ha & Ht & Hc & Hdist & Hx & Hdot).
    repeat split; auto; intros; try discriminate; auto.
Qed.

(** ** Appending a node *)

(** What [smoothJoint] computes over the reals: both handles at the joint are
    placed a quarter of the way along the vector between the two anchors. *)
Lemma smoothJoint_real (prevNode newNode : Node R) :
  let dx := x (anchor newNode) - x (anchor prevNode) in
  let dy := y (anchor newNode) - y (anchor prevNode) in
  let updatedPrevNode := fst (smoothJoint prevNode newNode) in
  let joined := snd (smoothJoint prevNode newNode) in
  updatedPrevNode
  = set_ctrl2 {| x := x (anchor prevNode) + 25 / 100 * dx;
                 y := y (anchor prevNode) + 25 / 100 * dy |} prevNode
  /\ joined
     = set_ctrl1 {| x := x (anchor newNode) - 25 / 100 * dx;
                    y := y (anchor newNode) - 25 / 100 * dy |} newNode
  /\ pointDistance (ctrl2 updatedPrevNode) (anchor prevNode)
     = 25 / 100 * pointDistance (anchor newNode) (anchor prevNode)
  /\ pointDistance (ctrl1 joined) (anchor newNode)
     = 25 / 100 * pointDistance (anchor newNode) (anchor prevNode).
Proof.
  intros dx dy updatedPrevNode joined.
  pose proof (hypot_cos_atan2 dx dy) as Hc.
  pose proof (hypot_sin_atan2 dx dy) as Hs.
  set (h := sqrt (dx * dx + dy * dy)) in *.
  set (c := cos (Ratan2 dy dx)) in *.
  set (s := sin (Ratan2 dy dx)) in *.
  assert (Hx : forall a, a + h * (25 / 100) * c = a + 25 / 100 * dx)
    by (intros a; rewrite <- Hc; ring).
  assert (Hy : forall a, a + h * (25 / 100) * s = a + 25 / 100 * dy)
    by (intros a; rewrite <- Hs; ring).
  assert (Hx' : forall a, a - h * (25 / 100) * c = a - 25 / 100 * dx)
    by (intros a; rewrite <- Hc; ring).
  assert (Hy' : forall a, a - h * (25 / 100) * s = a - 25 / 100 * dy)
    by (intros a; rewrite <- Hs; ring).
  assert (Hprev : updatedPrevNode
    = set_ctrl2 {| x := x (anchor prevNode) + 25 / 100 * dx;
                   y := y (anchor prevNode) + 25 / 100 * dy |} prevNode).
  { unfold updatedPrevNode, smoothJoint, SMOOTHING_FACTOR. cbn [fst]. real_ops.
    fold dx dy. fold h c s. rewrite Hx, Hy. reflexivity. }
  assert (Hnew : joined
    = set_ctrl1 {| x := x (anchor newNode) - 25 / 100 * dx;
                   y := y (anchor newNode) - 25 / 100 * dy |} newNode).
  { unfold joined, smoothJoint, SMOOTHING_FACTOR. cbn [snd]. real_ops.
    fold dx dy. fold h c s. rewrite Hx', Hy'. reflexivity. }
  split; [ exact Hprev | ]. split; [ exact Hnew | ].
  rewrite Hprev, Hnew. unfold pointDistance.
  cbn [set_ctrl1 set_ctrl2 ctrl1 ctrl2 anchor x y]. real_ops. fold dx dy.
  split.
  - replace (x (anchor prevNode) + 25 / 100 * dx - x (anchor prevNode))
      with (25 / 100 * dx) by ring.
    replace (y (anchor prevNode) + 25 / 100 * dy - y (anchor prevNode))
      with (25 / 100 * dy) by ring.
    apply hypot_scaled. lra.
  - replace ((x (anchor newNode) - 25 / 100 * dx - x (anchor newNode))
             * (x (anchor newNode) - 25 / 100 * dx - x (anchor newNode))
             + (y (anchor newNode) - 25 / 100 * dy - y (anchor newNode))
               * (y (anchor newNode) - 25 / 100 * dy - y (anchor newNode)))
      with ((25 / 100 * dx) * (25 / 100 * dx) + (25 / 100 * dy) * (25 / 100 * dy))
      by ring.
    apply hypot_scaled. lra.
Qed.

(** C5, amended. Over the reals, appending at [p] after a last node
    [prevNode] completes; the new node's incoming handle is
    [p - SMOOTHING_FACTOR * (p - prevAnchor)], at distance
    [SMOOTHING_FACTOR * distance(prevAnchor, p)] from [p]; and the previous
    node's outgoing handle is replaced by
    [prevAnchor + SMOOTHING_FACTOR * (p - prevAnchor)], at that same distance
    from the previous anchor, whatever its length was. *)
Theorem append_smooths_joint (p : Point R) (s : AppState R) (prevNode : Node R) :
  get (nodes s) (length (nodes s) - 1) = Ok prevNode ->
  let d := pointDistance p (anchor prevNode) in
  exists s' updatedPrevNode newNode,
    appendNode p s = Ok s'
    /\ nodes s'
       = update (nodes s) (length (nodes s) - 1) updatedPrevNode ++ [newNode]
    /\ anchor newNode = p
    /\ ctrl1 newNode
       = {| x := x p - SMOOTHING_FACTOR * (x p - x (anchor prevNode));
            y := y p - SMOOTHING_FACTOR * (y p - y (anchor prevNode)) |}
    /\ pointDistance (ctrl1 newNode) p = SMOOTHING_FACTOR * d
    /\ updatedPrevNode
       = set_ctrl2
           {| x := x (anchor prevNode) + SMOOTHING_FACTOR * (x p - x (anchor prevNode));
              y := y (anchor prevNode) + SMOOTHING_FACTOR * (y p - y (anchor prevNode)) |}
           prevNode
    /\ pointDistance (ctrl2 updatedPrevNode) (anchor prevNode)
       = SMOOTHING_FACTOR * d.
Proof.
  intros Hprev d.
  pose proof (get_length _ _ Hprev) as Hlen.
  destruct (smoothJoint_real prevNode (newCornerNode p)) as (Hu & Hj & Hdu & Hdj).
  exists (setSelectedNodeIndex
            (Some (length (update (nodes s) (length (nodes s) - 1)
                              (fst (smoothJoint prevNode (newCornerNode p)))
                           ++ [snd (smoothJoint prevNode (newCornerNode p))]) - 1)%nat)
            (updateStateAndHistory
               (update (nodes s) (length (nodes s) - 1)
                  (fst (smoothJoint prevNode (newCornerNode p)))
                ++ [snd (smoothJoint prevNode (newCornerNode p))])
               (isPathClosed s) s)),
    (fst (smoothJoint prevNode (newCornerNode p))),
    (snd (smoothJoint prevNode (newCornerNode p))).
  split.
  { unfold appendNode.
    destruct (Nat.ltb_spec 0 (length (nodes s))); [ | lia ].
    rewrite Hprev. cbn [bind].
    destruct (smoothJoint prevNode (newCornerNode p)). reflexivity. }
  split; [ reflexivity | ].
  unfold SMOOTHING_FACTOR. real_ops.
  split; [ rewrite Hj; reflexivity | ].
  split; [ rewrite Hj; reflexivity | ].
  split; [ exact Hdj | ].
  split; [ exact Hu | exact Hdu ].
Qed.

(** Counterexample to C5 as stated: after a click at [(0,0)] the first node's
    outgoing handle is 50 long; a second click at [(100,0)] leaves it 25
    long. *)
Lemma append_rescales_previous_handle :
  exists (s1 s2 : AppState R) (prev prev' : Node R),
    appendNode {| x := 0; y := 0 |} (initialState None) = Ok s1
    /\ get (nodes s1) 0 = Ok prev
    /\ pointDistance (ctrl2 prev) (anchor prev) = 50
    /\ appendNode {| x := 100; y := 0 |} s1 = Ok s2
    /\ get (nodes s2) 0 = Ok prev'
    /\ anchor prev' = anchor prev
    /\ pointDistance (ctrl2 prev') (anchor prev') = 25.
Proof.
  destruct (smoothJoint_real (newCornerNode {| x := 0; y := 0 |})
              (newCornerNode {| x := 100; y := 0 |})) as (Hu & _ & Hdu & _).
  do 2 eexists.
  exists (newCornerNode {| x := 0; y := 0 |}),
         (fst (smoothJoint (newCornerNode {| x := 0; y := 0 |})
                 (newCornerNode {| x := 100; y := 0 |}))).
  split; [ reflexivity | ]. split; [ reflexivity | ].
  split.
  { unfold pointDistance. cbn. 
    replace ((0 + 50 - 0) * (0 + 50 - 0) + (0 - 0) * (0 - 0)) with (50 * 50) by ring.
    apply sqrt_square. lra. }
  split.
  { unfold appendNode. cbn [nodes setSelectedNodeIndex updateStateAndHistory
      setHistoryIndex setHistory setIsPathClosed setNodes initialState app length
      Nat.ltb Nat.leb Nat.sub get nth_error bind].
    destruct (smoothJoint _ _). reflexivity. }
  split; [ reflexivity | ].
  assert (Ha : anchor (fst (smoothJoint (newCornerNode {| x := 0; y := 0 |})
                             (newCornerNode {| x := 100; y := 0 |})))
               = anchor (newCornerNode {| x := 0; y := 0 |}))
    by (rewrite Hu; reflexivity).
  split; [ exact Ha | ].
  rewrite Ha, Hdu. unfold pointDistance. cbn.
  replace ((100 - 0) * (100 - 0) + (0 - 0) * (0 - 0)) with (100 * 100) by ring.
  rewrite sqrt_square by lra. lra.
Qed.

(** ** Zoom at the pointer *)

(** C8. Over the reals, for a wheel event over the canvas and a positive
    zoom: the new zoom is the old one times or divided by 1.1 (by the sign of
    [deltaY]), clamped to [[MIN_ZOOM, MAX_ZOOM]]; the new pan is
    [d - (d - oldPan) * (newZoom / oldZoom)] at the device point [d]; and the
    world point under [d] is the same before and after. *)
Theorem wheel_zoom_keeps_pointer (event : MouseEvent R) (s : AppState R)
    (rect : Rect R) :
  svgRef s = Some rect ->
  0 < zoom (viewState s) ->
  let vs := viewState s in
  let vs' := viewState (handleWheel event s) in
  let d := {| x := clientX event - rect_left rect;
              y := clientY event - rect_top rect |} in
  let stepped := if Rltb (deltaY event) 0 then zoom vs * (11 / 10)
                 else zoom vs / (11 / 10) in
  zoom vs' = Rmax MIN_ZOOM (Rmin MAX_ZOOM stepped)
  /\ MIN_ZOOM <= zoom vs' <= MAX_ZOOM
  /\ x (pan vs') = x d - (x d - x (pan vs)) * (zoom vs' / zoom vs)
  /\ y (pan vs') = y d - (y d - y (pan vs)) * (zoom vs' / zoom vs)
  /\ toWorld d vs' = toWorld d vs.
Proof.
  intros Hsvg Hzoom vs vs' d stepped.
  assert (Hbounds : MIN_ZOOM <= Rmax MIN_ZOOM (Rmin MAX_ZOOM stepped) <= MAX_ZOOM).
  { split; [ apply Rmax_l | ].
    apply Rmax_lub; [ | apply Rmin_l ].
    unfold MIN_ZOOM, MAX_ZOOM. real_ops. lra. }
  assert (Hmin : 0 < MIN_ZOOM (num := R)) by (unfold MIN_ZOOM; real_ops; lra).
  unfold vs', handleWheel. rewrite Hsvg. real_ops.
  fold vs. fold stepped.
  set (clampedZoom := Rmax MIN_ZOOM (Rmin MAX_ZOOM stepped)) in *.
  destruct (Reqb clampedZoom (zoom vs)) eqn:E.
  - apply Reqb_true in E. fold vs. rewrite <- E.
    split; [ reflexivity | ]. split; [ exact Hbounds | ].
    unfold toWorld. real_ops. unfold d. cbn [x y].
    assert (clampedZoom <> 0) by lra.
    repeat split; try reflexivity; field; auto.
  - cbn [viewState setViewState zoom pan x y].
    split; [ reflexivity | ]. split; [ exact Hbounds | ].
    split; [ reflexivity | ]. split; [ reflexivity | ].
    unfold toWorld. real_ops. unfold d. cbn [zoom pan x y].
    assert (clampedZoom <> 0) by lra.
    assert (zoom vs <> 0) by (unfold vs; lra).
    f_equal; field; auto.
Qed.

End RealGeometry.

(** ** Instances on concrete paths *)

(** Witness of C4: a node inserted in the middle of the first edge of the
    square. *)
Lemma insertion_preserves_curve_witness :
  exists arr' : list (Node R),
    insertOnSegment squareOf 0 (1 / 2)%R = Ok arr' /\ length arr' = 5.
Proof.
  destruct (@insertion_preserves_curve squareOf 0 (1 / 2)%R _ _ _ _ eq_refl)
    as (arr' & newNode & first & second & Hrun & Hlen & _).
  exists arr'. split; [ exact Hrun | exact Hlen ].
Defined.

(** Witness of C5 (amended): a second click at [(100,0)] after a first node
    at the origin. *)
Lemma append_smooths_joint_witness :
  exists (s' : AppState R) (updatedPrevNode newNode : Node R),
    appendNode {| x := 100%R; y := 0%R |}
      (setNodes [newCornerNode {| x := 0%R; y := 0%R |}] (initialState None))
    = Ok s'
    /\ nodes s' = [updatedPrevNode; newNode]
    /\ anchor newNode = {| x := 100%R; y := 0%R |}.
Proof.
  destruct (@append_smooths_joint {| x := 100%R; y := 0%R |}
              (setNodes [newCornerNode {| x := 0%R; y := 0%R |}] (initialState None))
              (newCornerNode {| x := 0%R; y := 0%R |}) eq_refl)
    as (s' & u & n & Hrun & Hnodes & Hanchor & _).
  exists s', u, n. split; [ exact Hrun | ]. split; [ exact Hnodes | exact Hanchor ].
Defined.

(** Witness of C6: the incoming handle of a Smooth node at the origin dragged
    to the pointer. *)
Lemma smooth_handle_move_witness :
  let node := {| anchor := {| x := 0%R; y := 0%R |};
                 ctrl1 := {| x := (-50)%R; y := 0%R |};
                 ctrl2 := {| x := 50%R; y := 0%R |}; type := smooth |} in
  let s := setDraggedInfo (Some (0, drag_ctrl1))
             (set_mouseDownPos (Some {| x := (-50)%R; y := 0%R |})
                (setNodes [node]
                   (initialState (Some {| rect_left := 0%R; rect_top := 0%R |})))) in
  let event := {| clientX := 10%R; clientY := 20%R; ctrlKey := false;
                  deltaY := 0%R |} in
  exists (s' : AppState R) (node' : Node R),
    handleMouseMove event s = Ok s'
    /\ get (nodes s') 0 = Ok node'
    /\ cross (anchor node') (ctrl1 node') (ctrl2 node') = 0%R
    /\ pointDistance (anchor node') (ctrl2 node') = pointDistance (anchor node) (ctrl2 node).
Proof.
  intros node s event.
  destruct (@smooth_handle_move event s {| x := (-50)%R; y := 0%R |} _ 0
              drag_ctrl1 node eq_refl eq_refl eq_refl eq_refl
              ltac:(discriminate) eq_refl eq_refl)
    as (s' & node' & Hrun & Hget & _ & _ & H1 & _ & Hcross & _).
  exists s', node'. split; [ exact Hrun | ]. split; [ exact Hget | ].
  split; [ exact Hcross | ]. apply H1. reflexivity.
Defined.

(** Witness of C8: a wheel tick at device point [(300, 200)] on the initial
    view. *)
Lemma wheel_zoom_keeps_pointer_witness :
  let s := initialState (Some {| rect_left := 0%R; rect_top := 0%R |}) in
  let event := {| clientX := 300%R; clientY := 200%R; ctrlKey := false;
                  deltaY := (-1)%R |} in
  toWorld {| x := (300 - 0)%R; y := (200 - 0)%R |} (viewState (handleWheel event s))
  = toWorld {| x := (300 - 0)%R; y := (200 - 0)%R |} (viewState s).
Proof.
  intros s event.
  assert (Hzoom : (0 < zoom (viewState s))%R).
  { unfold s. cbn [initialState viewState initialView zoom]. real_ops. lra. }
  exact (proj2 (proj2 (proj2 (proj2
           (@wheel_zoom_keeps_pointer event s _ eq_refl Hzoom))))).
Defined.

(** ** Node objects shared with the history *)

Section HeapFacts.
Context {num : Type} {N : Number num}.
Implicit Types (s : Heap.State (num := num)) (objs : list (Node num)).

(** Objects added to the store leave what the existing references denote. *)
Lemma read_alloc objs (extra : list (Node num)) (arr : list nat)
    (ns : list (Node num)) :
  Heap.read objs arr = Ok ns -> Heap.read (objs ++ extra) arr = Ok ns.
Proof.
  revert ns. induction arr as [| r rest IH]; intros ns H; cbn [Heap.read] in *.
  - exact H.
  - destruct (get objs r) as [n | | |] eqn:E; try discriminate. cbn [bind] in H.
    destruct (Heap.read objs rest) as [ms | | |]; try discriminate.
    cbn [bind] in H.
    assert (E' : get (objs ++ extra) r = Ok n).
    { apply get_nth_error. rewrite nth_error_app1.
      - apply get_nth_error, E.
      - eapply get_length, E. }
    rewrite E', (IH ms eq_refl). exact H.
Qed.

Lemma snapshot_kept s s' (k : nat) (extra : list (Node num))
    (v : list (Node num) * bool) :
  Heap.objects s' = Heap.objects s ++ extra ->
  nth_error (Heap.history s') k = nth_error (Heap.history s) k ->
  Heap.snapshot s k = Ok v -> Heap.snapshot s' k = Ok v.
Proof.
  intros Hobjs Hhist. unfold Heap.snapshot, get. rewrite Hhist, Hobjs.
  destruct (nth_error (Heap.history s) k) as [entry |]; [ | discriminate ].
  cbn [bind]. intros H.
  destruct (Heap.read (Heap.objects s) (fst entry)) as [ns | | |] eqn:E;
    try discriminate.
  rewrite (read_alloc _ extra _ E). exact H.
Qed.

Lemma commit_keeps_entries s objs (newNodes : list nat) (closed : bool) (k : nat) :
  k <= Heap.historyIndex s -> k < length (Heap.history s) ->
  nth_error (Heap.history (Heap.updateStateAndHistory objs newNodes closed s)) k
  = nth_error (Heap.history s) k.
Proof.
  intros Hk Hin. cbn [Heap.updateStateAndHistory Heap.history]. unfold slice.
  rewrite Nat.sub_0_r. cbn [skipn].
  rewrite nth_error_app1 by (rewrite length_firstn; lia).
  rewrite nth_error_firstn.
  destruct (Nat.ltb_spec k (Heap.historyIndex s + 1)); [ reflexivity | lia ].
Qed.

Lemma snapshot_in_history s (k : nat) (v : list (Node num) * bool) :
  Heap.snapshot s k = Ok v -> k < length (Heap.history s).
Proof.
  unfold Heap.snapshot. intros H.
  destruct (get (Heap.history s) k) eqn:E; try discriminate.
  eapply get_length, E.
Qed.

(** A drag step leaves every history entry as it was. *)
Lemma drag_keeps_snapshots {M : MathLib num} s s' (index : nat) (role : DragType)
    (p : Point num) (k : nat) (v : list (Node num) * bool) :
  Heap.drag index role p s = Ok s' ->
  Heap.snapshot s k = Ok v -> Heap.snapshot s' k = Ok v.
Proof.
  unfold Heap.drag. intros Hrun.
  destruct (dragTarget (Heap.nodes s) index role) as [r | | |]; try discriminate.
  cbn [bind] in Hrun.
  destruct (get (Heap.objects s) r) as [old | | |]; try discriminate.
  cbn [bind Heap.alloc] in Hrun. inversion Hrun.
  apply snapshot_kept with (extra := [dragNode role p old]); reflexivity.
Qed.

(** An append leaves every history entry up to the current one as it was. *)
Lemma appendNode_keeps_snapshots {M : MathLib num} s s' (p : Point num)
    (k : nat) (v : list (Node num) * bool) :
  Heap.appendNode p s = Ok s' -> k <= Heap.historyIndex s ->
  Heap.snapshot s k = Ok v -> Heap.snapshot s' k = Ok v.
Proof.
  unfold Heap.appendNode. intros Hrun Hk Hsnap.
  pose proof (snapshot_in_history _ _ Hsnap) as Hin. revert Hsnap.
  destruct (0 <? length (Heap.nodes s)).
  - destruct (get (Heap.nodes s) (length (Heap.nodes s) - 1)) as [r | | |];
      try discriminate.
    cbn [bind] in Hrun.
    destruct (get (Heap.objects s) r) as [prevNode | | |]; try discriminate.
    cbn [bind] in Hrun.
    destruct (smoothJoint prevNode (newCornerNode p)) as [updatedPrevNode newNode].
    cbn [Heap.alloc] in Hrun. inversion Hrun.
    apply snapshot_kept with (extra := [newNode; updatedPrevNode]).
    + cbn [Heap.updateStateAndHistory Heap.objects].
      rewrite <- app_assoc. reflexivity.
    + apply commit_keeps_entries; assumption.
  - cbn [Heap.alloc] in Hrun. inversion Hrun.
    apply snapshot_kept with (extra := [newCornerNode p]).
    + reflexivity.
    + apply commit_keeps_entries; assumption.
Qed.

(** *** The object level against the value level

    What the arrays denote after an object-level operation is what the
    value-level function computes. *)

Lemma read_length objs (arr : list nat) (ns : list (Node num)) :
  Heap.read objs arr = Ok ns -> length ns = length arr.
Proof.
  revert ns. induction arr as [| r rest IH]; intros ns H; cbn [Heap.read] in H.
  - inversion H. reflexivity.
  - destruct (get objs r); try discriminate. cbn [bind] in H.
    destruct (Heap.read objs rest) as [ms | | |]; try discriminate.
    inversion H. cbn [length]. f_equal. apply IH. reflexivity.
Qed.

Lemma read_app objs (arr1 arr2 : list nat) (ns1 ns2 : list (Node num)) :
  Heap.read objs arr1 = Ok ns1 -> Heap.read objs arr2 = Ok ns2 ->
  Heap.read objs (arr1 ++ arr2) = Ok (ns1 ++ ns2).
Proof.
  revert ns1. induction arr1 as [| r rest IH]; intros ns1 H1 H2; cbn [Heap.read app] in *.
  - inversion H1. exact H2.
  - destruct (get objs r); try discriminate. cbn [bind] in *.
    destruct (Heap.read objs rest) as [ms | | |]; try discriminate.
    inversion H1. rewrite (IH ms eq_refl H2). reflexivity.
Qed.

(** Replacing a reference in the array replaces the node it denotes. *)
Lemma read_update objs (arr : list nat) (ns : list (Node num)) (i r : nat)
    (n : Node num) :
  Heap.read objs arr = Ok ns -> get objs r = Ok n ->
  Heap.read objs (update arr i r) = Ok (update ns i n).
Proof.
  revert ns i. induction arr as [| r0 rest IH]; intros ns i H Hr;
    cbn [Heap.read update] in *.
  - inversion H. reflexivity.
  - destruct (get objs r0) as [n0 | | |] eqn:E0; try discriminate. cbn [bind] in H.
    destruct (Heap.read objs rest) as [ms | | |] eqn:Er; try discriminate.
    inversion H. subst ns. destruct i as [| i]; cbn [Heap.read update].
    + rewrite Hr, Er. reflexivity.
    + rewrite E0, (IH ms i eq_refl Hr). reflexivity.
Qed.

Lemma get_alloc objs (n : Node num) : get (objs ++ [n]) (length objs) = Ok n.
Proof.
  apply get_nth_error. rewrite nth_error_app2 by lia.
  rewrite Nat.sub_diag. reflexivity.
Qed.

Lemma get_last_read objs (arr : list nat) (ns : list (Node num)) (i r : nat)
    (n : Node num) :
  Heap.read objs arr = Ok ns -> get arr i = Ok r -> get objs r = Ok n ->
  get ns i = Ok n.
Proof.
  revert ns i. induction arr as [| r0 rest IH]; intros ns i H Hi Hr;
    cbn [Heap.read] in H.
  - destruct i; discriminate.
  - destruct (get objs r0) as [n0 | | |] eqn:E0; try discriminate. cbn [bind] in H.
    destruct (Heap.read objs rest) as [ms | | |] eqn:Er; try discriminate.
    inversion H. subst ns. destruct i as [| i].
    + inversion Hi. subst r0. rewrite Hr in E0. inversion E0. reflexivity.
    + apply (IH ms i eq_refl Hi Hr).
Qed.

(** On the live path, the object-level append computes what [appendNode]
    computes on node values. *)
Lemma heap_appendNode_refines {M : MathLib num} s s' (p : Point num)
    (vals : list (Node num)) (v : AppState num) :
  Heap.read (Heap.objects s) (Heap.nodes s) = Ok vals ->
  nodes v = vals ->
  Heap.appendNode p s = Ok s' ->
  exists v', appendNode p v = Ok v'
             /\ Heap.read (Heap.objects s') (Heap.nodes s') = Ok (nodes v').
Proof.
  intros Hread Hv Hrun. unfold Heap.appendNode in Hrun. unfold appendNode.
  rewrite Hv. rewrite (@read_length _ _ _ Hread).
  destruct (0 <? length (Heap.nodes s)).
  - destruct (get (Heap.nodes s) (length (Heap.nodes s) - 1)) as [r | | |] eqn:Er;
      try discriminate.
    cbn [bind] in Hrun.
    destruct (get (Heap.objects s) r) as [prevNode | | |] eqn:Ep; try discriminate.
    cbn [bind] in Hrun.
    rewrite (@get_last_read _ _ _ _ _ _ Hread Er Ep). cbn [bind].
    destruct (smoothJoint prevNode (newCornerNode p)) as [updatedPrevNode newNode].
    cbn [Heap.alloc] in Hrun. inversion Hrun. clear Hrun.
    eexists. split; [ reflexivity | ].
    cbn [Heap.updateStateAndHistory Heap.objects Heap.nodes fst snd].
    assert (Hnodes : forall k (nn : list (Node num)) c,
              nodes (setSelectedNodeIndex k (updateStateAndHistory nn c v)) = nn)
      by reflexivity.
    rewrite Hnodes.
    set (objs' := (Heap.objects s ++ [newNode]) ++ [updatedPrevNode]).
    assert (Hread' : Heap.read objs' (Heap.nodes s) = Ok vals).
    { unfold objs'. apply read_alloc, read_alloc, Hread. }
    apply read_app.
    + apply read_update; [ exact Hread' | ].
      unfold objs'. rewrite length_app. cbn [length].
      replace (length (Heap.objects s) + 1)
        with (length (Heap.objects s ++ [newNode]))
        by (rewrite length_app; reflexivity).
      apply get_alloc.
    + cbn [Heap.read]. unfold objs'.
      assert (Hg : get ((Heap.objects s ++ [newNode]) ++ [updatedPrevNode])
                     (length (Heap.objects s)) = Ok newNode).
      { apply get_nth_error. rewrite nth_error_app1
          by (rewrite length_app; cbn [length]; lia).
        apply get_nth_error, get_alloc. }
      rewrite Hg. reflexivity.
  - cbn [Heap.alloc] in Hrun. inversion Hrun. clear Hrun. cbn [bind].
    eexists. split; [ reflexivity | ].
    cbn [Heap.updateStateAndHistory Heap.objects Heap.nodes fst snd].
    assert (Hnodes : forall k (nn : list (Node num)) c,
              nodes (setSelectedNodeIndex k (updateStateAndHistory nn c v)) = nn)
      by reflexivity.
    rewrite Hnodes.
    apply read_app.
    + apply read_alloc, Hread.
    + cbn [Heap.read]. rewrite get_alloc. reflexivity.
Qed.


(** On the live path, a drag step computes what [dragNode] computes on the
    node value. *)
Lemma heap_drag_refines {M : MathLib num} s s' (index : nat) (role : DragType)
    (p : Point num) (vals : list (Node num)) :
  Heap.read (Heap.objects s) (Heap.nodes s) = Ok vals ->
  Heap.drag index role p s = Ok s' ->
  exists node,
    get vals index = Ok node
    /\ Heap.read (Heap.objects s') (Heap.nodes s')
       = Ok (update vals index (dragNode role p node)).
Proof.
  intros Hread Hrun. unfold Heap.drag in Hrun.
  destruct (dragTarget (Heap.nodes s) index role) as [r | | |] eqn:Er;
    try discriminate.
  apply dragTarget_get in Er. cbn [bind] in Hrun.
  destruct (get (Heap.objects s) r) as [old | | |] eqn:Eo; try discriminate.
  cbn [bind Heap.alloc] in Hrun. inversion Hrun. clear Hrun.
  exists old. split; [ exact (@get_last_read _ _ _ _ _ _ Hread Er Eo) | ].
  cbn [Heap.objects Heap.nodes].
  apply read_update; [ apply read_alloc, Hread | apply get_alloc ].
Qed.

(** Every reference of an array that can be read denotes an object. *)
Lemma read_get objs (arr : list nat) (ns : list (Node num)) (i r : nat) :
  Heap.read objs arr = Ok ns -> get arr i = Ok r ->
  exists n, get objs r = Ok n.
Proof.
  revert ns i. induction arr as [| r0 rest IH]; intros ns i H Hi;
    cbn [Heap.read] in H.
  - destruct i; discriminate.
  - destruct (get objs r0) as [n0 | | |] eqn:E0; try discriminate. cbn [bind] in H.
    destruct (Heap.read objs rest) as [ms | | |] eqn:Er; try discriminate.
    destruct i as [| i].
    + inversion Hi. subst r0. eauto.
    + apply (IH ms i eq_refl Hi).
Qed.

(** On a live path that can be read, a drag step on a node of the path and
    an append return. *)
Lemma heap_drag_returns {M : MathLib num} s (index : nat) (role : DragType)
    (p : Point num) (vals : list (Node num)) :
  Heap.read (Heap.objects s) (Heap.nodes s) = Ok vals ->
  index < length (Heap.nodes s) ->
  exists s', Heap.drag index role p s = Ok s'.
Proof.
  intros Hread Hindex. unfold Heap.drag.
  destruct (get_in_range (Heap.nodes s) Hindex) as [r Hr].
  destruct (@read_get _ _ _ _ _ Hread Hr) as [old Hold].
  rewrite (proj2 (dragTarget_get _ _ role _) Hr). cbn [bind].
  rewrite Hold. cbn [bind Heap.alloc]. eauto.
Qed.

Lemma heap_appendNode_returns {M : MathLib num} s (p : Point num)
    (vals : list (Node num)) :
  Heap.read (Heap.objects s) (Heap.nodes s) = Ok vals ->
  exists s', Heap.appendNode p s = Ok s'.
Proof.
  intros Hread. unfold Heap.appendNode.
  destruct (Nat.ltb_spec 0 (length (Heap.nodes s))) as [Hpos | Hz].
  - destruct (get_in_range (Heap.nodes s) (i := length (Heap.nodes s) - 1))
      as [r Hr]; [ lia | ].
    destruct (@read_get _ _ _ _ _ Hread Hr) as [prevNode Hprev].
    rewrite Hr. cbn [bind]. rewrite Hprev. cbn [bind].
    destruct (smoothJoint prevNode (newCornerNode p)) as [updatedPrevNode newNode].
    cbn [Heap.alloc]. eauto.
  - cbn [Heap.alloc]. eauto.
Qed.

Lemma get_update_other objs (r r0 : nat) (n : Node num) :
  r <> r0 -> get (update objs r n) r0 = get objs r0.
Proof. intros Hne. unfold get. rewrite nth_error_update_other by exact Hne. reflexivity. Qed.

(** A write to an object that the array does not refer to is not seen. *)
Lemma read_write_other objs (arr : list nat) (r : nat) (n : Node num) :
  ~ In r arr -> Heap.read (update objs r n) arr = Heap.read objs arr.
Proof.
  induction arr as [| r0 rest IH]; intros Hnotin; cbn [Heap.read].
  - reflexivity.
  - assert (Hne : r <> r0) by (intros ->; apply Hnotin; left; reflexivity).
    rewrite get_update_other by exact Hne.
    rewrite IH by (intros Hin; apply Hnotin; right; exact Hin). reflexivity.
Qed.

(** A write to the object at position [i] of an array of distinct references
    changes the node at position [i] and no other. *)
Lemma read_write objs (arr : list nat) (ns : list (Node num)) (i r : nat)
    (n : Node num) :
  Heap.read objs arr = Ok ns -> NoDup arr -> get arr i = Ok r ->
  Heap.read (update objs r n) arr = Ok (update ns i n).
Proof.
  revert ns i. induction arr as [| r0 rest IH]; intros ns i H Hnd Hi;
    cbn [Heap.read] in *.
  - destruct i; discriminate.
  - destruct (get objs r0) as [n0 | | |] eqn:E0; try discriminate. cbn [bind] in H.
    destruct (Heap.read objs rest) as [ms | | |] eqn:Er; try discriminate.
    inversion H. subst ns. inversion Hnd as [| ? ? Hnotin Hnd']. subst.
    destruct i as [| i].
    + inversion Hi. subst r0.
      rewrite read_write_other by exact Hnotin. rewrite Er.
      assert (Hg : get (update objs r n) r = Ok n).
      { apply get_nth_error, nth_error_update_same. eapply get_length, E0. }
      rewrite Hg. reflexivity.
    + assert (Hne : r <> r0).
      { intros ->. apply Hnotin. apply get_nth_error in Hi.
        eapply nth_error_In, Hi. }
      rewrite get_update_other by exact Hne. rewrite E0. cbn [bind].
      rewrite (IH ms i eq_refl Hnd' Hi). reflexivity.
Qed.

Lemma read_splice_in objs (arr : list nat) (ns : list (Node num)) (i r : nat)
    (n : Node num) :
  Heap.read objs arr = Ok ns -> get objs r = Ok n ->
  Heap.read objs (splice_in i r arr) = Ok (splice_in i n ns).
Proof.
  revert ns i. induction arr as [| r0 rest IH]; intros ns i H Hr.
  - cbn [Heap.read] in H. inversion H. unfold splice_in.
    rewrite !firstn_nil, !skipn_nil. cbn [app Heap.read]. rewrite Hr. reflexivity.
  - cbn [Heap.read] in H.
    destruct (get objs r0) as [n0 | | |] eqn:E0; try discriminate. cbn [bind] in H.
    destruct (Heap.read objs rest) as [ms | | |] eqn:Er; try discriminate.
    inversion H. subst ns. destruct i as [| i].
    + unfold splice_in. cbn [firstn skipn app Heap.read].
      rewrite Hr, E0, Er. reflexivity.
    + unfold splice_in in *. cbn [firstn skipn app Heap.read].
      rewrite E0. specialize (IH ms i eq_refl Hr). rewrite IH. reflexivity.
Qed.

(** On the live path of distinct node objects, the object-level insertion
    computes what [insertOnSegment] computes on node values. *)
Lemma heap_insertOnSegment_refines s s' (index : nat) (t : num)
    (vals : list (Node num)) :
  Heap.read (Heap.objects s) (Heap.nodes s) = Ok vals ->
  NoDup (Heap.nodes s) ->
  Heap.insertOnSegment index t s = Ok s' ->
  exists vals', insertOnSegment vals index t = Ok vals'
                /\ Heap.read (Heap.objects s') (Heap.nodes s') = Ok vals'.
Proof.
  intros Hread Hnd Hrun. unfold Heap.insertOnSegment in Hrun.
  unfold insertOnSegment. rewrite (@read_length _ _ _ Hread).
  set (next := (index + 1) mod length (Heap.nodes s)) in *.
  destruct (get (Heap.nodes s) index) as [r0 | | |] eqn:E0; try discriminate.
  cbn [bind] in Hrun.
  destruct (get (Heap.nodes s) next) as [r1 | | |] eqn:E1; try discriminate.
  cbn [bind] in Hrun.
  destruct (get (Heap.objects s) r0) as [n0 | | |] eqn:G0; try discriminate.
  cbn [bind] in Hrun.
  destruct (get (Heap.objects s) r1) as [n1 | | |] eqn:G1; try discriminate.
  cbn [bind Heap.alloc] in Hrun.
  rewrite (@get_last_read _ _ _ _ _ _ Hread E0 G0).
  rewrite (@get_last_read _ _ _ _ _ _ Hread E1 G1). cbn [bind].
  set (p01 := lerp t (anchor n0) (ctrl2 n0)) in *.
  set (p12 := lerp t (ctrl2 n0) (ctrl1 n1)) in *.
  set (p23 := lerp t (ctrl1 n1) (anchor n1)) in *.
  set (newNode := {| anchor := lerp t (lerp t p01 p12) (lerp t p12 p23);
                     ctrl1 := lerp t p01 p12; ctrl2 := lerp t p12 p23;
                     type := smooth |}) in *.
  set (objsA := Heap.objects s ++ [newNode]) in *.
  assert (HreadA : Heap.read objsA (Heap.nodes s) = Ok vals)
    by (apply read_alloc, Hread).
  assert (GA0 : get objsA r0 = Ok n0).
  { apply get_nth_error. unfold objsA. rewrite nth_error_app1.
    - apply get_nth_error, G0.
    - eapply get_length, G0. }
  rewrite GA0 in Hrun. cbn [bind] in Hrun.
  set (objsB := update objsA r0 (set_ctrl2 p01 n0)) in *.
  assert (HreadB : Heap.read objsB (Heap.nodes s)
                   = Ok (update vals index (set_ctrl2 p01 n0)))
    by (apply read_write; assumption).
  destruct (get objsB r1) as [m1 | | |] eqn:GB1; try discriminate.
  cbn [bind] in Hrun.
  rewrite (@get_last_read _ _ _ _ _ _ HreadB E1 GB1). cbn [bind].
  set (objsC := update objsB r1 (set_ctrl1 p23 m1)) in *.
  assert (HreadC : Heap.read objsC (Heap.nodes s)
                   = Ok (update (update vals index (set_ctrl2 p01 n0)) next
                           (set_ctrl1 p23 m1)))
    by (apply read_write; assumption).
  inversion Hrun. clear Hrun.
  eexists. split; [ reflexivity | ].
  cbn [Heap.updateStateAndHistory Heap.objects Heap.nodes].
  apply read_splice_in; [ exact HreadC | ].
  assert (Hr0 : r0 < length (Heap.objects s)) by (eapply get_length, G0).
  assert (Hr1 : r1 < length (Heap.objects s)) by (eapply get_length, G1).
  apply get_nth_error. unfold objsC, objsB.
  rewrite !nth_error_update_other by lia.
  apply get_nth_error, get_alloc.
Qed.

End HeapFacts.

(** Over the reals, [twoClicks] is the store that a click at [(0,0)] and a
    click at [(100,0)] leave. *)
Lemma twoClicks_reached :
  exists s1 : Heap.State (num := R),
    Heap.appendNode {| x := 0%R; y := 0%R |} Heap.initial = Ok s1
    /\ Heap.appendNode {| x := 100%R; y := 0%R |} s1 = Ok twoClicks.
Proof.
  eexists. split; [ reflexivity | ].
  unfold Heap.appendNode.
  cbn [Heap.nodes Heap.objects Heap.updateStateAndHistory Heap.initial Heap.alloc
       app length Nat.ltb Nat.leb Nat.sub get nth_error bind].
  destruct (smoothJoint_real (newCornerNode {| x := 0%R; y := 0%R |})
              (newCornerNode {| x := 100%R; y := 0%R |})) as (Hu & Hj & _).
  destruct (smoothJoint (newCornerNode {| x := 0%R; y := 0%R |})
              (newCornerNode {| x := 100%R; y := 0%R |})) as [u j].
  cbn [fst snd] in Hu, Hj. subst u j.
  cbn [Heap.alloc app length update].
  unfold Heap.updateStateAndHistory, twoClicks, newCornerNode, set_ctrl1,
    set_ctrl2, slice.
  cbn [Heap.history Heap.historyIndex Heap.isPathClosed Nat.add Nat.sub skipn
       firstn app length anchor ctrl1 ctrl2 type x y].
  real_ops.
  f_equal. f_equal.
  repeat (f_equal; try lra).
Qed.

(** C3 fails for insertion on a segment. In binary64, on the store
    [twoClicks], history entry 2 shows the two nodes with
    handles [(25,0)] and [(75,0)] on the segment. Inserting at [t = 0.5] on
    that segment writes [(12.5,0)] and [(87.5,0)] into the two node objects
    that entry 2 refers to: entry 2 no longer shows the path that was
    committed, and undo brings back the altered nodes. (The live path after
    the insertion is the one [insertOnSegment] computes on node values.) *)
Theorem insertOnSegment_mutates_history :
  let P := fun a b : float => {| x := a; y := b |} in
  let first := {| anchor := P 0 0; ctrl1 := P (-50) 0; ctrl2 := P 25 0;
                  type := corner |}%float in
  let second := {| anchor := P 100 0; ctrl1 := P 75 0; ctrl2 := P 150 0;
                   type := corner |}%float in
  let first' := set_ctrl2 (P 12.5 0)%float first in
  let second' := set_ctrl1 (P 87.5 0)%float second in
  exists s3 s4 : Heap.State (num := float),
    Heap.snapshot twoClicks 2 = Ok ([first; second], false)
    /\ Heap.insertOnSegment 0 0.5%float twoClicks = Ok s3
    /\ Heap.historyIndex s3 = 3
    /\ Heap.snapshot s3 2 = Ok ([first'; second'], false)
    /\ Heap.read (Heap.objects s3) (Heap.nodes s3)
       = insertOnSegment [first; second] 0 0.5%float
    /\ Heap.undo s3 = Ok s4
    /\ Heap.read (Heap.objects s4) (Heap.nodes s4) = Ok [first'; second'].
Proof.
  intros P first second first' second'.
  do 2 eexists.
  split; [ vm_compute; reflexivity | ].
  split; [ vm_compute; reflexivity | ].
  split; [ reflexivity | ].
  split; [ vm_compute; reflexivity | ].
  split; [ vm_compute; reflexivity | ].
  split; vm_compute; reflexivity.
Qed.

(** Witness of C7: three clicks, three undos, three redos; and the two
    boundaries on the initial state. *)
Lemma history_commit_undo_redo_witness :
  let clicks := [ {| x := 0%R; y := 0%R |}; {| x := 100%R; y := 0%R |};
                  {| x := 100%R; y := 100%R |} ] in
  undo (initialState (num := R) None) = Ok (initialState None)
  /\ redo (initialState (num := R) None) = Ok (initialState None)
  /\ exists sN s0 : AppState R,
       appendAll clicks (initialState None) = Ok sN
       /\ length (nodes sN) = 3
       /\ repeatM 3 undo sN = Ok s0
       /\ nodes s0 = []
       /\ repeatM 3 redo s0 = Ok sN.
Proof.
  intros clicks.
  destruct (@history_commit_undo_redo R Real Real_MathLib) as (_ & Hu & Hr & Hrun).
  split; [ apply Hu; reflexivity | ].
  split; [ apply Hr; reflexivity | ].
  destruct (Hrun None clicks)
    as (sN & s0 & Happ & Hlen & _ & Hundo & Hnodes & _ & _ & Hredo).
  exists sN, s0. repeat split; assumption.
Defined.

(** Witness of C9 (amended): a degenerate axis at [(1,2)] in binary64, and
    the axis from the origin to [(1,0)] over the reals. *)
Lemma reflectPoint_guards_division_witness :
  reflectPoint {| x := 1%float; y := 2%float |} {| x := 1%float; y := 2%float |}
    {| x := 3%float; y := 4%float |} = {| x := 3%float; y := 4%float |}
  /\ (0 < D_coeff {| x := 0%R; y := 0%R |} {| x := 1%R; y := 0%R |})%R.
Proof.
  destruct reflectPoint_guards_division as (_ & Hfloat & Hreal).
  split.
  - apply (Hfloat {| x := 1%float; y := 2%float |} {| x := 3%float; y := 4%float |}).
    reflexivity.
  - apply (proj2 (Hreal {| x := 0%R; y := 0%R |} {| x := 1%R; y := 0%R |}
                    {| x := 0%R; y := 0%R |})).
    intros H. inversion H. lra.
Defined.

(** ** The order of binary64 numbers *)

Lemma SFcompare_lt_trans (a b c : spec_float) :
  SFcompare a b = Some Lt -> SFcompare b c = Some Lt -> SFcompare a c = Some Lt.
Proof.
  destruct a as [sa | sa | | sa ma ea], b as [sb | sb | | sb mb eb],
    c as [sc | sc | | sc mc ec]; cbn;
    try destruct sa; try destruct sb; try destruct sc; cbn;
    try discriminate; try reflexivity; intros H1 H2.
  all: destruct (Z.compare_spec ea eb); destruct (Z.compare_spec eb ec);
    destruct (Z.compare_spec ea ec); try discriminate; try reflexivity; try lia; subst.
  all: rewrite ?Pos.compare_cont_spec in *; cbn in *.
  all: try (destruct (Pos.compare_spec ma mb); destruct (Pos.compare_spec mb mc);
    destruct (Pos.compare_spec ma mc); cbn in *; try discriminate; try reflexivity; try lia).
Qed.

Lemma ltb_trans (a b c : float) :
  PrimFloat.ltb a b = true -> PrimFloat.ltb b c = true -> PrimFloat.ltb a c = true.
Proof.
  rewrite !FloatAxioms.ltb_spec. unfold SFltb.
  destruct (SFcompare (Prim2SF a) (Prim2SF b)) as [[| |] |] eqn:E1; try discriminate.
  destruct (SFcompare (Prim2SF b) (Prim2SF c)) as [[| |] |] eqn:E2; try discriminate.
  rewrite (SFcompare_lt_trans _ _ _ E1 E2). reflexivity.
Qed.

Lemma ltb_irrefl (a : float) : PrimFloat.ltb a a = false.
Proof.
  rewrite FloatAxioms.ltb_spec. unfold SFltb.
  destruct (Prim2SF a) as [sa | sa | | sa ma ea]; cbn; try destruct sa; try reflexivity.
  all: rewrite Z.compare_refl, Pos.compare_cont_spec, Pos.compare_refl; reflexivity.
Qed.

(** ** Scans that keep a strict minimum *)

Section StrictMinimum.
Context {num : Type} {N : Number num}.
Hypothesis nlt_trans :
  forall a b c : num, nlt a b = true -> nlt b c = true -> nlt a c = true.
Hypothesis nlt_irrefl : forall a : num, nlt a a = false.

Lemma nlt_asym (a b : num) : nlt a b = true -> nlt b a = false.
Proof.
  intros H. destruct (nlt b a) eqn:E; [ | reflexivity ].
  rewrite <- (nlt_irrefl a). symmetry. exact (nlt_trans _ _ _ H E).
Qed.

Lemma nlt_below_min (a m m' : num) :
  nlt a m = false -> nlt m' m = true -> nlt a m' = false.
Proof.
  intros Ha Hm. destruct (nlt a m') eqn:E; [ | reflexivity ].
  rewrite <- Ha. symmetry. exact (nlt_trans _ _ _ E Hm).
Qed.

(** The sampling loop from [acc]: it ends on [acc], no sample comparing
    below it, or on a sample that does; and no sample compares below what it
    ends on. *)
Lemma sampling_minimum (point p0 p1 p2 p3 : Point num) (l : list nat) :
  forall acc : num * num,
    let d := sampleDistSq point p0 p1 p2 p3 in
    let r := fold_left (fun a i => sample_step point p0 p1 p2 p3 i a) l acc in
    (r = acc
     \/ exists i, In i l /\ r = (d i, sample_t i) /\ nlt (d i) (fst acc) = true)
    /\ forall j, In j l -> nlt (d j) (fst r) = false.
Proof.
  induction l as [| i rest IH]; intros acc d; cbn [fold_left].
  - split; [ left; reflexivity | intros j [] ].
  - specialize (IH (sample_step point p0 p1 p2 p3 i acc)).
    cbv zeta in IH. fold d in IH.
    set (r := fold_left _ rest _) in *.
    destruct IH as [Hr Hmin].
    unfold sample_step in Hr. fold (sampleDistSq point p0 p1 p2 p3 i) in Hr.
    fold d in Hr.
    destruct (nlt (d i) (fst acc)) eqn:Hi.
    + destruct Hr as [Hsame | (j & Hj & Hr & Hlt)]; cbn [fst] in *.
      * split.
        -- right. exists i. split; [ left; reflexivity | ]. auto.
        -- intros j [<- | Hj]; [ | apply Hmin, Hj ].
           rewrite Hsame. cbn [fst]. apply nlt_irrefl.
      * split.
        -- right. exists j. split; [ right; exact Hj | ]. split; [ exact Hr | ].
           exact (nlt_trans _ _ _ Hlt Hi).
        -- intros k [<- | Hk]; [ | apply Hmin, Hk ].
           rewrite Hr. cbn [fst]. apply nlt_asym, Hlt.
    + destruct Hr as [Hsame | (j & Hj & Hr & Hlt)].
      * split; [ left; exact Hsame | ].
        intros j [<- | Hj]; [ | apply Hmin, Hj ].
        rewrite Hsame. exact Hi.
      * split.
        -- right. exists j. split; [ right; exact Hj | ]. auto.
        -- intros k [<- | Hk]; [ | apply Hmin, Hk ].
           rewrite Hr. cbn [fst]. exact (nlt_below_min _ _ _ Hi Hlt).
Qed.

End StrictMinimum.

(** X1. In binary64 the nearest-point search ends in one of two ways. Either no
    sampled squared distance compares below [Infinity], and it returns the
    parameter 0 with the distance [Infinity]; or it returns the parameter of
    one of the 31 samples with the square root of that sample's squared
    distance, which compares below [Infinity] and below which no sample's
    squared distance compares. *)
Theorem nearest_sample_is_minimal (point p0 p1 p2 p3 : Point float) :
  let c := findClosestPointOnCubicBezier point p0 p1 p2 p3 in
  let d := sampleDistSq point p0 p1 p2 p3 in
  (forall j, j <= steps -> PrimFloat.ltb (d j) PrimFloat.infinity = false)
  /\ closest_t c = 0%float /\ distance c = PrimFloat.infinity
  \/ exists i, i <= steps
       /\ closest_t c = sample_t i
       /\ distance c = PrimFloat.sqrt (d i)
       /\ PrimFloat.ltb (d i) PrimFloat.infinity = true
       /\ forall j, j <= steps -> PrimFloat.ltb (d j) (d i) = false.
Proof.
  intros c d.
  destruct (@sampling_minimum float IEEE ltb_trans ltb_irrefl point p0 p1 p2 p3
              (seq 0 (S steps)) (Infinity, (#0)%num)) as [Hr Hmin].
  fold d in Hr, Hmin.
  assert (Hin : forall j, j <= steps -> In j (seq 0 (S steps)))
    by (intros j Hj; apply in_seq; lia).
  unfold c, findClosestPointOnCubicBezier. cbn [closest_t distance].
  set (r := fold_left _ _ _) in *.
  destruct Hr as [Hsame | (i & Hi & Hr & Hlt)].
  - left. rewrite Hsame in *. cbn [fst snd] in *.
    split; [ intros j Hj; apply Hmin, Hin, Hj | ]. split; reflexivity.
  - right. exists i. apply in_seq in Hi. rewrite Hr in *. cbn [fst snd] in *.
    split; [ lia | ]. split; [ reflexivity | ]. split; [ reflexivity | ].
    split; [ exact Hlt | ]. intros j Hj. apply Hmin, Hin, Hj.
Qed.

(** ** Undo and redo around a commit *)

Section HistoryRoundTrips.
Context {num : Type}.
Implicit Types s : AppState num.

Lemma commit_entries s (newNodes : list (Node num)) (closed : bool) (k : nat) :
  k <= historyIndex s -> k < length (history s) ->
  nth_error (history (updateStateAndHistory newNodes closed s)) k
  = nth_error (history s) k.
Proof.
  intros Hk Hlt.
  destruct (commit_history s newNodes closed) as (Hh & _).
  cbv zeta in Hh. rewrite Hh.
  rewrite nth_error_app1 by (rewrite length_firstn; lia).
  rewrite nth_error_firstn.
  destruct (Nat.ltb_spec k (historyIndex s + 1)); [ reflexivity | lia ].
Qed.

(** X2. From a committed state whose index is inside the history, undo after a
    commit completes and shows again the nodes, the closed flag and the index
    that were current before the commit; redo from there completes and shows
    the committed nodes and closed flag at the next index. *)
Theorem undo_reverts_commit s (newNodes : list (Node num)) (closed : bool) :
  committed s -> historyIndex s < length (history s) ->
  exists s1 s2,
    undo (updateStateAndHistory newNodes closed s) = Ok s1
    /\ nodes s1 = nodes s /\ isPathClosed s1 = isPathClosed s
    /\ historyIndex s1 = historyIndex s
    /\ redo s1 = Ok s2
    /\ nodes s2 = newNodes /\ isPathClosed s2 = closed
    /\ historyIndex s2 = historyIndex s + 1.
Proof.
  intros Hc Hlt.
  set (s' := updateStateAndHistory newNodes closed s).
  destruct (commit_index s newNodes closed Hlt) as (Hi & Hl & _).
  fold s' in Hi, Hl.
  pose proof (commit_committed s newNodes closed) as Hc'. fold s' in Hc'.
  assert (Hold : nth_error (history s') (historyIndex s)
                 = Some {| hs_nodes := nodes s; hs_isPathClosed := isPathClosed s |}).
  { unfold s'. rewrite commit_entries by lia. exact Hc. }
  destruct (restore_fields s' _ Hold) as (Rn & Rc & Ri & Rh).
  exists (restore (historyIndex s) s'), s'.
  split.
  { rewrite undo_restore by lia. do 2 f_equal. lia. }
  split; [ exact Rn | ]. split; [ exact Rc | ]. split; [ exact Ri | ].
  split.
  { rewrite redo_restore by (rewrite Ri, Rh; lia).
    rewrite Ri, restore_restore by lia.
    rewrite <- Hi. rewrite restore_current by exact Hc'. reflexivity. }
  split; [ reflexivity | ]. split; [ reflexivity | exact Hi ].
Qed.

(** X3. On a committed state whose index is inside the history, undo followed
    by redo gives back the very state when the index is not 0, and redo
    followed by undo gives back the very state when there is an entry to
    redo. *)
Theorem undo_redo_inverse s :
  committed s -> historyIndex s < length (history s) ->
  (0 < historyIndex s -> exists s1, undo s = Ok s1 /\ redo s1 = Ok s)
  /\ (historyIndex s + 1 < length (history s) ->
      exists s1, redo s = Ok s1 /\ undo s1 = Ok s).
Proof.
  intros Hc Hlt. split.
  - intros Hpos. exists (restore (historyIndex s - 1) s).
    split; [ apply undo_restore; assumption | ].
    destruct (nth_error (history s) (historyIndex s - 1)) as [e |] eqn:E;
      [ | apply nth_error_None in E; lia ].
    destruct (restore_fields s _ E) as (_ & _ & Ri & Rh).
    rewrite redo_restore by (rewrite Ri, Rh; lia).
    rewrite Ri, restore_restore by lia.
    replace (historyIndex s - 1 + 1) with (historyIndex s) by lia.
    rewrite restore_current by exact Hc. reflexivity.
  - intros Hnext. exists (restore (historyIndex s + 1) s).
    split; [ apply redo_restore; assumption | ].
    destruct (nth_error (history s) (historyIndex s + 1)) as [e |] eqn:E;
      [ | apply nth_error_None in E; lia ].
    destruct (restore_fields s _ E) as (_ & _ & Ri & Rh).
    rewrite undo_restore by (rewrite Ri, ?Rh; lia).
    rewrite Ri, restore_restore by lia.
    replace (historyIndex s + 1 - 1) with (historyIndex s) by lia.
    rewrite restore_current by exact Hc. reflexivity.
Qed.

(** X4. Right after a commit, redo returns the state unchanged; the history has
    at most [historyIndex + 2] entries, and its entries up to the previous
    index are the ones it had. *)
Theorem commit_forgets_redo s (newNodes : list (Node num)) (closed : bool) :
  let s' := updateStateAndHistory newNodes closed s in
  redo s' = Ok s'
  /\ length (history s') <= historyIndex s + 2
  /\ (forall k, k <= historyIndex s -> k < length (history s) ->
        nth_error (history s') k = nth_error (history s) k).
Proof.
  intros s'.
  destruct (commit_history s newNodes closed) as (Hh & Hi & _). fold s' in Hh, Hi.
  split; [ apply redo_at_last, Hi | ].
  split.
  - rewrite Hh, length_app, length_firstn. cbn [length]. lia.
  - intros k Hk Hlt. apply commit_entries; assumption.
Qed.

End HistoryRoundTrips.

(** Witness of X2: one commit on the initial state. *)
Lemma undo_reverts_commit_witness :
  exists s1 s2 : AppState float,
    undo (updateStateAndHistory [newCornerNode origin] false (initialState None)) = Ok s1
    /\ nodes s1 = []
    /\ redo s1 = Ok s2
    /\ nodes s2 = [newCornerNode origin].
Proof.
  destruct (@undo_reverts_commit float (initialState None) [newCornerNode origin] false)
    as (s1 & s2 & Hu & Hn & _ & _ & Hr & Hn2 & _).
  - reflexivity.
  - cbn. lia.
  - exists s1, s2. auto.
Defined.

(** Witness of X3: undo, then redo, after one commit on the initial state. *)
Lemma undo_redo_inverse_witness :
  let s := updateStateAndHistory [newCornerNode origin] false (initialState None) in
  exists s1 : AppState float, undo s = Ok s1 /\ redo s1 = Ok s.
Proof.
  intros s.
  destruct (@undo_redo_inverse float s) as [Hu _].
  - reflexivity.
  - cbn. lia.
  - apply Hu. cbn. lia.
Defined.

(** ** Outcomes of a symmetry pick *)

Section SymmetryOutcomes.
Context {num : Type} {N : Number num} {I : Infinite num}.
Implicit Types (point : Point num) (arr : list (Node num)) (s : AppState num).

(** The pick returns: it declines, with or without the message, or it commits
    the assembled path. *)
Lemma symmetry_pick_outcome point s :
  handleSymmetryEdgePick point s = Ok (setSymmetryState inactive s)
  \/ handleSymmetryEdgePick point s
     = Ok (setSymmetryState inactive (alert notStraightEdgeError s))
  \/ exists (i : nat) (d : num) (nA nB : Node num),
       isPathClosed s = true /\ 3 <= length (nodes s)
       /\ closestEdge point (nodes s) = Ok (Z.of_nat i, d)
       /\ get (nodes s) i = Ok nA
       /\ get (nodes s) ((i + 1) mod length (nodes s)) = Ok nB
       /\ isStraight (anchor nA) (anchor nB) (ctrl2 nA) (ctrl1 nB) = true
       /\ handleSymmetryEdgePick point s
          = Ok (setSymmetryState inactive
                  (updateStateAndHistory
                     (set_type smooth
                        (set_ctrl2 (reflectPoint (anchor nA) (anchor nB) (ctrl1 nA)) nA)
                      :: map (mirrorNode (anchor nA) (anchor nB))
                           (rev (intermediates i (nodes s)))
                      ++ set_type smooth
                           (set_ctrl1 (reflectPoint (anchor nA) (anchor nB) (ctrl2 nB)) nB)
                         :: intermediates i (nodes s))
                     true s)).
Proof.
  destruct (isPathClosed s) eqn:Hc.
  2: { left. unfold handleSymmetryEdgePick. rewrite Hc. reflexivity. }
  destruct (Nat.ltb_spec (length (nodes s)) 3) as [Hshort | Hlen].
  { left. unfold handleSymmetryEdgePick. rewrite Hc.
    destruct (Nat.ltb_spec (length (nodes s)) 3); [ reflexivity | lia ]. }
  destruct (closestEdge_scanned point (nodes s)) as ([k d] & Hrun & Hinv).
  destruct Hinv as [(Hacc & _) | (Hrange & _)].
  { left. inversion Hacc. subst k d. unfold handleSymmetryEdgePick.
    rewrite Hc, Hrun.
    destruct (Nat.ltb_spec (length (nodes s)) 3); [ lia | reflexivity ]. }
  cbn [fst] in Hrange.
  assert (Hi : Z.to_nat k < length (nodes s)) by lia.
  destruct (segment_in_range (nodes s) Hi) as (nA & nB & HA & HB & _).
  destruct (isStraight (anchor nA) (anchor nB) (ctrl2 nA) (ctrl1 nB)) eqn:Hst.
  - right. right. exists (Z.to_nat k), d, nA, nB.
    rewrite Z2Nat.id by lia.
    do 6 (split; [ assumption || reflexivity | ]).
    apply symmetry_pick_assembles with (d := d); try assumption.
    rewrite Z2Nat.id by lia. exact Hrun.
  - right. left. unfold handleSymmetryEdgePick. rewrite Hc, Hrun.
    destruct (Nat.ltb_spec (length (nodes s)) 3); [ lia | ].
    cbn [negb orb bind fst].
    destruct (Z.eqb_spec k (-1)); [ lia | ].
    rewrite HA, HB. cbn [bind]. rewrite Hst. reflexivity.
Qed.

(** The same outcomes with what decides between them. *)
Lemma symmetry_pick_cases point s :
  (exists report,
     symmetryFailure point s report
     /\ handleSymmetryEdgePick point s
        = Ok (setSymmetryState inactive
                (set_alerts (alerts s ++ report) s)))
  \/ exists (i : nat) (d : num) (nA nB : Node num),
       isPathClosed s = true /\ 3 <= length (nodes s)
       /\ closestEdge point (nodes s) = Ok (Z.of_nat i, d)
       /\ get (nodes s) i = Ok nA
       /\ get (nodes s) ((i + 1) mod length (nodes s)) = Ok nB
       /\ segment (nodes s) i = Ok (anchor nA, ctrl2 nA, ctrl1 nB, anchor nB)
       /\ isStraight (anchor nA) (anchor nB) (ctrl2 nA) (ctrl1 nB) = true
       /\ handleSymmetryEdgePick point s
          = Ok (setSymmetryState inactive
                  (updateStateAndHistory
                     (set_type smooth
                        (set_ctrl2 (reflectPoint (anchor nA) (anchor nB) (ctrl1 nA)) nA)
                      :: map (mirrorNode (anchor nA) (anchor nB))
                           (rev (intermediates i (nodes s)))
                      ++ set_type smooth
                           (set_ctrl1 (reflectPoint (anchor nA) (anchor nB) (ctrl2 nB)) nB)
                         :: intermediates i (nodes s))
                     true s)).
Proof.
  assert (Hquiet : set_alerts (alerts s ++ []) s = s)
    by (rewrite app_nil_r; destruct s; reflexivity).
  destruct (isPathClosed s) eqn:Hc.
  2: { left. exists []. split; [ apply NoEligiblePath; left; exact Hc | ].
       rewrite Hquiet. unfold handleSymmetryEdgePick. rewrite Hc. reflexivity. }
  destruct (Nat.ltb_spec (length (nodes s)) 3) as [Hshort | Hlen].
  { left. exists []. split; [ apply NoEligiblePath; right; exact Hshort | ].
    rewrite Hquiet. unfold handleSymmetryEdgePick. rewrite Hc.
    destruct (Nat.ltb_spec (length (nodes s)) 3); [ reflexivity | lia ]. }
  destruct (closestEdge_scanned point (nodes s)) as ([k d] & Hrun & Hinv).
  destruct Hinv as [(Hacc & _) | (Hrange & _)].
  { left. exists []. inversion Hacc. subst k d.
    split; [ eapply NoEdgeFound; eassumption | ].
    rewrite Hquiet. unfold handleSymmetryEdgePick. rewrite Hc, Hrun.
    destruct (Nat.ltb_spec (length (nodes s)) 3); [ lia | reflexivity ]. }
  cbn [fst] in Hrange.
  assert (Hi : Z.to_nat k < length (nodes s)) by lia.
  assert (Hk : Z.of_nat (Z.to_nat k) = k) by (apply Z2Nat.id; lia).
  rewrite <- Hk in Hrun.
  destruct (segment_in_range (nodes s) Hi) as (nA & nB & HA & HB & Hseg).
  destruct (isStraight (anchor nA) (anchor nB) (ctrl2 nA) (ctrl1 nB)) eqn:Hst.
  - right. exists (Z.to_nat k), d, nA, nB.
    do 7 (split; [ assumption || reflexivity | ]).
    apply symmetry_pick_assembles with (d := d); assumption.
  - left. exists [notStraightEdgeError].
    split; [ eapply NotStraightEdge; eassumption | ].
    unfold handleSymmetryEdgePick. rewrite Hc, Hrun.
    destruct (Nat.ltb_spec (length (nodes s)) 3); [ lia | ].
    cbn [negb orb bind fst].
    destruct (Z.eqb_spec (Z.of_nat (Z.to_nat k)) (-1)); [ lia | ].
    rewrite Nat2Z.id, HA, HB. cbn [bind]. rewrite Hst. reflexivity.
Qed.

(** X5. A symmetry pick always returns: the scan and the walk around the path
    end, and no node is read out of range. It leaves the mode inactive and
    keeps the closed flag, the view, the selection and the drag target. It is
    declined when the path is open or has fewer than 3 nodes, when the scan
    finds no edge, and when the closest edge fails the straightness test:
    then the nodes, the history and its index are as they were, and the
    message is shown in the last case only. Otherwise the scan selected an
    edge of a closed path of [n >= 3] nodes that passes the test: then the
    path has [2n - 2] nodes, the history is cut after the entry at the index
    of before and gets this path, closed, as its new last entry, to which the
    index moves, and no message is shown. *)
Theorem symmetry_pick_completes point s :
  exists s',
    handleSymmetryEdgePick point s = Ok s'
    /\ symmetryState s' = inactive
    /\ isPathClosed s' = isPathClosed s
    /\ viewState s' = viewState s
    /\ selectedNodeIndex s' = selectedNodeIndex s
    /\ draggedInfo s' = draggedInfo s
    /\ ((exists report,
           symmetryFailure point s report
           /\ nodes s' = nodes s /\ history s' = history s
           /\ historyIndex s' = historyIndex s
           /\ alerts s' = alerts s ++ report)
        \/ (exists (i : nat) (d : num) (pA ctrlA ctrlB pB : Point num),
              isPathClosed s = true
              /\ 3 <= length (nodes s)
              /\ closestEdge point (nodes s) = Ok (Z.of_nat i, d)
              /\ segment (nodes s) i = Ok (pA, ctrlA, ctrlB, pB)
              /\ isStraight pA pB ctrlA ctrlB = true
              /\ length (nodes s') = 2 * length (nodes s) - 2
              /\ commitOf s s'
              /\ alerts s' = alerts s)).
Proof.
  destruct (symmetry_pick_cases point s)
    as [(report & Hfail & Hrun)
       | (i & d & nA & nB & Hc & Hlen & Hscan & _ & _ & Hseg & Hst & Hrun)];
    rewrite Hrun; eexists; (split; [ reflexivity | ]).
  - do 5 (split; [ reflexivity | ]).
    left. exists report. split; [ exact Hfail | ]. repeat split.
  - split; [ reflexivity | ]. split; [ symmetry; exact Hc | ].
    do 3 (split; [ reflexivity | ]).
    right. exists i, d, (anchor nA), (ctrl2 nA), (ctrl1 nB), (anchor nB).
    do 5 (split; [ assumption | ]).
    split; [ | split; [ | reflexivity ] ].
    + cbn [nodes setSymmetryState updateStateAndHistory setHistoryIndex setHistory
           setIsPathClosed setNodes length].
      rewrite length_app, length_map, length_rev. cbn [length].
      rewrite intermediates_length. lia.
    + match goal with
      | |- commitOf s (setSymmetryState inactive (updateStateAndHistory ?nn true s)) =>
          exact (commitOf_commit s nn true)
      end.
Qed.

End SymmetryOutcomes.

(** ** The closest edge is a nearest one *)

Section NearestEdge.
Context {num : Type} {N : Number num} {I : Infinite num}.
Hypothesis nlt_trans :
  forall a b c : num, nlt a b = true -> nlt b c = true -> nlt a c = true.
Hypothesis nlt_irrefl : forall a : num, nlt a a = false.
Implicit Types (point : Point num) (arr : list (Node num)).

(** The scan over the edges [from .. from + count - 1] from [acc]: it ends on
    [acc], or on one of these edges with its distance; no distance of these
    edges compares below the one it ends on. *)
Lemma edge_scan_minimum point arr (count : nat) :
  forall (from : nat) (acc acc' : Z * num),
    from + count <= length arr ->
    for_loop from count (edge_step point arr) acc = Ok acc' ->
    (acc' = acc
     \/ exists i seg, from <= i < from + count /\ segment arr i = Ok seg
          /\ acc' = (Z.of_nat i, edgeDistance point seg)
          /\ nlt (edgeDistance point seg) (snd acc) = true)
    /\ forall j seg, from <= j < from + count -> segment arr j = Ok seg ->
         nlt (edgeDistance point seg) (snd acc') = false.
Proof.
  induction count as [| c IH]; intros from acc acc' Hle Hrun; cbn [for_loop] in Hrun.
  - inversion Hrun. subst acc'. split; [ left; reflexivity | intros j seg Hj; lia ].
  - destruct (@edge_step_segment _ _ _ point arr from acc) as (seg & Hseg & Hstep);
      [ lia | ].
    rewrite Hstep in Hrun. cbn [bind] in Hrun.
    destruct (IH (S from) _ acc' ltac:(lia) Hrun) as [Hr Hmin].
    assert (Hcase : forall j sj, from <= j < from + S c -> segment arr j = Ok sj ->
              (j = from /\ sj = seg) \/ S from <= j < S from + c).
    { intros j sj Hj Hsj. destruct (Nat.eq_dec j from) as [-> | Hne];
        [ left; split; [ reflexivity | congruence ] | right; lia ]. }
    destruct (nlt (edgeDistance point seg) (snd acc)) eqn:Hi.
    + destruct Hr as [Hsame | (j & sj & Hj & Hsj & Hr & Hlt)]; cbn [snd] in *.
      * split.
        -- right. exists from, seg. split; [ lia | ]. auto.
        -- intros j sj Hj Hsj.
           destruct (Hcase j sj Hj Hsj) as [(-> & ->) | Hin];
             [ | apply (Hmin j sj Hin Hsj) ].
           rewrite Hsame. cbn [snd]. apply nlt_irrefl.
      * split.
        -- right. exists j, sj. split; [ lia | ]. split; [ exact Hsj | ].
           split; [ exact Hr | ]. exact (nlt_trans _ _ _ Hlt Hi).
        -- intros k sk Hk Hsk.
           destruct (Hcase k sk Hk Hsk) as [(-> & ->) | Hin];
             [ | apply (Hmin k sk Hin Hsk) ].
           rewrite Hr. cbn [snd]. apply (nlt_asym nlt_trans nlt_irrefl), Hlt.
    + destruct Hr as [Hsame | (j & sj & Hj & Hsj & Hr & Hlt)].
      * split; [ left; exact Hsame | ].
        intros j sj Hj Hsj.
        destruct (Hcase j sj Hj Hsj) as [(-> & ->) | Hin];
          [ | apply (Hmin j sj Hin Hsj) ].
        rewrite Hsame. exact Hi.
      * split.
        -- right. exists j, sj. split; [ lia | ]. auto.
        -- intros k sk Hk Hsk.
           destruct (Hcase k sk Hk Hsk) as [(-> & ->) | Hin];
             [ | apply (Hmin k sk Hin Hsk) ].
           rewrite Hr. cbn [snd]. exact (nlt_below_min nlt_trans _ _ _ Hi Hlt).
Qed.

End NearestEdge.

(** X6. In binary64, the edge that the scan for the closest edge selects has the
    distance the scan returns, and no edge of the path has a sampled distance
    that compares below it. *)
Theorem closest_edge_is_nearest (point : Point float) (arr : list (Node float))
    (i : nat) (d : float) :
  closestEdge point arr = Ok (Z.of_nat i, d) ->
  exists seg,
    segment arr i = Ok seg
    /\ d = edgeDistance point seg
    /\ forall j segj, segment arr j = Ok segj ->
         PrimFloat.ltb (edgeDistance point segj) d = false.
Proof.
  intros Hrun. unfold closestEdge in Hrun.
  destruct (@edge_scan_minimum float IEEE IEEE_Infinity ltb_trans ltb_irrefl
              point arr (length arr) 0 _ _ (Nat.le_refl _) Hrun) as [Hr Hmin].
  destruct Hr as [Hsame | (k & seg & Hk & Hseg & Hr & _)].
  - inversion Hsame. lia.
  - assert (Hd : d = edgeDistance point seg) by congruence.
    assert (Hi : k = i) by (apply Nat2Z.inj; congruence).
    clear Hr. subst k.
    exists seg. split; [ exact Hseg | ]. split; [ exact Hd | ].
    intros j segj Hsj.
    change (nlt (edgeDistance point segj) (snd (Z.of_nat i, d)) = false).
    apply (Hmin j segj); [ | exact Hsj ].
    unfold segment in Hsj. destruct (get arr j) eqn:E; try discriminate.
    apply get_length in E. lia.
Qed.

(** Witness of X6: the square, picked near the middle of its first edge. *)
Lemma closest_edge_is_nearest_witness :
  exists seg,
    segment squareOf 0 = Ok seg
    /\ 1%float = edgeDistance {| x := 50%float; y := 1%float |} seg.
Proof.
  destruct (@closest_edge_is_nearest {| x := 50%float; y := 1%float |} squareOf 0
              1%float) as (seg & Hseg & Hd & _).
  - vm_compute. reflexivity.
  - exists seg. split; [ exact Hseg | exact Hd ].
Defined.

(** ** Magnitudes of binary64 numbers *)

Section Magnitude.
Local Open Scope Z_scope.

Lemma digits2_pos_size (p : positive) : digits2_pos p = Pos.size p.
Proof. induction p as [p IH | p IH |]; cbn; try rewrite IH; reflexivity. Qed.

Lemma Zdigits2_log2 (p : positive) : Zpos (digits2_pos p) = Z.log2 (Zpos p) + 1.
Proof.
  rewrite digits2_pos_size.
  destruct p as [p | p |]; cbn [Pos.size Z.log2]; try rewrite Pos2Z.inj_succ; lia.
Qed.

Lemma Zdigits2_nonneg (m : Z) : 0 <= Zdigits2 m.
Proof. destruct m; cbn; lia. Qed.

(** A non-negative integer is below [2^k] exactly when it has at most [k]
    binary digits. *)
Lemma Zdigits2_le_iff (m k : Z) :
  0 <= m -> 0 <= k -> (m < 2 ^ k <-> Zdigits2 m <= k).
Proof.
  intros Hm Hk. destruct m as [| p | p]; [ | | lia ].
  - cbn [Zdigits2]. split; intros _; [ exact Hk | apply Z.pow_pos_nonneg; lia ].
  - cbn [Zdigits2]. rewrite Zdigits2_log2.
    rewrite (Z.log2_lt_pow2 (Zpos p) k) by lia. lia.
Qed.

Lemma Zdigits2_lt_pow (m : Z) : 0 <= m -> m < 2 ^ Zdigits2 m.
Proof.
  intros Hm. apply @Zdigits2_le_iff; [ exact Hm | apply Zdigits2_nonneg | lia ].
Qed.

Lemma Zdigits2_succ (m : Z) : 0 <= m -> Zdigits2 (m + 1) <= Zdigits2 m + 1.
Proof.
  intros Hm. pose proof (Zdigits2_nonneg m) as Hd.
  apply @Zdigits2_le_iff; [ lia | lia | ].
  pose proof (@Zdigits2_lt_pow m Hm) as Hlt.
  rewrite Z.pow_add_r by lia. change (2 ^ 1) with 2. lia.
Qed.

Lemma Zdigits2_mul (a b : Z) :
  0 <= a -> 0 <= b -> Zdigits2 (a * b) <= Zdigits2 a + Zdigits2 b.
Proof.
  intros Ha Hb.
  pose proof (Zdigits2_nonneg a) as Hda. pose proof (Zdigits2_nonneg b) as Hdb.
  apply @Zdigits2_le_iff; [ nia | lia | ].
  pose proof (@Zdigits2_lt_pow a Ha) as Hla.
  pose proof (@Zdigits2_lt_pow b Hb) as Hlb.
  rewrite Z.pow_add_r by lia.
  assert (0 < 2 ^ Zdigits2 a) by (apply Z.pow_pos_nonneg; lia).
  assert (0 < 2 ^ Zdigits2 b) by (apply Z.pow_pos_nonneg; lia).
  nia.
Qed.

(** One step of the right shift drops one digit. *)
Lemma shr_1_digits (mrs : shr_record) :
  0 <= shr_m mrs ->
  0 <= shr_m (shr_1 mrs)
  /\ Zdigits2 (shr_m (shr_1 mrs)) = Z.max 0 (Zdigits2 (shr_m mrs) - 1).
Proof.
  destruct mrs as [m r s]. cbn [shr_m]. intros Hm.
  destruct m as [| [p | p |] | p]; cbn [shr_1 shr_m Zdigits2 digits2_pos];
    try rewrite Pos2Z.inj_succ; lia.
Qed.

Lemma iter_shr_1_digits (p : positive) : forall mrs : shr_record,
  0 <= shr_m mrs ->
  0 <= shr_m (SpecFloat.iter_pos shr_1 p mrs)
  /\ Zdigits2 (shr_m (SpecFloat.iter_pos shr_1 p mrs))
     = Z.max 0 (Zdigits2 (shr_m mrs) - Zpos p).
Proof.
  induction p as [p IH | p IH |]; intros mrs Hm; cbn [SpecFloat.iter_pos].
  - destruct (@shr_1_digits mrs Hm) as [H1 D1].
    destruct (IH _ H1) as [H2 D2]. destruct (IH _ H2) as [H3 D3].
    split; [ exact H3 | ]. rewrite D3, D2, D1. lia.
  - destruct (IH _ Hm) as [H2 D2]. destruct (IH _ H2) as [H3 D3].
    split; [ exact H3 | ]. rewrite D3, D2. lia.
  - apply @shr_1_digits, Hm.
Qed.

Lemma shr_digits (mrs : shr_record) (e n : Z) :
  0 <= shr_m mrs ->
  0 <= shr_m (fst (shr mrs e n))
  /\ snd (shr mrs e n) = e + Z.max 0 n
  /\ Zdigits2 (shr_m (fst (shr mrs e n)))
     = Z.max 0 (Zdigits2 (shr_m mrs) - Z.max 0 n).
Proof.
  intros Hm. pose proof (Zdigits2_nonneg (shr_m mrs)) as Hd.
  destruct n as [| p | p]; cbn [shr fst snd].
  - split; [ exact Hm | split; lia ].
  - destruct (@iter_shr_1_digits p mrs Hm) as [H1 D1].
    split; [ exact H1 | split; [ lia | rewrite D1; lia ] ].
  - split; [ exact Hm | split; lia ].
Qed.

Lemma shr_record_of_loc_m (m : Z) (l : location) : shr_m (shr_record_of_loc m l) = m.
Proof. destruct l as [| []]; reflexivity. Qed.

Lemma round_nearest_even_cases (m : Z) (l : location) :
  round_nearest_even m l = m \/ round_nearest_even m l = m + 1.
Proof.
  destruct l as [| []]; cbn [round_nearest_even]; auto.
  destruct (Z.even m); auto.
Qed.

Ltac binary64 := unfold fexp, SpecFloat.emin, prec, emax in *.

(** The rounding step on a mantissa of magnitude at most [k]: the result is a
    zero or a finite number of magnitude at most [k + 1], never an infinity
    or NaN. *)
Lemma binary_round_aux_bound (sx : bool) (mx ex : Z) (lx : location) (k : Z) :
  0 <= mx -> Zdigits2 mx + ex <= k -> -1074 <= k -> k <= 1023 -> ex <= 971 ->
  match binary_round_aux prec emax sx mx ex lx with
  | S754_zero s => s = sx
  | S754_finite s m e => s = sx /\ Zpos (digits2_pos m) + e <= k + 1
  | _ => False
  end.
Proof.
  intros Hmx HD Hk1 Hk2 Hex.
  unfold binary_round_aux, shr_fexp.
  pose proof (@shr_digits (shr_record_of_loc mx lx) ex
                (fexp prec emax (Zdigits2 mx + ex) - ex)) as S1.
  rewrite shr_record_of_loc_m in S1. specialize (S1 Hmx).
  destruct (shr (shr_record_of_loc mx lx) ex (fexp prec emax (Zdigits2 mx + ex) - ex))
    as [mrs' e']. cbn [fst snd] in S1. destruct S1 as (N1 & E1 & D1).
  set (m2 := round_nearest_even (shr_m mrs') (loc_of_shr_record mrs')).
  assert (Hm2 : 0 <= m2 /\ Zdigits2 m2 <= Zdigits2 (shr_m mrs') + 1).
  { destruct (round_nearest_even_cases (shr_m mrs') (loc_of_shr_record mrs'))
      as [H | H]; fold m2 in H; rewrite H.
    - split; lia.
    - split; [ lia | apply @Zdigits2_succ, N1 ]. }
  destruct Hm2 as [N2 D2].
  pose proof (@shr_digits (shr_record_of_loc m2 loc_Exact) e'
                (fexp prec emax (Zdigits2 m2 + e') - e')) as S2.
  rewrite shr_record_of_loc_m in S2. specialize (S2 N2).
  destruct (shr (shr_record_of_loc m2 loc_Exact) e' (fexp prec emax (Zdigits2 m2 + e') - e'))
    as [mrs'' e'']. cbn [fst snd] in S2. destruct S2 as (N3 & E3 & D3).
  pose proof (Zdigits2_nonneg mx) as P0.
  pose proof (Zdigits2_nonneg (shr_m mrs')) as P1.
  pose proof (Zdigits2_nonneg m2) as P2.
  binary64.
  destruct (shr_m mrs'') as [| m | m] eqn:Em.
  - reflexivity.
  - cbn [Zdigits2] in D3.
    destruct (Z.leb_spec e'' (1024 - 53)); [ | lia ].
    split; [ reflexivity | lia ].
  - lia.
Qed.

Lemma digits_iter_xO (d mx : positive) :
  Zpos (digits2_pos (Pos.iter xO mx d)) = Zpos (digits2_pos mx) + Zpos d.
Proof.
  induction d as [| d IH] using Pos.peano_ind.
  - cbn [Pos.iter digits2_pos]. rewrite Pos2Z.inj_succ. lia.
  - rewrite Pos.iter_succ. cbn [digits2_pos].
    rewrite !Pos2Z.inj_succ, IH. lia.
Qed.

(** Aligning a mantissa to a smaller exponent keeps the magnitude. *)
Lemma shl_align_spec (mx : positive) (ex ex' : Z) :
  Zpos (digits2_pos (fst (shl_align mx ex ex'))) + snd (shl_align mx ex ex')
  = Zpos (digits2_pos mx) + ex
  /\ snd (shl_align mx ex ex') = Z.min ex ex'.
Proof.
  unfold shl_align. destruct (ex' - ex) as [| d | d] eqn:E; cbn [fst snd].
  - split; lia.
  - split; lia.
  - rewrite digits_iter_xO. split; lia.
Qed.

Lemma binary_round_bound (sx : bool) (mx : positive) (ex k : Z) :
  Zpos (digits2_pos mx) + ex <= k -> -1074 <= k -> k <= 1023 ->
  magnitudeAtMost (k + 1) (binary_round prec emax sx mx ex)
  /\ SFsign (binary_round prec emax sx mx ex) = sx.
Proof.
  intros HD Hk1 Hk2. unfold binary_round.
  pose proof (shl_align_spec mx ex (fexp prec emax (Zpos (digits2_pos mx) + ex)))
    as [Hmag Hexp].
  destruct (shl_align mx ex (fexp prec emax (Zpos (digits2_pos mx) + ex)))
    as [mz ez]. cbn [fst snd] in Hmag, Hexp.
  pose proof (@binary_round_aux_bound sx (Zpos mz) ez loc_Exact k) as H.
  cbn [Zdigits2] in H.
  assert (Hez : ez <= 971) by (binary64; lia).
  specialize (H ltac:(lia) ltac:(lia) Hk1 Hk2 Hez).
  destruct (binary_round_aux prec emax sx (Zpos mz) ez loc_Exact);
    cbn [magnitudeAtMost SFsign]; try contradiction; [ auto | ].
  destruct H as [-> H]. auto.
Qed.

Lemma valid_finite (s : bool) (m : positive) (e : Z) :
  valid_binary (S754_finite s m e) = true ->
  Z.max (Zpos (digits2_pos m) + e - 53) (-1074) = e /\ e <= 971.
Proof.
  cbn [SpecFloat.valid_binary]. unfold bounded, canonical_mantissa.
  intros H. apply andb_true_iff in H. destruct H as [H1 H2].
  apply Z.eqb_eq in H1. apply Z.leb_le in H2. binary64. lia.
Qed.

(** Products: the magnitudes add up, with one more for the rounding. *)
Lemma SFmul_bound (x y : spec_float) (a b : Z) :
  valid_binary x = true -> valid_binary y = true ->
  magnitudeAtMost a x -> magnitudeAtMost b y ->
  -1074 <= a + b -> a + b <= 1023 ->
  magnitudeAtMost (a + b + 1) (SFmul prec emax x y)
  /\ SFsign (SFmul prec emax x y) = xorb (SFsign x) (SFsign y).
Proof.
  intros Vx Vy Hx Hy H1 H2.
  destruct x as [sx | sx | | sx mx ex], y as [sy | sy | | sy my ey];
    cbn [magnitudeAtMost] in Hx, Hy; try contradiction;
    cbn [SFmul magnitudeAtMost SFsign]; auto.
  destruct (@valid_finite _ _ _ Vx) as [Cx Ex].
  destruct (@valid_finite _ _ _ Vy) as [Cy Ey].
  pose proof (@binary_round_aux_bound (xorb sx sy) (Zpos (mx * my)) (ex + ey)
                loc_Exact (a + b)) as H.
  pose proof (@Zdigits2_mul (Zpos mx) (Zpos my) ltac:(lia) ltac:(lia)) as Hd.
  rewrite <- Pos2Z.inj_mul in Hd. cbn [Zdigits2] in H, Hd.
  specialize (H ltac:(lia) ltac:(lia) H1 H2 ltac:(lia)).
  destruct (binary_round_aux prec emax (xorb sx sy) (Zpos (mx * my)) (ex + ey)
              loc_Exact); cbn [magnitudeAtMost SFsign]; try contradiction;
    [ auto | ].
  destruct H as [-> H]. auto.
Qed.

(** The sum or difference of two aligned mantissas. *)
Lemma aligned_sum_digits (mx my : positive) (ex ey : Z) (a b : Z) (m : Z) :
  Zpos (digits2_pos mx) + ex <= a -> Zpos (digits2_pos my) + ey <= b ->
  Z.abs m <= Zpos (fst (shl_align mx ex (Z.min ex ey)))
             + Zpos (fst (shl_align my ey (Z.min ex ey))) ->
  Zdigits2 (Z.abs m) + Z.min ex ey <= Z.max a b + 1.
Proof.
  intros Hx Hy Hm.
  destruct (shl_align_spec mx ex (Z.min ex ey)) as [Mx Sx].
  destruct (shl_align_spec my ey (Z.min ex ey)) as [My Sy].
  set (ez := Z.min ex ey) in *.
  set (a' := fst (shl_align mx ex ez)) in *.
  set (b' := fst (shl_align my ey ez)) in *.
  assert (Hez : ez <= ex /\ ez <= ey) by (unfold ez; lia).
  assert (Ha : Zpos a' < 2 ^ (Z.max a b - ez)).
  { pose proof (@Zdigits2_lt_pow (Zpos a') ltac:(lia)) as H. cbn [Zdigits2] in H.
    eapply Z.lt_le_trans; [ exact H | ].
    apply Z.pow_le_mono_r; lia. }
  assert (Hb : Zpos b' < 2 ^ (Z.max a b - ez)).
  { pose proof (@Zdigits2_lt_pow (Zpos b') ltac:(lia)) as H. cbn [Zdigits2] in H.
    eapply Z.lt_le_trans; [ exact H | ].
    apply Z.pow_le_mono_r; lia. }
  assert (Hpos : 0 <= Z.max a b - ez) by lia.
  assert (Hd : Zdigits2 (Z.abs m) <= Z.max a b - ez + 1).
  { apply @Zdigits2_le_iff; [ lia | lia | ].
    rewrite Z.pow_add_r by lia. change (2 ^ 1) with 2. lia. }
  lia.
Qed.

Lemma binary_normalize_bound (m ez : Z) (k : Z) :
  Zdigits2 (Z.abs m) + ez <= k -> -1074 <= k -> k <= 1023 ->
  magnitudeAtMost (k + 1) (binary_normalize prec emax m ez false)
  /\ (0 <= m -> SFsign (binary_normalize prec emax m ez false) = false).
Proof.
  intros HD Hk1 Hk2. destruct m as [| p | p]; cbn [binary_normalize].
  - cbn. auto.
  - cbn [Z.abs Zdigits2] in HD.
    destruct (@binary_round_bound false p ez k HD Hk1 Hk2) as [H1 H2]. auto.
  - cbn [Z.abs Zdigits2] in HD.
    destruct (@binary_round_bound true p ez k HD Hk1 Hk2) as [H1 H2].
    split; [ exact H1 | lia ].
Qed.

Lemma magnitudeAtMost_le (k k' : Z) (f : spec_float) :
  k <= k' -> magnitudeAtMost k f -> magnitudeAtMost k' f.
Proof. destruct f; cbn; auto. lia. Qed.

(** Sums: the larger magnitude, with one more for the carry and one for the
    rounding. The sum of two non-negative numbers is non-negative. *)
Lemma SFadd_bound (x y : spec_float) (a b : Z) :
  magnitudeAtMost a x -> magnitudeAtMost b y ->
  -1075 <= Z.max a b -> Z.max a b <= 1022 ->
  magnitudeAtMost (Z.max a b + 2) (SFadd prec emax x y)
  /\ (SFsign x = false -> SFsign y = false ->
      SFsign (SFadd prec emax x y) = false).
Proof.
  intros Hx Hy H1 H2.
  destruct x as [sx | sx | | sx mx ex], y as [sy | sy | | sy my ey];
    cbn [magnitudeAtMost] in Hx, Hy; try contradiction; cbn [SFadd].
  - destruct sx, sy; cbn; auto.
  - split; [ apply (@magnitudeAtMost_le b); [ lia | exact Hy ] | auto ].
  - split; [ apply (@magnitudeAtMost_le a); [ lia | exact Hx ] | auto ].
  - set (m := cond_Zopp sx (Zpos (fst (shl_align mx ex (Z.min ex ey))))
              + cond_Zopp sy (Zpos (fst (shl_align my ey (Z.min ex ey))))).
    assert (Hm : Z.abs m <= Zpos (fst (shl_align mx ex (Z.min ex ey)))
                            + Zpos (fst (shl_align my ey (Z.min ex ey))))
      by (unfold m, cond_Zopp; destruct sx, sy; lia).
    pose proof (@aligned_sum_digits mx my ex ey a b m Hx Hy Hm) as Hd.
    destruct (@binary_normalize_bound m (Z.min ex ey) (Z.max a b + 1) Hd
                ltac:(lia) ltac:(lia)) as [B1 B2].
    split; [ apply (@magnitudeAtMost_le (Z.max a b + 1 + 1)); [ lia | exact B1 ] | ].
    cbn [SFsign]. intros -> ->. apply B2. unfold m, cond_Zopp. lia.
Qed.

Lemma SFsub_bound (x y : spec_float) (a b : Z) :
  magnitudeAtMost a x -> magnitudeAtMost b y ->
  -1075 <= Z.max a b -> Z.max a b <= 1022 ->
  magnitudeAtMost (Z.max a b + 2) (SFsub prec emax x y).
Proof.
  intros Hx Hy H1 H2.
  destruct x as [sx | sx | | sx mx ex], y as [sy | sy | | sy my ey];
    cbn [magnitudeAtMost] in Hx, Hy; try contradiction; cbn [SFsub].
  - destruct sx, sy; cbn; auto.
  - cbn [magnitudeAtMost]. lia.
  - apply (@magnitudeAtMost_le a); [ lia | exact Hx ].
  - set (m := cond_Zopp sx (Zpos (fst (shl_align mx ex (Z.min ex ey))))
              - cond_Zopp sy (Zpos (fst (shl_align my ey (Z.min ex ey))))).
    assert (Hm : Z.abs m <= Zpos (fst (shl_align mx ex (Z.min ex ey)))
                            + Zpos (fst (shl_align my ey (Z.min ex ey))))
      by (unfold m, cond_Zopp; destruct sx, sy; lia).
    pose proof (@aligned_sum_digits mx my ex ey a b m Hx Hy Hm) as Hd.
    destruct (@binary_normalize_bound m (Z.min ex ey) (Z.max a b + 1) Hd
                ltac:(lia) ltac:(lia)) as [B1 _].
    apply (@magnitudeAtMost_le (Z.max a b + 1 + 1)); [ lia | exact B1 ].
Qed.

(** The integer square root has about half the digits. *)
Lemma Zdigits2_sqrt (m h : Z) :
  0 <= m -> 0 <= h -> Zdigits2 m <= 2 * h -> Zdigits2 (Z.sqrt m) <= h.
Proof.
  intros Hm Hh Hd.
  apply Zdigits2_le_iff; [ apply Z.sqrt_nonneg | exact Hh | ].
  apply Z.sqrt_lt_square; [ exact Hm | apply Z.pow_nonneg; lia | ].
  rewrite <- Z.pow_add_r by lia.
  eapply Z.lt_le_trans; [ apply (@Zdigits2_lt_pow m Hm) | ].
  apply Z.pow_le_mono_r; lia.
Qed.

(** The square root of a zero or of a positive finite number is a zero or a
    finite number. *)
Lemma SFsqrt_bound (x : spec_float) :
  valid_binary x = true -> SFsign x = false ->
  magnitudeAtMost 1024 x ->
  magnitudeAtMost 1024 (SFsqrt prec emax x).
Proof.
  intros Vx Sx Hx.
  destruct x as [sx | sx | | sx mx ex]; cbn [magnitudeAtMost] in Hx;
    try contradiction; cbn [SFsqrt]; [ exact I | ].
  cbn [SFsign] in Sx. subst sx.
  destruct (@valid_finite _ _ _ Vx) as [Cx Ex].
  unfold SFsqrt_core_binary. cbn [Zdigits2].
  set (d := Zpos (digits2_pos mx)) in *.
  set (e' := Z.min (fexp prec emax (Z.div2 (d + ex + 1))) (Z.div2 ex)).
  assert (He' : 2 * e' <= ex /\ e' <= 971).
  { unfold e'. rewrite !Z.div2_div. binary64. Z.div_mod_to_equations. lia. }
  set (s := ex - 2 * e').
  set (m' := match s with
             | Zpos _ => Z.shiftl (Zpos mx) s
             | Z0 => Zpos mx
             | Zneg _ => 0
             end).
  assert (Hm' : 0 <= m' /\ Zdigits2 m' <= d + s).
  { assert (Hs : 0 <= s) by (unfold s; lia).
    assert (Heq : m' = Zpos mx * 2 ^ s).
    { unfold m'. destruct s as [| p | p] eqn:Es.
      - rewrite Z.pow_0_r. lia.
      - apply Z.shiftl_mul_pow2. lia.
      - lia. }
    assert (Hpow : 0 < 2 ^ s) by (apply Z.pow_pos_nonneg; lia).
    split; [ rewrite Heq; lia | ].
    apply Zdigits2_le_iff; [ rewrite Heq; lia | unfold d; lia | ].
    rewrite Heq, Z.pow_add_r by (unfold d; lia).
    pose proof (@Zdigits2_lt_pow (Zpos mx) ltac:(lia)) as Hlt.
    cbn [Zdigits2] in Hlt. fold d in Hlt. nia. }
  destruct Hm' as [N' D'].
  pose proof (Z.sqrtrem_sqrt m') as Hq.
  destruct (Z.sqrtrem m') as [q r]. cbn [fst] in Hq. subst q.
  set (l := if (r =? 0)%Z then loc_Exact
            else loc_Inexact (if (r <=? Z.sqrt m')%Z then Lt else Gt)).
  pose proof (@Zdigits2_sqrt m' ((d + s + 1) / 2) N'
                ltac:(apply Z.div_pos; unfold d, s; lia)
                ltac:(Z.div_mod_to_equations; lia)) as Hd.
  pose proof (@binary_round_aux_bound false (Z.sqrt m') e' l 1023
                (Z.sqrt_nonneg m')) as H.
  assert (Hmag : Zdigits2 (Z.sqrt m') + e' <= 1023).
  { unfold s in Hd. revert Hd. Z.div_mod_to_equations. lia. }
  specialize (H Hmag ltac:(lia) ltac:(lia) ltac:(lia)).
  destruct (binary_round_aux prec emax false (Z.sqrt m') e' l);
    cbn [magnitudeAtMost]; try contradiction; [ exact I | ].
  destruct H as [_ H]. lia.
Qed.

End Magnitude.

(** ** The primitive operations on numbers of bounded magnitude *)

Section Binary64Bounds.
Local Open Scope Z_scope.

Lemma float_mul_bound (x y : float) (a b : Z) :
  magnitudeAtMost a (Prim2SF x) -> magnitudeAtMost b (Prim2SF y) ->
  -1074 <= a + b -> a + b <= 1023 ->
  magnitudeAtMost (a + b + 1) (Prim2SF (x * y)%float)
  /\ SFsign (Prim2SF (x * y)%float)
     = xorb (SFsign (Prim2SF x)) (SFsign (Prim2SF y)).
Proof.
  intros Hx Hy H1 H2. rewrite FloatAxioms.mul_spec.
  apply SFmul_bound; auto using FloatAxioms.Prim2SF_valid.
Qed.

Lemma float_add_bound (x y : float) (a b : Z) :
  magnitudeAtMost a (Prim2SF x) -> magnitudeAtMost b (Prim2SF y) ->
  -1075 <= Z.max a b -> Z.max a b <= 1022 ->
  magnitudeAtMost (Z.max a b + 2) (Prim2SF (x + y)%float)
  /\ (SFsign (Prim2SF x) = false -> SFsign (Prim2SF y) = false ->
      SFsign (Prim2SF (x + y)%float) = false).
Proof.
  intros Hx Hy H1 H2. rewrite FloatAxioms.add_spec. apply SFadd_bound; auto.
Qed.

Lemma float_sub_bound (x y : float) (a b : Z) :
  magnitudeAtMost a (Prim2SF x) -> magnitudeAtMost b (Prim2SF y) ->
  -1075 <= Z.max a b -> Z.max a b <= 1022 ->
  magnitudeAtMost (Z.max a b + 2) (Prim2SF (x - y)%float).
Proof.
  intros Hx Hy H1 H2. rewrite FloatAxioms.sub_spec. apply SFsub_bound; auto.
Qed.

Lemma float_sqrt_bound (x : float) :
  SFsign (Prim2SF x) = false -> magnitudeAtMost 1024 (Prim2SF x) ->
  magnitudeAtMost 1024 (Prim2SF (PrimFloat.sqrt x)).
Proof.
  intros Sx Hx. rewrite FloatAxioms.sqrt_spec.
  apply SFsqrt_bound; auto using FloatAxioms.Prim2SF_valid.
Qed.

(** A number of some magnitude is neither an infinity nor NaN, and compares
    below [Infinity]. *)
Lemma magnitude_below_infinity (x : float) (k : Z) :
  magnitudeAtMost k (Prim2SF x) ->
  PrimFloat.ltb x PrimFloat.infinity = true
  /\ PrimFloat.is_nan x = false /\ PrimFloat.is_infinity x = false.
Proof.
  unfold PrimFloat.is_nan, PrimFloat.is_infinity.
  rewrite FloatAxioms.ltb_spec, !FloatAxioms.eqb_spec, FloatAxioms.abs_spec.
  change (Prim2SF PrimFloat.infinity) with (S754_infinity false).
  destruct (Prim2SF x) as [s | s | | s m e]; cbn [magnitudeAtMost];
    try contradiction; intros _.
  - destruct s; repeat split; reflexivity.
  - unfold SFltb, SFeqb, SFabs, SFcompare.
    rewrite Z.compare_refl, Pos.compare_cont_refl.
    destruct s; repeat split; reflexivity.
Qed.

(** What compares at most [1] in absolute value has magnitude at most 1, and
    what compares below [2^500] has magnitude at most 500. *)
Lemma within_one_bound (x : float) :
  PrimFloat.leb (PrimFloat.abs x) 1 = true -> magnitudeAtMost 1 (Prim2SF x).
Proof.
  rewrite FloatAxioms.leb_spec, FloatAxioms.abs_spec.
  replace (Prim2SF 1) with (S754_finite false 4503599627370496 (-52))
    by (vm_compute; reflexivity).
  pose proof (FloatAxioms.Prim2SF_valid x) as V.
  destruct (Prim2SF x) as [s | s | | s m e]; cbn [magnitudeAtMost SFabs];
    try (intros _; exact I); try (intros H; discriminate H).
  destruct (@valid_finite _ _ _ V) as [C E].
  unfold SFleb, SFcompare.
  destruct (Z.compare_spec e (-52)) as [He | He | He];
    try (intros H; discriminate H); [ | intros _; lia ].
  destruct (Pos.compare_cont Eq m 4503599627370496) eqn:Hm;
    try (intros H; discriminate H); intros _; lia.
Qed.

Lemma below_pow500_bound (x : float) :
  PrimFloat.ltb (PrimFloat.abs x) 0x1p+500 = true ->
  magnitudeAtMost 500 (Prim2SF x).
Proof.
  rewrite FloatAxioms.ltb_spec, FloatAxioms.abs_spec.
  replace (Prim2SF 0x1p+500) with (S754_finite false 4503599627370496 448)
    by (vm_compute; reflexivity).
  pose proof (FloatAxioms.Prim2SF_valid x) as V.
  destruct (Prim2SF x) as [s | s | | s m e]; cbn [magnitudeAtMost SFabs];
    try (intros _; exact I); try (intros H; discriminate H).
  destruct (@valid_finite _ _ _ V) as [C E].
  unfold SFltb, SFcompare.
  destruct (Z.compare_spec e 448) as [He | He | He];
    try (intros H; discriminate H); [ | intros _; lia ].
  destruct (Pos.compare_cont Eq m 4503599627370496) eqn:Hm;
    try (intros H; discriminate H); intros _.
  rewrite Pos.compare_cont_spec in Hm.
  destruct (Pos.compare_spec m 4503599627370496) as [Hc | Hc | Hc];
    try discriminate Hm. clear Hm.
  assert (Hlt : Zpos m < 2 ^ 52).
  { replace (2 ^ 52) with 4503599627370496 by reflexivity.
    exact Hc. }
  pose proof (proj1 (@Zdigits2_le_iff (Zpos m) 52 (Pos2Z.is_nonneg m)
                       (Pos2Z.is_nonneg 52)) Hlt) as Hd.
  clear Hlt Hc. cbn [Zdigits2] in Hd. lia.
Qed.

End Binary64Bounds.

(** ** The scan on coordinates of moderate magnitude *)

Lemma bezier_point_weights {num : Type} {N : Number num} (t : num)
    (p0 p1 p2 p3 : Point num) :
  getPointOnCubicBezier t p0 p1 p2 p3
  = let '(w0, w1, w2, w3) := bezierWeights t in
    {| x := (w0 * x p0 + w1 * x p1 + w2 * x p2 + w3 * x p3)%num;
       y := (w0 * y p0 + w1 * y p1 + w2 * y p2 + w3 * y p3)%num |}.
Proof. reflexivity. Qed.

(** In binary64 the weights at the 31 sampled parameters are at most 1 in
    absolute value. *)
Lemma sample_weights_within_one (i : nat) :
  i <= steps ->
  let '(w0, w1, w2, w3) := bezierWeights (sample_t (num := float) i) in
  magnitudeAtMost 1 (Prim2SF w0) /\ magnitudeAtMost 1 (Prim2SF w1)
  /\ magnitudeAtMost 1 (Prim2SF w2) /\ magnitudeAtMost 1 (Prim2SF w3).
Proof.
  intros Hi.
  assert (Hall : forallb
            (fun i => let '(w0, w1, w2, w3) := bezierWeights (sample_t (num := float) i) in
                      PrimFloat.leb (PrimFloat.abs w0) 1
                      && PrimFloat.leb (PrimFloat.abs w1) 1
                      && PrimFloat.leb (PrimFloat.abs w2) 1
                      && PrimFloat.leb (PrimFloat.abs w3) 1)
            (seq 0 (S steps)) = true) by (vm_compute; reflexivity).
  rewrite forallb_forall in Hall.
  specialize (Hall i ltac:(apply in_seq; lia)).
  destruct (bezierWeights (sample_t i)) as [[[w0 w1] w2] w3].
  apply andb_true_iff in Hall. destruct Hall as [Hall H3].
  apply andb_true_iff in Hall. destruct Hall as [Hall H2].
  apply andb_true_iff in Hall. destruct Hall as [H0 H1].
  auto using within_one_bound.
Qed.

Lemma weighted_sum_bound (w0 w1 w2 w3 v0 v1 v2 v3 : float) :
  magnitudeAtMost 1 (Prim2SF w0) -> magnitudeAtMost 1 (Prim2SF w1) ->
  magnitudeAtMost 1 (Prim2SF w2) -> magnitudeAtMost 1 (Prim2SF w3) ->
  magnitudeAtMost 500 (Prim2SF v0) -> magnitudeAtMost 500 (Prim2SF v1) ->
  magnitudeAtMost 500 (Prim2SF v2) -> magnitudeAtMost 500 (Prim2SF v3) ->
  magnitudeAtMost 508 (Prim2SF (w0 * v0 + w1 * v1 + w2 * v2 + w3 * v3)%float).
Proof.
  intros W0 W1 W2 W3 V0 V1 V2 V3.
  destruct (@float_mul_bound w0 v0 1 500 W0 V0 ltac:(lia) ltac:(lia)) as [T0 _].
  destruct (@float_mul_bound w1 v1 1 500 W1 V1 ltac:(lia) ltac:(lia)) as [T1 _].
  destruct (@float_mul_bound w2 v2 1 500 W2 V2 ltac:(lia) ltac:(lia)) as [T2 _].
  destruct (@float_mul_bound w3 v3 1 500 W3 V3 ltac:(lia) ltac:(lia)) as [T3 _].
  destruct (@float_add_bound _ _ _ _ T0 T1 ltac:(lia) ltac:(lia)) as [S1 _].
  destruct (@float_add_bound _ _ _ _ S1 T2 ltac:(lia) ltac:(lia)) as [S2 _].
  destruct (@float_add_bound _ _ _ _ S2 T3 ltac:(lia) ltac:(lia)) as [S3 _].
  exact S3.
Qed.

Lemma squared_distance_bound (px py qx qy : float) :
  magnitudeAtMost 508 (Prim2SF px) -> magnitudeAtMost 508 (Prim2SF py) ->
  magnitudeAtMost 500 (Prim2SF qx) -> magnitudeAtMost 500 (Prim2SF qy) ->
  let d := ((px - qx) * (px - qx) + (py - qy) * (py - qy))%float in
  magnitudeAtMost 1023 (Prim2SF d) /\ SFsign (Prim2SF d) = false.
Proof.
  intros Px Py Qx Qy d.
  pose proof (@float_sub_bound px qx 508 500 Px Qx ltac:(lia) ltac:(lia)) as Dx.
  pose proof (@float_sub_bound py qy 508 500 Py Qy ltac:(lia) ltac:(lia)) as Dy.
  destruct (@float_mul_bound _ _ _ _ Dx Dx ltac:(lia) ltac:(lia)) as [Mx Sx].
  destruct (@float_mul_bound _ _ _ _ Dy Dy ltac:(lia) ltac:(lia)) as [My Sy].
  rewrite xorb_nilpotent in Sx, Sy.
  destruct (@float_add_bound _ _ _ _ Mx My ltac:(lia) ltac:(lia)) as [B S].
  split; [ exact B | exact (S Sx Sy) ].
Qed.

Lemma moderatePoint_bound (p : Point float) :
  moderatePoint p = true ->
  magnitudeAtMost 500 (Prim2SF (x p)) /\ magnitudeAtMost 500 (Prim2SF (y p)).
Proof.
  unfold moderatePoint, moderate. intros H. apply andb_true_iff in H.
  destruct H as [Hx Hy]. split; apply below_pow500_bound; assumption.
Qed.

(** Every sampled squared distance between points of moderate coordinates
    is a zero or a positive finite number. *)
Lemma sampleDistSq_moderate (point p0 p1 p2 p3 : Point float) (i : nat) :
  moderatePoint point = true -> moderatePoint p0 = true ->
  moderatePoint p1 = true -> moderatePoint p2 = true ->
  moderatePoint p3 = true -> i <= steps ->
  magnitudeAtMost 1023 (Prim2SF (sampleDistSq point p0 p1 p2 p3 i))
  /\ SFsign (Prim2SF (sampleDistSq point p0 p1 p2 p3 i)) = false.
Proof.
  intros Hq H0 H1 H2 H3 Hi.
  destruct (@moderatePoint_bound _ Hq) as [Qx Qy].
  destruct (@moderatePoint_bound _ H0) as [X0 Y0].
  destruct (@moderatePoint_bound _ H1) as [X1 Y1].
  destruct (@moderatePoint_bound _ H2) as [X2 Y2].
  destruct (@moderatePoint_bound _ H3) as [X3 Y3].
  unfold sampleDistSq. rewrite bezier_point_weights.
  pose proof (@sample_weights_within_one i Hi) as HW.
  destruct (bezierWeights (sample_t i)) as [[[w0 w1] w2] w3].
  destruct HW as (W0 & W1 & W2 & W3).
  cbn [x y]. unfold Math_pow2.
  apply squared_distance_bound; try assumption;
    apply weighted_sum_bound; assumption.
Qed.

(** On points of moderate coordinates the nearest-point search ends on one
    of the 31 samples, with a finite distance. *)
Lemma search_moderate (point p0 p1 p2 p3 : Point float) :
  moderatePoint point = true -> moderatePoint p0 = true ->
  moderatePoint p1 = true -> moderatePoint p2 = true ->
  moderatePoint p3 = true ->
  let c := findClosestPointOnCubicBezier point p0 p1 p2 p3 in
  isFinite (distance c) = true
  /\ PrimFloat.ltb (distance c) PrimFloat.infinity = true
  /\ exists i, i <= steps /\ closest_t c = sample_t i.
Proof.
  intros Hq H0 H1 H2 H3 c.
  destruct (@sampling_minimum float IEEE ltb_trans ltb_irrefl point p0 p1 p2 p3
              (seq 0 (S steps)) (Infinity, (#0)%num)) as [Hr Hmin].
  unfold c, findClosestPointOnCubicBezier. cbn [closest_t distance].
  set (r := fold_left _ _ _) in *.
  destruct Hr as [Hsame | (i & Hi & Hr & _)].
  - exfalso. specialize (Hmin 0 ltac:(apply in_seq; cbn; lia)).
    rewrite Hsame in Hmin. cbn [fst] in Hmin.
    destruct (@sampleDistSq_moderate point p0 p1 p2 p3 0 Hq H0 H1 H2 H3
                ltac:(unfold steps; lia)) as [Hm _].
    destruct (@magnitude_below_infinity _ _ Hm) as [Hlt _].
    change (PrimFloat.ltb (sampleDistSq point p0 p1 p2 p3 0) PrimFloat.infinity
            = false) in Hmin.
    congruence.
  - apply in_seq in Hi. rewrite Hr. cbn [fst snd].
    destruct (@sampleDistSq_moderate point p0 p1 p2 p3 i Hq H0 H1 H2 H3
                ltac:(lia)) as [Hm Hs].
    pose proof (@float_sqrt_bound _ Hs
                  (@magnitudeAtMost_le 1023 1024 _ ltac:(lia) Hm)) as Hroot.
    destruct (@magnitude_below_infinity _ _ Hroot) as (Hlt & Hnan & Hinf).
    split.
    { unfold isFinite. cbn [Math_sqrt IEEE]. rewrite Hnan, Hinf. reflexivity. }
    split; [ exact Hlt | ].
    exists i. split; [ lia | reflexivity ].
Qed.

(** The points of a segment of a path of moderate coordinates. *)
Lemma segment_moderate (arr : list (Node float)) (i : nat)
    (p0 p1 p2 p3 : Point float) :
  forallb moderateNode arr = true ->
  segment arr i = Ok (p0, p1, p2, p3) ->
  moderatePoint p0 = true /\ moderatePoint p1 = true
  /\ moderatePoint p2 = true /\ moderatePoint p3 = true.
Proof.
  intros Hall Hseg. rewrite forallb_forall in Hall. unfold segment in Hseg.
  destruct (get arr i) as [n1 | | |] eqn:E1; try discriminate.
  destruct (get arr ((i + 1) mod length arr)) as [n2 | | |] eqn:E2;
    try discriminate.
  cbn [bind] in Hseg. inversion Hseg. subst.
  apply get_nth_error, nth_error_In, Hall in E1.
  apply get_nth_error, nth_error_In, Hall in E2.
  unfold moderateNode in E1, E2.
  apply andb_true_iff in E1. destruct E1 as [E1 C12].
  apply andb_true_iff in E1. destruct E1 as [A1 C11].
  apply andb_true_iff in E2. destruct E2 as [E2 C22].
  apply andb_true_iff in E2. destruct E2 as [A2 C21].
  auto.
Qed.

Lemma edge_moderate (point : Point float) (arr : list (Node float)) (i : nat)
    (seg : Point float * Point float * Point float * Point float) :
  moderatePoint point = true -> forallb moderateNode arr = true ->
  segment arr i = Ok seg ->
  isFinite (edgeDistance point seg) = true
  /\ PrimFloat.ltb (edgeDistance point seg) PrimFloat.infinity = true.
Proof.
  intros Hq Hall Hseg. destruct seg as [[[p0 p1] p2] p3].
  destruct (@segment_moderate arr i p0 p1 p2 p3 Hall Hseg) as (H0 & H1 & H2 & H3).
  destruct (@search_moderate point p0 p1 p2 p3 Hq H0 H1 H2 H3) as (Hfin & Hlt & _).
  cbn [edgeDistance]. auto.
Qed.

(** C10, amended. In binary64, for a symmetry pick on a closed path of at
    least 3 nodes, when the coordinates of the pick point and of every anchor
    and handle of the path are of magnitude below [2^500]: the nearest-point
    search returns, for every edge, a finite distance and a parameter in
    [[0, 1]]; the scan for the closest edge returns the index of an edge of
    the path with a finite distance, never [-1]; and the pick does not take
    the branch for [closestEdgeIndex === -1]: it ends with the message for an
    edge that is not straight, or it commits the assembled path. *)
Theorem closest_edge_selected (point : Point float) (s : AppState float) :
  isPathClosed s = true ->
  3 <= length (nodes s) ->
  moderatePoint point = true ->
  forallb moderateNode (nodes s) = true ->
  (forall i seg, segment (nodes s) i = Ok seg ->
     isFinite (edgeDistance point seg) = true
     /\ PrimFloat.leb 0 (edgeParameter point seg) = true
     /\ PrimFloat.leb (edgeParameter point seg) 1 = true)
  /\ (exists (i : nat) (d : float),
        closestEdge point (nodes s) = Ok (Z.of_nat i, d)
        /\ i < length (nodes s)
        /\ isFinite d = true)
  /\ (forall d : float, closestEdge point (nodes s) <> Ok ((-1)%Z, d))
  /\ (exists s',
        handleSymmetryEdgePick point s = Ok s'
        /\ (nodes s' = nodes s /\ history s' = history s
            /\ alerts s' = alerts s ++ [notStraightEdgeError]
            \/ commitOf s s' /\ alerts s' = alerts s)).
Proof.
  intros Hc Hlen Hq Hall.
  assert (Hedges : forall i seg, segment (nodes s) i = Ok seg ->
            isFinite (edgeDistance point seg) = true
            /\ PrimFloat.ltb (edgeDistance point seg) PrimFloat.infinity = true)
    by (intros i seg Hseg; exact (@edge_moderate point (nodes s) i seg Hq Hall Hseg)).
  assert (Hscan : exists (i : nat) (d : float),
            closestEdge point (nodes s) = Ok (Z.of_nat i, d)
            /\ i < length (nodes s) /\ isFinite d = true).
  { destruct (closestEdge_scanned point (nodes s)) as ([k d] & Hrun & Hinv).
    destruct Hinv as [(Hacc & Hnone) | (Hrange & _)].
    - exfalso.
      destruct (@segment_in_range float (nodes s) 0 ltac:(lia))
        as (n1 & n2 & _ & _ & Hseg).
      specialize (Hnone 0 _ ltac:(lia) Hseg).
      destruct (Hedges 0 _ Hseg) as [_ Hlt].
      change (PrimFloat.ltb
                (edgeDistance point (anchor n1, ctrl2 n1, ctrl1 n2, anchor n2))
                PrimFloat.infinity = false) in Hnone.
      congruence.
    - cbn [fst] in Hrange.
      pose proof Hrun as Hrun'. unfold closestEdge in Hrun'.
      destruct (@edge_scan_minimum float IEEE IEEE_Infinity ltb_trans ltb_irrefl
                  point (nodes s) (length (nodes s)) 0 _ _ (Nat.le_refl _) Hrun')
        as [[Hsame | (j & seg & Hj & Hseg & Hr & _)] _].
      + inversion Hsame. lia.
      + inversion Hr. subst k d.
        exists j, (edgeDistance point seg).
        split; [ exact Hrun | ]. split; [ lia | ].
        exact (proj1 (Hedges j seg Hseg)). }
  destruct Hscan as (i & d & Hrun & Hi & Hfin).
  split.
  { intros j seg Hseg. split; [ exact (proj1 (Hedges j seg Hseg)) | ].
    destruct seg as [[[p0 p1] p2] p3]. cbn [edgeParameter].
    apply closest_t_unit_interval. }
  split; [ exists i, d; auto | ].
  split; [ intros d' Hd'; rewrite Hrun in Hd'; inversion Hd'; lia | ].
  destruct (symmetry_pick_cases point s)
    as [(report & Hfail & Hpick)
       | (j & d' & nA & nB & _ & _ & _ & _ & _ & _ & _ & Hpick)].
  - rewrite Hpick. eexists. split; [ reflexivity | ].
    left. destruct Hfail as [Hno | d' _ _ Hnone | j d' pA ctrlA ctrlB pB _ _ _ _ _].
    + exfalso. destruct Hno as [Hopen | Hshort]; [ congruence | lia ].
    + exfalso. rewrite Hrun in Hnone. inversion Hnone. lia.
    + repeat split.
  - rewrite Hpick. eexists. split; [ reflexivity | ].
    right. split; [ | reflexivity ].
    match goal with
    | |- commitOf s (setSymmetryState inactive (updateStateAndHistory ?nn true s)) =>
        exact (commitOf_commit s nn true)
    end.
Qed.

(** Witness of C10 (amended): the square, picked near the middle of its
    first edge. *)
Lemma closest_edge_selected_witness :
  exists d : float,
    closestEdge {| x := 50%float; y := 1%float |} squareOf = Ok (0%Z, d)
    /\ isFinite d = true.
Proof.
  destruct (@closest_edge_selected {| x := 50%float; y := 1%float |}
              (closedPath squareOf))
    as (_ & (i & d & Hrun & Hi & Hfin) & _).
  - reflexivity.
  - cbn. lia.
  - vm_compute. reflexivity.
  - vm_compute. reflexivity.
  - exists d. split; [ | exact Hfin ].
    assert (Hsq : closestEdge {| x := 50%float; y := 1%float |} squareOf
                  = Ok (0%Z, 1%float)) by (vm_compute; reflexivity).
    change (nodes (closedPath squareOf)) with (squareOf (num := float)) in Hrun.
    rewrite Hsq in Hrun. inversion Hrun. exact Hsq.
Defined.

(** ** The assembled path is its own mirror image *)

Section Symmetric.
Context {num : Type} {N : Number num} {I : Infinite num}.

Lemma mirrorNode_twice (lineA lineB : Point num) (n : Node num) :
  reflectsBack lineA lineB (anchor n) ->
  reflectsBack lineA lineB (ctrl1 n) ->
  reflectsBack lineA lineB (ctrl2 n) ->
  mirrorNode lineA lineB (mirrorNode lineA lineB n) = n.
Proof.
  unfold reflectsBack, mirrorNode, swapHandles, reflectNode.
  cbn [anchor ctrl1 ctrl2 type].
  intros -> -> ->. destruct n. reflexivity.
Qed.

(** X7. The path that a successful pick assembles is its own mirror image, when
    reflection across the axis keeps the two axis anchors and takes the image
    of each handle and anchor it is applied to back to the point (which it
    does over the reals): reflecting every node, exchanging its two handles
    and reversing the order gives the same cyclic path, started one node
    later. *)
Theorem symmetry_result_mirrors_itself (point : Point num) (s : AppState num)
    (i : nat) (d : num) (nA nB : Node num) :
  isPathClosed s = true ->
  3 <= length (nodes s) ->
  closestEdge point (nodes s) = Ok (Z.of_nat i, d) ->
  get (nodes s) i = Ok nA ->
  get (nodes s) ((i + 1) mod length (nodes s)) = Ok nB ->
  isStraight (anchor nA) (anchor nB) (ctrl2 nA) (ctrl1 nB) = true ->
  let reflect := reflectPoint (anchor nA) (anchor nB) in
  reflect (anchor nA) = anchor nA ->
  reflect (anchor nB) = anchor nB ->
  reflectsBack (anchor nA) (anchor nB) (ctrl1 nA) ->
  reflectsBack (anchor nA) (anchor nB) (ctrl2 nB) ->
  (forall n, In n (intermediates i (nodes s)) ->
     reflectsBack (anchor nA) (anchor nB) (anchor n)
     /\ reflectsBack (anchor nA) (anchor nB) (ctrl1 n)
     /\ reflectsBack (anchor nA) (anchor nB) (ctrl2 n)) ->
  exists s',
    handleSymmetryEdgePick point s = Ok s'
    /\ map (mirrorNode (anchor nA) (anchor nB)) (rev (nodes s'))
       = bodyFrom 1 (nodes s').
Proof.
  intros Hc Hlen Hscan HA HB Hst reflect HfixA HfixB HbackA HbackB Hinter.
  pose proof (@symmetry_pick_assembles _ _ _ point s i d nA nB
                Hc Hlen Hscan HA HB Hst) as Hrun.
    eexists. split; [ exact Hrun | ].
    cbn [nodes setSymmetryState updateStateAndHistory setHistoryIndex setHistory
         setIsPathClosed setNodes].
    set (inter := intermediates i (nodes s)) in *.
    set (m := mirrorNode (anchor nA) (anchor nB)).
    unfold bodyFrom. cbn [skipn firstn rev].
    rewrite map_app. cbn [map].
    rewrite rev_app_distr. cbn [rev]. rewrite !map_app. cbn [map].
    rewrite <- map_rev, rev_involutive, map_map.
    assert (Hm : map (fun n => m (m n)) inter = inter).
    { rewrite <- (map_id inter) at 2. apply map_ext_in. intros n Hn.
      destruct (Hinter n Hn) as (H1 & H2 & H3).
      apply mirrorNode_twice; assumption. }
    rewrite Hm.
    unfold reflectsBack in HbackA, HbackB. subst reflect.
    assert (HmA : m (set_type smooth
                       (set_ctrl2 (reflectPoint (anchor nA) (anchor nB) (ctrl1 nA)) nA))
                  = set_type smooth
                      (set_ctrl2 (reflectPoint (anchor nA) (anchor nB) (ctrl1 nA)) nA)).
    { unfold m, mirrorNode, swapHandles, reflectNode, set_type, set_ctrl2.
      cbn [anchor ctrl1 ctrl2 type]. rewrite HfixA, HbackA. reflexivity. }
    assert (HmB : m (set_type smooth
                       (set_ctrl1 (reflectPoint (anchor nA) (anchor nB) (ctrl2 nB)) nB))
                  = set_type smooth
                      (set_ctrl1 (reflectPoint (anchor nA) (anchor nB) (ctrl2 nB)) nB)).
    { unfold m, mirrorNode, swapHandles, reflectNode, set_type, set_ctrl1.
      cbn [anchor ctrl1 ctrl2 type]. rewrite HfixB, HbackB. reflexivity. }
    rewrite HmA, HmB.
    rewrite <- !app_assoc. reflexivity.
Qed.

End Symmetric.

(** Witness of X7: the square in binary64, where the reflection across its
    first edge is exact on every coordinate of the path. *)
Lemma symmetry_result_mirrors_itself_witness :
  exists s',
    handleSymmetryEdgePick {| x := 50%float; y := 1%float |} (closedPath squareOf)
    = Ok s'
    /\ map (mirrorNode {| x := 0%float; y := 0%float |}
                       {| x := 100%float; y := 0%float |}) (rev (nodes s'))
       = bodyFrom 1 (nodes s').
Proof.
  apply (@symmetry_result_mirrors_itself float IEEE IEEE_Infinity
           {| x := 50%float; y := 1%float |} (closedPath squareOf) 0 1%float
           {| anchor := {| x := 0%float; y := 0%float |};
              ctrl1 := {| x := 0%float; y := 25%float |};
              ctrl2 := {| x := 25%float; y := 0%float |}; type := corner |}
           {| anchor := {| x := 100%float; y := 0%float |};
              ctrl1 := {| x := 75%float; y := 0%float |};
              ctrl2 := {| x := 100%float; y := 25%float |}; type := corner |}).
  - reflexivity.
  - simpl. lia.
  - vm_compute. reflexivity.
  - reflexivity.
  - reflexivity.
  - vm_compute. reflexivity.
  - vm_compute. reflexivity.
  - vm_compute. reflexivity.
  - vm_compute. reflexivity.
  - vm_compute. reflexivity.
  - intros n Hn. vm_compute in Hn.
    destruct Hn as [<- | [<- | []]]; repeat split; vm_compute; reflexivity.
Defined.

(** ** Curves and reflection over the reals *)

Section RealCurves.
Local Open Scope R_scope.

(** The curve of the reversed control points is the curve traced backwards. *)
Lemma bezier_reversed (t : R) (p0 p1 p2 p3 : Point R) :
  getPointOnCubicBezier (1 - t) p3 p2 p1 p0 = getPointOnCubicBezier t p0 p1 p2 p3.
Proof.
  destruct p0 as [x0 y0], p1 as [x1 y1], p2 as [x2 y2], p3 as [x3 y3].
  unfold getPointOnCubicBezier. cbn [x y]. real_ops. f_equal; ring.
Qed.

(** X8. Over the reals, the curve point at parameter 0 is [p0], the one at
    parameter 1 is [p3], and the curve of the control points in reverse order
    at [1 - t] is the curve at [t]. *)
Theorem bezier_endpoints_and_reversal (p0 p1 p2 p3 : Point R) :
  getPointOnCubicBezier 0 p0 p1 p2 p3 = p0
  /\ getPointOnCubicBezier 1 p0 p1 p2 p3 = p3
  /\ forall t : R,
       getPointOnCubicBezier (1 - t) p3 p2 p1 p0
       = getPointOnCubicBezier t p0 p1 p2 p3.
Proof.
  split; [ | split; [ | intros t; apply bezier_reversed ] ];
    destruct p0 as [x0 y0], p1 as [x1 y1], p2 as [x2 y2], p3 as [x3 y3];
    unfold getPointOnCubicBezier; cbn [x y]; real_ops; f_equal; ring.
Qed.

Lemma reflectPoint_real (lineA lineB p : Point R) :
  lineA <> lineB ->
  reflectPoint lineA lineB p
  = {| x := x p - 2 * A_coeff lineA lineB
                  * (A_coeff lineA lineB * x p + B_coeff lineA lineB * y p
                     + C_coeff lineA lineB) / D_coeff lineA lineB;
       y := y p - 2 * B_coeff lineA lineB
                  * (A_coeff lineA lineB * x p + B_coeff lineA lineB * y p
                     + C_coeff lineA lineB) / D_coeff lineA lineB |}.
Proof.
  intros Hne. apply (proj2 (reflectPoint_real_axis lineA lineB p)). exact Hne.
Qed.

Lemma reflectPoint_same (lineA p : Point R) : reflectPoint lineA lineA p = p.
Proof.
  apply (proj1 (reflectPoint_real_axis lineA lineA p)). reflexivity.
Qed.

(** X9. Over the reals, [reflectPoint] keeps the two points of the axis, takes
    the image of every point back to the point, and preserves the distance
    between two points. *)
Theorem reflectPoint_involutive_isometry (lineA lineB : Point R) :
  reflectPoint lineA lineB lineA = lineA
  /\ reflectPoint lineA lineB lineB = lineB
  /\ (forall p, reflectsBack lineA lineB p)
  /\ (forall p q,
        pointDistance (reflectPoint lineA lineB p) (reflectPoint lineA lineB q)
        = pointDistance p q).
Proof.
  destruct (Req_dec_T (x lineA) (x lineB)) as [Hx | Hx];
    [ destruct (Req_dec_T (y lineA) (y lineB)) as [Hy | Hy] | ].
  1: { assert (lineA = lineB) by (destruct lineA, lineB; cbn in *; congruence).
       subst lineB. unfold reflectsBack. rewrite !reflectPoint_same.
       repeat split; intros; rewrite ?reflectPoint_same; reflexivity. }
  all: assert (Hne : lineA <> lineB) by (intros ->; auto).
  all: assert (HD : D_coeff lineA lineB <> 0)
         by (intros H; apply Hne, D_coeff_zero_iff, H).
  all: unfold reflectsBack; split; [ | split; [ | split ] ]; intros;
       rewrite !(reflectPoint_real _ Hne); unfold pointDistance; cbn [x y];
       unfold D_coeff, A_coeff, B_coeff, C_coeff in *; real_ops;
       try (destruct lineA as [ax ay], lineB as [bx by']; cbn [x y] in *).
  all: try (f_equal; field; exact HD).
  all: try (destruct p as [px py]; cbn [x y]; f_equal; field; exact HD).
  all: f_equal; destruct p as [px py], q as [qx qy]; cbn [x y]; field; exact HD.
Qed.

(** X10. Over the reals, the segment between the mirrored counterparts of two
    consecutive nodes (each reflected with its handles exchanged, in reverse
    order), taken at [1 - t], is the reflection of the segment between the two
    nodes at [t]. *)
Theorem mirrored_segment_is_mirror_image (lineA lineB : Point R) (n1 n2 : Node R) :
  exists seg seg',
    segment [n1; n2] 0 = Ok seg
    /\ segment (map swapHandles (rev (map (reflectNode lineA lineB) [n1; n2]))) 0
       = Ok seg'
    /\ forall t : R,
         segmentPoint (1 - t) seg' = reflectPoint lineA lineB (segmentPoint t seg).
Proof.
  do 2 eexists. split; [ reflexivity | ]. split; [ reflexivity | ].
  intros t. cbn [segmentPoint swapHandles reflectNode anchor ctrl1 ctrl2].
  rewrite bezier_reversed.
  destruct (Req_dec_T (x lineA) (x lineB)) as [Hx | Hx];
    [ destruct (Req_dec_T (y lineA) (y lineB)) as [Hy | Hy] | ].
  1: { assert (lineA = lineB) by (destruct lineA, lineB; cbn in *; congruence).
       subst lineB. rewrite !reflectPoint_same. reflexivity. }
  all: assert (Hne : lineA <> lineB) by (intros ->; auto).
  all: assert (HD : D_coeff lineA lineB <> 0)
         by (intros H; apply Hne, D_coeff_zero_iff, H).
  all: rewrite !(reflectPoint_real _ Hne); unfold getPointOnCubicBezier; cbn [x y];
       unfold D_coeff in *; real_ops;
       set (A := A_coeff lineA lineB) in *; set (B := B_coeff lineA lineB) in *;
       set (C := C_coeff lineA lineB) in *;
       f_equal; field; exact HD.
Qed.

End RealCurves.

(** ** Pointer gestures *)

Lemma update_same {A : Type} (arr : list A) (i : nat) (v : A) :
  nth_error arr i = Some v -> update arr i v = arr.
Proof.
  revert i. induction arr as [| a rest IH]; intros [| i] H; cbn in *;
    try discriminate.
  - inversion H. reflexivity.
  - rewrite IH by exact H. reflexivity.
Qed.

Lemma map_update {A B : Type} (f : A -> B) (arr : list A) (i : nat) (v : A) :
  map f (update arr i v) = update (map f arr) i (f v).
Proof.
  revert i. induction arr as [| a rest IH]; intros [| i]; cbn; try reflexivity.
  rewrite IH. reflexivity.
Qed.

Section PointerFacts.
Context {num : Type} {N : Number num} {M : MathLib num}.
Implicit Types (s : AppState num) (event : MouseEvent num).

Lemma dragNode_type (role : DragType) (p : Point num) (node : Node num) :
  type (dragNode role p node) = type node.
Proof.
  destruct node as [a c1 c2 [|]], role; reflexivity.
Qed.

(** What a pointer move leaves alone: the history, the flags, the zoom, the
    number of nodes and their types. *)
Lemma handleMouseMove_frame event s s' :
  handleMouseMove event s = Ok s' ->
  history s' = history s /\ historyIndex s' = historyIndex s
  /\ isPathClosed s' = isPathClosed s /\ draggedInfo s' = draggedInfo s
  /\ svgRef s' = svgRef s /\ isPanning s' = isPanning s
  /\ isSpacePressed s' = isSpacePressed s
  /\ selectedNodeIndex s' = selectedNodeIndex s
  /\ symmetryState s' = symmetryState s
  /\ zoom (viewState s') = zoom (viewState s)
  /\ mouseDownPos s' = mouseDownPos s
  /\ length (nodes s') = length (nodes s)
  /\ map (@type num) (nodes s') = map (@type num) (nodes s).
Proof.
  unfold handleMouseMove. intros Hrun.
  destruct (if isPanning s then panStartPos s else None) as [start |].
  { inversion Hrun. repeat split. }
  destruct (mouseDownPos s) as [down |] eqn:Hdown;
    [ | inversion Hrun; subst; repeat split; auto ].
  destruct (getSVGCoordinates event s) as [point |];
    [ | inversion Hrun; subst; repeat split; auto ].
  set (s1 := if nlt _ _ then set_wasDragging true s else s) in Hrun.
  assert (Heq : s1 = s \/ s1 = set_wasDragging true s)
    by (unfold s1; destruct (nlt _ _); auto).
  assert (Hfields :
    history s1 = history s /\ historyIndex s1 = historyIndex s
    /\ isPathClosed s1 = isPathClosed s /\ draggedInfo s1 = draggedInfo s
    /\ svgRef s1 = svgRef s /\ isPanning s1 = isPanning s
    /\ isSpacePressed s1 = isSpacePressed s
    /\ selectedNodeIndex s1 = selectedNodeIndex s
    /\ symmetryState s1 = symmetryState s
    /\ viewState s1 = viewState s
    /\ mouseDownPos s1 = mouseDownPos s
    /\ nodes s1 = nodes s)
    by (destruct Heq as [-> | ->]; repeat split).
  clearbody s1.
  destruct Hfields as (H1 & H2 & H3 & H4 & H5 & H6 & H7 & H8 & H9 & H10 & H11 & H12).
  destruct (draggedInfo s1) as [[index role] |] eqn:Hdrag.
  - destruct (dragTarget (nodes s1) index role) as [node | | |] eqn:Hnode;
      try discriminate.
    apply dragTarget_get in Hnode. cbn [bind] in Hrun. inversion Hrun. subst s'. clear Hrun.
    cbn [history historyIndex isPathClosed draggedInfo svgRef isPanning
         isSpacePressed selectedNodeIndex symmetryState viewState mouseDownPos
         nodes setNodes].
    rewrite H10, Hdown in *.
    repeat split; auto; try congruence.
    + rewrite update_length. congruence.
    + rewrite map_update, dragNode_type, update_same, H12; [ reflexivity | ].
      rewrite nth_error_map. apply get_nth_error in Hnode. rewrite Hnode.
      reflexivity.
  - inversion Hrun. subst s'. rewrite H10, Hdown in *.
    repeat split; auto; congruence.
Qed.

Lemma moveAll_frame (events : list (MouseEvent num)) : forall s s',
  moveAll events s = Ok s' ->
  history s' = history s /\ historyIndex s' = historyIndex s
  /\ isPathClosed s' = isPathClosed s /\ draggedInfo s' = draggedInfo s
  /\ svgRef s' = svgRef s
  /\ length (nodes s') = length (nodes s)
  /\ map (@type num) (nodes s') = map (@type num) (nodes s).
Proof.
  induction events as [| event rest IH]; intros s s' Hrun; cbn [moveAll] in Hrun.
  - inversion Hrun. repeat split.
  - destruct (handleMouseMove event s) as [s1 | | |] eqn:H1; try discriminate.
    cbn [bind] in Hrun.
    destruct (handleMouseMove_frame _ _ H1)
      as (A1 & A2 & A3 & A4 & A5 & _ & _ & _ & _ & _ & _ & A6 & A7).
    destruct (IH _ _ Hrun) as (B1 & B2 & B3 & B4 & B5 & B6 & B7).
    repeat split; congruence.
Qed.

(** A pointer move returns when the drag target, if there is one, is a node
    of the path. *)
Lemma handleMouseMove_returns event s :
  targetInPath s -> exists s', handleMouseMove event s = Ok s'.
Proof.
  unfold targetInPath, handleMouseMove. intros Htarget.
  destruct (if isPanning s then panStartPos s else None); [ eauto | ].
  destruct (mouseDownPos s); [ | eauto ].
  destruct (getSVGCoordinates event s); [ | eauto ].
  set (s1 := if nlt _ _ then set_wasDragging true s else s).
  assert (Hs1 : draggedInfo s1 = draggedInfo s /\ nodes s1 = nodes s)
    by (unfold s1; destruct (nlt _ _); split; reflexivity).
  clearbody s1. destruct Hs1 as [Hd Hn]. rewrite Hd, Hn.
  destruct (draggedInfo s) as [[index role] |]; [ | eauto ].
  destruct (get_in_range (nodes s) Htarget) as [node Hnode].
  rewrite (proj2 (dragTarget_get _ _ role _) Hnode). cbn [bind]. eauto.
Qed.

Lemma moveAll_returns (events : list (MouseEvent num)) : forall s,
  targetInPath s -> exists s', moveAll events s = Ok s'.
Proof.
  induction events as [| event rest IH]; intros s Htarget; cbn [moveAll].
  - eauto.
  - destruct (handleMouseMove_returns event s Htarget) as [s1 H1].
    rewrite H1. cbn [bind]. apply IH.
    destruct (handleMouseMove_frame _ _ H1)
      as (_ & _ & _ & A4 & _ & _ & _ & _ & _ & _ & _ & A6 & _).
    unfold targetInPath in *. rewrite A4, A6. exact Htarget.
Qed.

(** X11. With a canvas element and a drag target that is a node of the path
    (as a pointer-down leaves it), every run of pointer moves returns and
    leaves the history and its index as they were, and the pointer-up that
    follows returns and leaves exactly one new history entry after the entries
    up to the index of before the gesture: the path after the last move, with
    the closed flag of before. The path has as many nodes, of the same types,
    as before the gesture, and the drag target and the pointer-down position
    are cleared. *)
Theorem drag_gesture_commits_once (events : list (MouseEvent num)) event s
    (index : nat) (role : DragType) (rect : Rect num) :
  draggedInfo s = Some (index, role) ->
  index < length (nodes s) ->
  svgRef s = Some rect ->
  exists s1 s2,
    moveAll events s = Ok s1
    /\ history s1 = history s
    /\ historyIndex s1 = historyIndex s
    /\ handleMouseUp event s1 = Ok s2
    /\ nodes s2 = nodes s1
    /\ length (nodes s2) = length (nodes s)
    /\ map (@type num) (nodes s2) = map (@type num) (nodes s)
    /\ isPathClosed s2 = isPathClosed s
    /\ history s2
       = firstn (historyIndex s + 1) (history s)
         ++ [ {| hs_nodes := nodes s1; hs_isPathClosed := isPathClosed s |} ]
    /\ historyIndex s2 = length (history s2) - 1
    /\ draggedInfo s2 = None
    /\ mouseDownPos s2 = None.
Proof.
  intros Hdrag Hindex Hsvg.
  destruct (@moveAll_returns events s) as [s1 Hmoves].
  { unfold targetInPath. rewrite Hdrag. exact Hindex. }
  destruct (moveAll_frame _ _ Hmoves) as (B1 & B2 & B3 & B4 & B5 & B6 & B7).
  exists s1.
  unfold handleMouseUp.
  set (s1' := if isPanning s1 then set_panStartPos None (setIsPanning false s1)
              else s1).
  assert (Hf : nodes s1' = nodes s1 /\ isPathClosed s1' = isPathClosed s1
               /\ history s1' = history s1 /\ historyIndex s1' = historyIndex s1
               /\ draggedInfo s1' = draggedInfo s1 /\ svgRef s1' = svgRef s1
               /\ viewState s1' = viewState s1)
    by (unfold s1'; destruct (isPanning s1); repeat split).
  clearbody s1'. destruct Hf as (F1 & F2 & F3 & F4 & F5 & F6 & F7).
  unfold getSVGCoordinates. rewrite F6, B5, Hsvg, F5, B4, Hdrag. cbn [bind].
  eexists. split; [ exact Hmoves | ]. split; [ exact B1 | ].
  split; [ exact B2 | ]. split; [ reflexivity | ].
  destruct (commit_history s1' (nodes s1') (isPathClosed s1')) as (Hh & Hi & Hn & Hc).
  cbv zeta in Hh, Hi, Hn, Hc.
  cbn [nodes isPathClosed history historyIndex draggedInfo mouseDownPos
       set_mouseDownPos setDraggedInfo].
  rewrite Hh, Hn, Hc. rewrite Hh in Hi.
  repeat split; try congruence.
Qed.

(** The array an append builds: the nodes before the last one as they were,
    the last one with its anchor, incoming handle and type as they were, and a
    new corner node at [p]. *)
Lemma appendNode_shape (p : Point num) s :
  exists newNodes newNode,
    appendNode p s
    = Ok (setSelectedNodeIndex (Some (length newNodes - 1))
            (updateStateAndHistory newNodes (isPathClosed s) s))
    /\ length newNodes = S (length (nodes s))
    /\ nth_error newNodes (length (nodes s)) = Some newNode
    /\ anchor newNode = p
    /\ type newNode = corner
    /\ (forall i, i + 1 < length (nodes s) ->
          nth_error newNodes i = nth_error (nodes s) i)
    /\ (forall prevNode,
          nth_error (nodes s) (length (nodes s) - 1) = Some prevNode ->
          exists updatedPrevNode,
            nth_error newNodes (length (nodes s) - 1) = Some updatedPrevNode
            /\ anchor updatedPrevNode = anchor prevNode
            /\ ctrl1 updatedPrevNode = ctrl1 prevNode
            /\ type updatedPrevNode = type prevNode).
Proof.
  unfold appendNode.
  destruct (Nat.ltb_spec 0 (length (nodes s))) as [Hpos | Hz].
  - destruct (get_in_range (nodes s) (i := length (nodes s) - 1)) as [prev Hprev];
      [ lia | ].
    rewrite Hprev. unfold smoothJoint. cbn [bind fst snd].
    do 2 eexists. split; [ reflexivity | ].
    split; [ rewrite length_app, update_length; cbn [length]; lia | ].
    split.
    { rewrite nth_error_app2 by (rewrite update_length; lia).
      rewrite update_length, Nat.sub_diag. reflexivity. }
    split; [ reflexivity | ]. split; [ reflexivity | ].
    split.
    + intros i Hi.
      rewrite nth_error_app1 by (rewrite update_length; lia).
      apply nth_error_update_other. lia.
    + intros prevNode Hp. apply get_nth_error in Hprev.
      assert (prevNode = prev) by congruence. subst prevNode.
      eexists. split.
      { rewrite nth_error_app1 by (rewrite update_length; lia).
        apply nth_error_update_same. lia. }
      repeat split.
  - assert (Hnil : nodes s = []) by (destruct (nodes s); [ reflexivity | cbn in Hz; lia ]).
    cbn [bind fst snd].
    do 2 eexists. split; [ reflexivity | ].
    rewrite Hnil. cbn [app length nth_error].
    repeat split; try (intros; lia).
    intros prevNode Hp. discriminate.
Qed.

(** X12. A pointer-up always returns, keeps the closed flag and the view, and
    ends panning. Unless it ends a plain click (a canvas element, no drag
    target, no drag movement, no Ctrl key and no Space key), it leaves the
    nodes as they are. When it ends a plain click, the path has one more
    node: a corner node whose anchor is the snapped pointer position, after
    the nodes of before, of which only the last one changed, in its outgoing
    handle; the new node is selected, and the history is cut after the entry
    at the index of before and gets this path, with the closed flag, as its
    new last entry, to which the index moves. *)
Theorem mouse_up_appends_only_on_plain_click event s :
  exists s',
    handleMouseUp event s = Ok s'
    /\ isPathClosed s' = isPathClosed s
    /\ viewState s' = viewState s
    /\ isPanning s' = false
    /\ (plainClick event s = false -> nodes s' = nodes s)
    /\ (plainClick event s = true ->
        exists point newNode,
          getSVGCoordinates event s = Some point
          /\ length (nodes s') = S (length (nodes s))
          /\ nth_error (nodes s') (length (nodes s)) = Some newNode
          /\ anchor newNode = {| x := snap s (x point); y := snap s (y point) |}
          /\ type newNode = corner
          /\ (forall i, i + 1 < length (nodes s) ->
                nth_error (nodes s') i = nth_error (nodes s) i)
          /\ (forall prevNode,
                nth_error (nodes s) (length (nodes s) - 1) = Some prevNode ->
                exists updatedPrevNode,
                  nth_error (nodes s') (length (nodes s) - 1) = Some updatedPrevNode
                  /\ anchor updatedPrevNode = anchor prevNode
                  /\ ctrl1 updatedPrevNode = ctrl1 prevNode
                  /\ type updatedPrevNode = type prevNode)
          /\ selectedNodeIndex s' = Some (length (nodes s))
          /\ commitOf s s').
Proof.
  unfold handleMouseUp, plainClick.
  set (s1 := if isPanning s then set_panStartPos None (setIsPanning false s) else s).
  assert (Hf : nodes s1 = nodes s /\ isPathClosed s1 = isPathClosed s
               /\ draggedInfo s1 = draggedInfo s /\ wasDragging s1 = wasDragging s
               /\ isSpacePressed s1 = isSpacePressed s
               /\ viewState s1 = viewState s /\ isPanning s1 = false
               /\ svgRef s1 = svgRef s /\ snap s1 = snap s
               /\ history s1 = history s /\ historyIndex s1 = historyIndex s).
  { unfold s1. destruct (isPanning s) eqn:E; repeat split; exact E. }
  clearbody s1.
  destruct Hf as (F1 & F2 & F3 & F4 & F5 & F6 & F7 & F8 & F9 & F10 & F11).
  assert (Hpoint : getSVGCoordinates event s1 = getSVGCoordinates event s)
    by (unfold getSVGCoordinates; rewrite F8, F6; reflexivity).
  rewrite Hpoint. unfold getSVGCoordinates at 1 2.
  destruct (svgRef s) as [rect |] eqn:Hsvg.
  2: { exists s1. repeat split; auto. intros H. discriminate. }
  set (point := toWorld _ _).
  rewrite F3, F4, F5.
  destruct (draggedInfo s) as [target |].
  { cbn [bind]. eexists. split; [ reflexivity | ]. cbn.
    repeat split; auto. intros H. discriminate. }
  destruct (negb (wasDragging s) && negb (ctrlKey event) && negb (isSpacePressed s)).
  2: { cbn [bind]. eexists. split; [ reflexivity | ]. cbn.
       repeat split; auto. intros H. discriminate. }
  destruct (appendNode_shape {| x := snap s1 (x point); y := snap s1 (y point) |} s1)
    as (nn & newNode & Happ & Hlen & Hnew & Hanchor & Htype & Hrest & Hprev).
  rewrite Happ. cbn [bind]. eexists. split; [ reflexivity | ].
  destruct (commit_history s1 nn (isPathClosed s1)) as (Hh & Hi & Hn & Hc).
  cbv zeta in Hh, Hi, Hn, Hc.
  cbn [nodes isPathClosed viewState isPanning selectedNodeIndex history
       historyIndex set_mouseDownPos setDraggedInfo setSelectedNodeIndex].
  rewrite Hn, Hc.
  split; [ exact F2 | ]. split; [ exact F6 | ]. split; [ exact F7 | ].
  split; [ intros H; discriminate | ]. intros _.
  rewrite F1, F9 in *.
  exists point, newNode.
  split; [ reflexivity | ]. split; [ exact Hlen | ]. split; [ exact Hnew | ].
  split; [ exact Hanchor | ]. split; [ exact Htype | ].
  split; [ exact Hrest | ]. split; [ exact Hprev | ].
  split; [ rewrite Hlen; f_equal; lia | ].
  unfold commitOf.
  cbn [nodes isPathClosed history historyIndex set_mouseDownPos setDraggedInfo
       setSelectedNodeIndex].
  rewrite Hn, Hc, Hi, Hh, F10, F11. split; reflexivity.
Qed.

(** X13. After a pointer-up, and after the pointer has left the canvas, a pointer
    move returns the state unchanged. *)
Theorem moves_after_release_change_nothing event event' s :
  (exists s', handleMouseUp event s = Ok s' /\ handleMouseMove event' s' = Ok s')
  /\ handleMouseMove event' (handleMouseLeave s) = Ok (handleMouseLeave s).
Proof.
  split.
  - unfold handleMouseUp.
    set (s1 := if isPanning s then set_panStartPos None (setIsPanning false s) else s).
    assert (Hf : isPanning s1 = false /\ svgRef s1 = svgRef s
                 /\ viewState s1 = viewState s).
    { unfold s1. destruct (isPanning s) eqn:E; repeat split; exact E. }
    clearbody s1. destruct Hf as (F1 & F2 & F3).
    unfold getSVGCoordinates. destruct (svgRef s1) as [rect |] eqn:Hsvg.
    + assert (Hdone : forall s2, exists s',
                Ok (set_mouseDownPos None (setDraggedInfo None s2)) = Ok s'
                /\ (isPanning s2 = false -> handleMouseMove event' s' = Ok s')).
      { intros s2. eexists. split; [ reflexivity | ].
        intros Hp. unfold handleMouseMove.
        cbn [isPanning set_mouseDownPos setDraggedInfo mouseDownPos].
        rewrite Hp. reflexivity. }
      destruct (draggedInfo s1) as [target |].
      * cbn [bind]. destruct (Hdone (updateStateAndHistory (nodes s1) (isPathClosed s1) s1))
          as (s' & Hs' & Hmove).
        exists s'. split; [ exact Hs' | apply Hmove; exact F1 ].
      * destruct (negb (wasDragging s1) && negb (ctrlKey event)
                  && negb (isSpacePressed s1)).
        -- destruct (appendNode_commits
                       {| x := snap s1 (x (toWorld
                               {| x := (clientX event - rect_left rect)%num;
                                  y := (clientY event - rect_top rect)%num |}
                               (viewState s1)));
                          y := snap s1 (y (toWorld
                               {| x := (clientX event - rect_left rect)%num;
                                  y := (clientY event - rect_top rect)%num |}
                               (viewState s1))) |} s1) as (nn & Happ & _).
           cbn [x y] in Happ |- *. rewrite Happ. cbn [bind].
           destruct (Hdone (setSelectedNodeIndex (Some (length nn - 1))
                              (updateStateAndHistory nn (isPathClosed s1) s1)))
             as (s' & Hs' & Hmove).
           exists s'. split; [ exact Hs' | apply Hmove; exact F1 ].
        -- cbn [bind]. destruct (Hdone s1) as (s' & Hs' & Hmove).
           exists s'. split; [ exact Hs' | apply Hmove; exact F1 ].
    + exists s1. split; [ reflexivity | ].
      unfold handleMouseMove, getSVGCoordinates. rewrite F1, Hsvg.
      destruct (mouseDownPos s1); reflexivity.
  - unfold handleMouseMove, handleMouseLeave.
    cbn [isPanning set_panStartPos setIsPanning mouseDownPos set_mouseDownPos].
    reflexivity.
Qed.



(** The scan over anchors and handles of the nodes below [k]. *)
Lemma hitTest_scan (point : Point num) s (k : nat) :
  k <= length (nodes s) ->
  exists hit,
    hitTest point s k = Ok hit
    /\ match hit with
       | Some (i, role) =>
           i < k
           /\ (isPathClosed s = false -> role = drag_anchor)
           /\ (exists node,
                 get (nodes s) i = Ok node
                 /\ match role with
                    | drag_anchor =>
                        nlt (pointDistance point (anchor node))
                            (#10 / zoom (viewState s))%num = true
                    | drag_ctrl1 =>
                        nlt (pointDistance point (ctrl1 node))
                            (#8 / zoom (viewState s))%num = true
                    | drag_ctrl2 =>
                        nlt (pointDistance point (ctrl2 node))
                            (#8 / zoom (viewState s))%num = true
                    end)
           /\ forall j nodej, i < j < k -> get (nodes s) j = Ok nodej ->
                nlt (pointDistance point (anchor nodej))
                    (#10 / zoom (viewState s))%num = false
       | None =>
           forall j nodej, j < k -> get (nodes s) j = Ok nodej ->
             nlt (pointDistance point (anchor nodej))
                 (#10 / zoom (viewState s))%num = false
       end.
Proof.
  induction k as [| k IH]; intros Hk.
  - exists None. split; [ reflexivity | ]. intros j nodej Hj. lia.
  - destruct (get_in_range (nodes s) (i := k)) as [node Hnode]; [ lia | ].
    cbn [hitTest]. rewrite Hnode. cbn [bind].
    fold (pointDistance point (anchor node)).
    fold (pointDistance point (ctrl1 node)).
    fold (pointDistance point (ctrl2 node)).
    assert (Hrest : nlt (pointDistance point (anchor node))
                        (#10 / zoom (viewState s))%num = false ->
              exists hit,
                hitTest point s k = Ok hit
                /\ match hit with
                   | Some (i, role) =>
                       i < S k
                       /\ (isPathClosed s = false -> role = drag_anchor)
                       /\ (exists node,
                             get (nodes s) i = Ok node
                             /\ match role with
                                | drag_anchor =>
                                    nlt (pointDistance point (anchor node))
                                        (#10 / zoom (viewState s))%num = true
                                | drag_ctrl1 =>
                                    nlt (pointDistance point (ctrl1 node))
                                        (#8 / zoom (viewState s))%num = true
                                | drag_ctrl2 =>
                                    nlt (pointDistance point (ctrl2 node))
                                        (#8 / zoom (viewState s))%num = true
                                end)
                       /\ forall j nodej, i < j < S k -> get (nodes s) j = Ok nodej ->
                            nlt (pointDistance point (anchor nodej))
                                (#10 / zoom (viewState s))%num = false
                   | None =>
                       forall j nodej, j < S k -> get (nodes s) j = Ok nodej ->
                         nlt (pointDistance point (anchor nodej))
                             (#10 / zoom (viewState s))%num = false
                   end).
    { intros Hmiss. destruct (IH ltac:(lia)) as (hit & Hrun & Hhit).
      exists hit. split; [ exact Hrun | ].
      destruct hit as [[i role] |].
      - destruct Hhit as (Hi & Hopen & Hnode' & Habove).
        split; [ lia | ]. split; [ exact Hopen | ]. split; [ exact Hnode' | ].
        intros j nodej Hj Hget. destruct (Nat.eq_dec j k) as [-> | Hne].
        + rewrite Hnode in Hget. inversion Hget. subst nodej. exact Hmiss.
        + apply (Habove j); [ lia | exact Hget ].
      - intros j nodej Hj Hget. destruct (Nat.eq_dec j k) as [-> | Hne].
        + rewrite Hnode in Hget. inversion Hget. subst nodej. exact Hmiss.
        + apply (Hhit j); [ lia | exact Hget ]. }
    destruct (nlt (pointDistance point (anchor node)) _) eqn:Hanchor.
    { exists (Some (k, drag_anchor)). split; [ reflexivity | ].
      split; [ lia | ]. split; [ reflexivity | ].
      split; [ exists node; auto | ]. intros j nodej Hj. lia. }
    destruct (isPathClosed s) eqn:Hclosed; [ | apply Hrest; reflexivity ].
    destruct (nlt (pointDistance point (ctrl1 node)) _) eqn:Hc1.
    { exists (Some (k, drag_ctrl1)). split; [ reflexivity | ].
      split; [ lia | ]. split; [ discriminate | ].
      split; [ exists node; auto | ]. intros j nodej Hj. lia. }
    destruct (nlt (pointDistance point (ctrl2 node)) _) eqn:Hc2.
    { exists (Some (k, drag_ctrl2)). split; [ reflexivity | ].
      split; [ lia | ]. split; [ discriminate | ].
      split; [ exists node; auto | ]. intros j nodej Hj. lia. }
    apply Hrest. reflexivity.
Qed.

(** X14. The scan over the anchors and handles always returns. When it returns
    a control of node [i], that node is in the path, the control is within
    its reach of the pointer ([10 / zoom] for the anchor, [8 / zoom] for a
    handle), it is the anchor if the path is open, and no node above [i] has
    its anchor within reach. When it returns nothing, no anchor is within
    reach. *)
Theorem hitTest_grabs_topmost (point : Point num) s :
  exists hit,
    hitTest point s (length (nodes s)) = Ok hit
    /\ match hit with
       | Some (i, role) =>
           i < length (nodes s)
           /\ (isPathClosed s = false -> role = drag_anchor)
           /\ (exists node,
                 get (nodes s) i = Ok node
                 /\ match role with
                    | drag_anchor =>
                        nlt (pointDistance point (anchor node))
                            (#10 / zoom (viewState s))%num = true
                    | drag_ctrl1 =>
                        nlt (pointDistance point (ctrl1 node))
                            (#8 / zoom (viewState s))%num = true
                    | drag_ctrl2 =>
                        nlt (pointDistance point (ctrl2 node))
                            (#8 / zoom (viewState s))%num = true
                    end)
           /\ forall j nodej, i < j -> get (nodes s) j = Ok nodej ->
                nlt (pointDistance point (anchor nodej))
                    (#10 / zoom (viewState s))%num = false
       | None =>
           forall j nodej, get (nodes s) j = Ok nodej ->
             nlt (pointDistance point (anchor nodej))
                 (#10 / zoom (viewState s))%num = false
       end.
Proof.
  destruct (hitTest_scan point s (Nat.le_refl _)) as (hit & Hrun & Hhit).
  exists hit. split; [ exact Hrun | ].
  destruct hit as [[i role] |].
  - destruct Hhit as (Hi & Hopen & Hnode & Habove).
    repeat split; auto.
    intros j nodej Hj Hget. apply (Habove j); [ | exact Hget ].
    apply get_length in Hget. lia.
  - intros j nodej Hget. apply (Hhit j); [ | exact Hget ].
    apply get_length in Hget. exact Hget.
Qed.

End PointerFacts.

(** *** A drag in binary64 *)

Section Binary64Drag.
#[local] Existing Instance exampleMath.

(** Witness of X11: the first anchor of the square dragged through two
    positions. *)
Lemma drag_gesture_commits_once_witness :
  let s := setDraggedInfo (Some (0, drag_anchor))
             (set_mouseDownPos (Some {| x := 0%float; y := 0%float |})
                (squareOnCanvas (num := float))) in
  let move := fun a b => {| clientX := a; clientY := b; ctrlKey := false;
                            deltaY := 0%float |} in
  exists s1 s2,
    moveAll [move 1%float 1%float; move 2.5%float 5%float] s = Ok s1
    /\ handleMouseUp (move 2.5%float 5%float) s1 = Ok s2
    /\ nodes s2 = nodes s1
    /\ length (history s2) = 3
    /\ draggedInfo s2 = None.
Proof.
  intros s move.
  destruct (@drag_gesture_commits_once float IEEE exampleMath
              [move 1%float 1%float; move 2.5%float 5%float]
              (move 2.5%float 5%float) s 0 drag_anchor canvasAtOrigin
              eq_refl ltac:(cbn; lia) eq_refl)
    as (s1 & s2 & Hmoves & _ & _ & Hup & Hnodes & _ & _ & _ & Hhist & _ & Hdrag & _).
  exists s1, s2. split; [ exact Hmoves | ]. split; [ exact Hup | ].
  split; [ exact Hnodes | ]. split; [ rewrite Hhist; reflexivity | exact Hdrag ].
Defined.

End Binary64Drag.

(** ** Pointer-down *)

Section PointerDown.
Context {num : Type} {N : Number num} {I : Infinite num} {M : MathLib num}.
Implicit Types (s : AppState num) (event : MouseEvent num)
  (arr : list (Node num)).

(** The scan for the segment to insert on returns, with no segment or with
    the index of one it went over. *)
Lemma insert_scan_outcome (point : Point num) arr (count : nat) :
  forall (from : nat) (acc : option (nat * num) * num),
    from + count <= length arr ->
    exists acc',
      for_loop from count (insert_step point arr) acc = Ok acc'
      /\ (fst acc' = fst acc
          \/ exists i t, fst acc' = Some (i, t) /\ from <= i < from + count).
Proof.
  induction count as [| c IH]; intros from acc Hle; cbn [for_loop].
  - exists acc. split; [ reflexivity | left; reflexivity ].
  - assert (Hfrom : from < length arr) by lia.
    destruct (segment_in_range arr Hfrom) as (n1 & n2 & H1 & H2 & _).
    unfold insert_step at 1. rewrite H1, H2. cbn [bind].
    set (c' := findClosestPointOnCubicBezier _ _ _ _ _).
    destruct (nlt (distance c') (snd acc)).
    + cbn [bind].
      destruct (IH (S from) (Some (from, closest_t c'), distance c') ltac:(lia))
        as (acc' & Hrun & Hout).
      exists acc'. split; [ exact Hrun | ]. right.
      destruct Hout as [Hsame | (i & t & Hi & Hr)].
      * exists from, (closest_t c'). split; [ exact Hsame | lia ].
      * exists i, t. split; [ exact Hi | lia ].
    + cbn [bind]. destruct (IH (S from) acc ltac:(lia)) as (acc' & Hrun & Hout).
      exists acc'. split; [ exact Hrun | ].
      destruct Hout as [Hsame | (i & t & Hi & Hr)]; [ left; exact Hsame | ].
      right. exists i, t. split; [ exact Hi | lia ].
Qed.

Lemma insertOnSegment_returns arr (index : nat) (t : num) :
  index < length arr ->
  exists arr', insertOnSegment arr index t = Ok arr' /\ length arr' = S (length arr).
Proof.
  intros Hi. destruct (segment_in_range arr Hi) as (n1 & n2 & _ & _ & Hseg).
  destruct (insertOnSegment_segments arr index t Hseg) as (arr' & Hrun & Hlen & _).
  exists arr'. auto.
Qed.

(** What a pointer-down leaves: it returns; it keeps the view and the flags
    and removes no node; it leaves the path and the history alone or commits
    the path it shows; and outside panning and edge picking the drag target
    it leaves is a node of the path. *)
Lemma handleMouseDown_outcome event s :
  exists s',
    handleMouseDown event s = Ok s'
    /\ viewState s' = viewState s
    /\ isPathClosed s' = isPathClosed s
    /\ isSnapEnabled s' = isSnapEnabled s
    /\ length (nodes s) <= length (nodes s')
    /\ (nodes s' = nodes s /\ history s' = history s
        /\ historyIndex s' = historyIndex s
        \/ commitOf s s')
    /\ (isSpacePressed s = false -> svgRef s <> None ->
        symmetryState s = inactive ->
        match draggedInfo s' with
        | Some (i, _) => i < length (nodes s') /\ selectedNodeIndex s' = Some i
        | None =>
            selectedNodeIndex s' = None /\ nodes s' = nodes s
            /\ history s' = history s
        end
        /\ forall event', exists s'', handleMouseMove event' s' = Ok s'').
Proof.
  unfold handleMouseDown.
  destruct (isSpacePressed s) eqn:Hspace.
  { eexists. split; [ reflexivity | ]. cbn.
    do 4 (split; [ reflexivity || lia | ]).
    split; [ left; repeat split | intros Habs; discriminate ]. }
  destruct (getSVGCoordinates event s) as [point |] eqn:Hpoint.
  2: { exists s. do 5 (split; [ reflexivity || lia | ]).
       split; [ left; repeat split | ].
       intros _ Hsvg. unfold getSVGCoordinates in Hpoint.
       destruct (svgRef s); [ discriminate | contradiction ]. }
  set (s0 := set_wasDragging false (set_mouseDownPos (Some point) s)).
  assert (Hmove : forall s1 : AppState num,
            mouseDownPos s1 = Some point -> svgRef s1 = svgRef s ->
            match draggedInfo s1 with
            | Some (i, _) => i < length (nodes s1)
            | None => True
            end ->
            forall event', exists s'', handleMouseMove event' s1 = Ok s'').
  { intros s1 Hdown Hsvg Hdrag event'. unfold handleMouseMove.
    destruct (if isPanning s1 then panStartPos s1 else None); [ eauto | ].
    rewrite Hdown. unfold getSVGCoordinates in *. rewrite Hsvg.
    destruct (svgRef s) as [rect |]; [ | discriminate ].
    set (s2 := if nlt _ _ then set_wasDragging true s1 else s1).
    assert (Hs2 : draggedInfo s2 = draggedInfo s1 /\ nodes s2 = nodes s1)
      by (unfold s2; destruct (nlt _ _); split; reflexivity).
    clearbody s2. destruct Hs2 as [Hd Hn]. rewrite Hd, Hn.
    destruct (draggedInfo s1) as [[i role] |]; [ | eauto ].
    destruct (get_in_range (nodes s1) Hdrag) as [node Hnode].
    rewrite (proj2 (dragTarget_get _ _ role _) Hnode). cbn [bind]. eauto. }
  assert (Hnone :
    exists s',
      Ok (setSelectedNodeIndex None (setDraggedInfo None s0)) = Ok s'
      /\ viewState s' = viewState s
      /\ isPathClosed s' = isPathClosed s
      /\ isSnapEnabled s' = isSnapEnabled s
      /\ length (nodes s) <= length (nodes s')
      /\ (nodes s' = nodes s /\ history s' = history s
          /\ historyIndex s' = historyIndex s
          \/ commitOf s s')
      /\ (false = false -> svgRef s <> None -> symmetryState s = inactive ->
          match draggedInfo s' with
          | Some (i, _) => i < length (nodes s') /\ selectedNodeIndex s' = Some i
          | None =>
              selectedNodeIndex s' = None /\ nodes s' = nodes s
              /\ history s' = history s
          end
          /\ forall event', exists s'', handleMouseMove event' s' = Ok s'')).
  { eexists. split; [ reflexivity | ]. cbn.
    do 4 (split; [ reflexivity || lia | ]).
    split; [ left; repeat split | ].
    intros _ _ _. split; [ repeat split | ].
    apply Hmove; cbn; auto. }
  change (symmetryState s0) with (symmetryState s).
  destruct (symmetryState s) eqn:Hsym.
  - (* inactive *)
    destruct (hitTest_scan point s0 (Nat.le_refl _)) as (hit & Hhit & Hspec).
    rewrite Hhit. cbn [bind].
    destruct hit as [[i role] |].
    + destruct Hspec as (Hi & _).
      eexists. split; [ reflexivity | ]. cbn.
      do 4 (split; [ reflexivity || lia | ]).
      split; [ left; repeat split | ].
      intros _ _ _. split; [ split; [ exact Hi | reflexivity ] | ].
      apply Hmove; cbn; auto.
    + change (nodes s0) with (nodes s).
      change (isPathClosed s0) with (isPathClosed s).
      destruct (Nat.ltb_spec 0 (length (nodes s))) as [Hpos | Hzero];
        [ | exact Hnone ].
      destruct (@insert_scan_outcome point (nodes s)
                  (if isPathClosed s then length (nodes s) else length (nodes s) - 1)
                  0 (@None (nat * num), (INSERT_THRESHOLD / zoom (viewState s0))%num))
        as (scan & Hscan & Hout).
      { destruct (isPathClosed s); lia. }
      rewrite Hscan. cbn [bind].
      destruct Hout as [Hsame | (index & t & Hsome & Hrange)].
      * cbn [fst] in Hsame. rewrite Hsame. exact Hnone.
      * rewrite Hsome.
        assert (Hindex : index < length (nodes s))
          by (destruct (isPathClosed s); lia).
        destruct (insertOnSegment_returns (nodes s) t Hindex) as (arr' & Hins & Hlen).
        rewrite Hins. cbn [bind].
        eexists. split; [ reflexivity | ].
        destruct (commit_history s0 arr' (isPathClosed s)) as (Hh & Hi & _).
        cbv zeta in Hh, Hi.
        cbn [viewState isPathClosed isSnapEnabled nodes draggedInfo
             selectedNodeIndex setDraggedInfo setSelectedNodeIndex
             updateStateAndHistory setHistoryIndex setHistory setIsPathClosed
             setNodes s0 set_wasDragging set_mouseDownPos].
        split; [ reflexivity | ]. split; [ reflexivity | ].
        split; [ reflexivity | ]. split; [ lia | ].
        split; [ right; split; [ exact Hh | exact Hi ] | ].
        intros _ _ _. split; [ split; [ lia | reflexivity ] | ].
        apply Hmove; cbn; auto. lia.
  - (* picking an edge *)
    destruct (symmetry_pick_outcome point s0)
      as [Hrun | [Hrun | (i & d & nA & nB & Hc & Hlen & _ & _ & _ & _ & Hrun)]];
      rewrite Hrun; cbn [bind]; (eexists; split; [ reflexivity | ]).
    + cbn. do 4 (split; [ reflexivity || lia | ]).
      split; [ left; repeat split | intros _ _ Habs; discriminate ].
    + cbn. do 4 (split; [ reflexivity || lia | ]).
      split; [ left; repeat split | intros _ _ Habs; discriminate ].
    + match goal with
      | |- context [updateStateAndHistory ?nn true s0] =>
          destruct (commit_history s0 nn true) as (Hh & Hi & _)
      end.
      cbv zeta in Hh, Hi.
      cbn [viewState isPathClosed isSnapEnabled nodes set_wasDragging
           setSymmetryState updateStateAndHistory setHistoryIndex setHistory
           setIsPathClosed setNodes s0 set_mouseDownPos].
      change (nodes s0) with (nodes s) in *.
      split; [ reflexivity | ]. split; [ symmetry; exact Hc | ].
      split; [ reflexivity | ].
      split; [ | split; [ right; split; [ exact Hh | exact Hi ]
                        | intros _ _ Habs; discriminate ] ].
      cbn [length]. rewrite length_app, length_map, length_rev. cbn [length].
      rewrite intermediates_length. lia.
Qed.

(** X15. A pointer-down always returns; it keeps the view, the closed flag and
    the snap flag, and removes no node. Outside panning and edge picking, and
    with a canvas element, the drag target it leaves is a node of the path,
    and that node is selected, or there is none, nothing is selected, and the
    nodes and the history are as they were; and any pointer move that follows
    returns. *)
Theorem pointer_down_completes event s :
  exists s',
    handleMouseDown event s = Ok s'
    /\ viewState s' = viewState s
    /\ isPathClosed s' = isPathClosed s
    /\ isSnapEnabled s' = isSnapEnabled s
    /\ length (nodes s) <= length (nodes s')
    /\ (isSpacePressed s = false -> svgRef s <> None ->
        symmetryState s = inactive ->
        match draggedInfo s' with
        | Some (i, _) => i < length (nodes s') /\ selectedNodeIndex s' = Some i
        | None =>
            selectedNodeIndex s' = None /\ nodes s' = nodes s
            /\ history s' = history s
        end
        /\ forall event', exists s'', handleMouseMove event' s' = Ok s'').
Proof.
  destruct (handleMouseDown_outcome event s)
    as (s' & Hrun & Hv & Hc & Hsn & Hlen & _ & Hdrag).
  exists s'. auto 10.
Qed.



(** X16. In edge-picking mode (Space not held, a canvas element, no drag target)
    a pointer-down returns with the mode inactive and [wasDragging] set, and
    with the nodes as they were or a path of twice as many nodes minus 2; the
    pointer-up that follows returns and changes neither the nodes nor the
    history nor its index: the click adds no node. *)
Theorem picking_click_is_consumed event event' s (rect : Rect num) :
  symmetryState s = picking_edge ->
  isSpacePressed s = false ->
  svgRef s = Some rect ->
  draggedInfo s = None ->
  exists s1 s2,
    handleMouseDown event s = Ok s1
    /\ symmetryState s1 = inactive
    /\ wasDragging s1 = true
    /\ (nodes s1 = nodes s \/ length (nodes s1) = 2 * length (nodes s) - 2)
    /\ handleMouseUp event' s1 = Ok s2
    /\ nodes s2 = nodes s1
    /\ history s2 = history s1
    /\ historyIndex s2 = historyIndex s1
    /\ symmetryState s2 = inactive.
Proof.
  intros Hsym Hspace Hsvg Hdrag.
  assert (Hup : forall s1 : AppState num,
            svgRef s1 = Some rect -> draggedInfo s1 = None ->
            wasDragging s1 = true ->
            exists s2,
              handleMouseUp event' s1 = Ok s2
              /\ nodes s2 = nodes s1 /\ history s2 = history s1
              /\ historyIndex s2 = historyIndex s1
              /\ symmetryState s2 = symmetryState s1).
  { intros s1 Hsvg1 Hdrag1 Hwas. unfold handleMouseUp.
    set (s1' := if isPanning s1 then set_panStartPos None (setIsPanning false s1)
                else s1).
    assert (Hf : nodes s1' = nodes s1 /\ history s1' = history s1
                 /\ historyIndex s1' = historyIndex s1
                 /\ symmetryState s1' = symmetryState s1
                 /\ svgRef s1' = svgRef s1 /\ draggedInfo s1' = draggedInfo s1
                 /\ wasDragging s1' = wasDragging s1)
      by (unfold s1'; destruct (isPanning s1); repeat split).
    clearbody s1'. destruct Hf as (F1 & F2 & F3 & F4 & F5 & F6 & F7).
    unfold getSVGCoordinates. rewrite F5, Hsvg1, F6, Hdrag1, F7, Hwas.
    cbn [negb andb bind]. eexists. split; [ reflexivity | ]. cbn. auto. }
  unfold handleMouseDown, getSVGCoordinates. rewrite Hspace, Hsvg.
  set (point := toWorld _ _).
  set (s0 := set_wasDragging false (set_mouseDownPos (Some point) s)).
  change (symmetryState s0) with (symmetryState s). rewrite Hsym.
  destruct (symmetry_pick_outcome point s0)
    as [Hrun | [Hrun | (i & d & nA & nB & Hc & Hlen & _ & _ & _ & _ & Hrun)]];
    rewrite Hrun; cbn [bind].
  - destruct (Hup (set_wasDragging true (setSymmetryState inactive s0)))
      as (s2 & H2 & A1 & A2 & A3 & A4); [ exact Hsvg | exact Hdrag | reflexivity | ].
    do 2 eexists. split; [ reflexivity | ].
    split; [ reflexivity | ]. split; [ reflexivity | ].
    split; [ left; reflexivity | ]. split; [ exact H2 | ]. auto.
  - destruct (Hup (set_wasDragging true
                     (setSymmetryState inactive (alert notStraightEdgeError s0))))
      as (s2 & H2 & A1 & A2 & A3 & A4); [ exact Hsvg | exact Hdrag | reflexivity | ].
    do 2 eexists. split; [ reflexivity | ].
    split; [ reflexivity | ]. split; [ reflexivity | ].
    split; [ left; reflexivity | ]. split; [ exact H2 | ]. auto.
  - match goal with
    | |- exists s1 s2, Ok ?st = Ok s1 /\ _ =>
        destruct (Hup st) as (s2 & H2 & A1 & A2 & A3 & A4);
          [ exact Hsvg | exact Hdrag | reflexivity | ];
        exists st, s2
    end.
    split; [ reflexivity | ]. split; [ reflexivity | ]. split; [ reflexivity | ].
    split; [ | split; [ exact H2 | auto ] ].
    right.
    cbn [nodes set_wasDragging setSymmetryState updateStateAndHistory
         setHistoryIndex setHistory setIsPathClosed setNodes].
    change (nodes s0) with (nodes s).
    cbn [length]. rewrite length_app, length_map, length_rev. cbn [length].
    rewrite intermediates_length. change (nodes s0) with (nodes s) in Hlen. lia.
Qed.

(** X17. With Space held and no drag target, a pointer-down starts panning at
    the client position of the event; the pointer-up that follows ends
    panning and leaves the nodes, the closed flag, the history, its index and
    the view as they were before the press. *)
Theorem space_click_only_pans event event' s :
  isSpacePressed s = true ->
  draggedInfo s = None ->
  exists s1 s2,
    handleMouseDown event s = Ok s1
    /\ isPanning s1 = true
    /\ panStartPos s1 = Some {| x := clientX event; y := clientY event |}
    /\ handleMouseUp event' s1 = Ok s2
    /\ isPanning s2 = false
    /\ nodes s2 = nodes s
    /\ isPathClosed s2 = isPathClosed s
    /\ history s2 = history s
    /\ historyIndex s2 = historyIndex s
    /\ viewState s2 = viewState s.
Proof.
  intros Hspace Hdrag. unfold handleMouseDown. rewrite Hspace.
  set (s1 := set_panStartPos (Some {| x := clientX event; y := clientY event |})
               (setIsPanning true s)).
  assert (Hup : exists s2,
            handleMouseUp event' s1 = Ok s2
            /\ isPanning s2 = false /\ nodes s2 = nodes s
            /\ isPathClosed s2 = isPathClosed s /\ history s2 = history s
            /\ historyIndex s2 = historyIndex s /\ viewState s2 = viewState s).
  { unfold handleMouseUp, getSVGCoordinates.
    cbn [s1 isPanning svgRef set_panStartPos setIsPanning draggedInfo wasDragging
         isSpacePressed viewState].
    rewrite Hdrag, Hspace.
    destruct (svgRef s).
    - rewrite !andb_false_r. cbn [bind].
      eexists. split; [ reflexivity | ]. repeat split.
    - eexists. split; [ reflexivity | ]. repeat split. }
  destruct Hup as (s2 & Hrun & Hrest).
  exists s1, s2. split; [ reflexivity | ].
  split; [ reflexivity | ]. split; [ reflexivity | ].
  split; [ exact Hrun | exact Hrest ].
Qed.

End PointerDown.

(** *** Clicks in binary64 *)

Section Binary64Gestures.
#[local] Existing Instance exampleMath.

(** Witness of X16: a pick near the first edge of the square. *)
Lemma picking_click_is_consumed_witness :
  let s := setSymmetryState picking_edge (squareOnCanvas (num := float)) in
  let event := {| clientX := 12.5%float; clientY := 0.25%float;
                  ctrlKey := false; deltaY := 0%float |} in
  exists s1 s2,
    handleMouseDown event s = Ok s1
    /\ handleMouseUp event s1 = Ok s2
    /\ nodes s2 = nodes s1
    /\ symmetryState s2 = inactive.
Proof.
  intros s event.
  destruct (@picking_click_is_consumed float IEEE IEEE_Infinity exampleMath
              event event s canvasAtOrigin eq_refl eq_refl eq_refl eq_refl)
    as (s1 & s2 & Hdown & _ & _ & _ & Hup & Hnodes & _ & _ & Hsym).
  exists s1, s2. auto.
Defined.

(** Witness of X17: a click on the square with Space held. *)
Lemma space_click_only_pans_witness :
  let s := setIsSpacePressed true (squareOnCanvas (num := float)) in
  let event := {| clientX := 12.5%float; clientY := 0.25%float;
                  ctrlKey := false; deltaY := 0%float |} in
  exists s1 s2,
    handleMouseDown event s = Ok s1
    /\ isPanning s1 = true
    /\ handleMouseUp event s1 = Ok s2
    /\ nodes s2 = squareOf.
Proof.
  intros s event.
  destruct (@space_click_only_pans float IEEE IEEE_Infinity exampleMath
              event event s eq_refl eq_refl)
    as (s1 & s2 & Hdown & Hpan & _ & Hup & _ & Hnodes & _).
  exists s1, s2. auto.
Defined.

End Binary64Gestures.

(** ** Insertion by a click on the path *)

Section NearestSegment.
Context {num : Type} {N : Number num} {I : Infinite num}.
Hypothesis nlt_trans :
  forall a b c : num, nlt a b = true -> nlt b c = true -> nlt a c = true.
Hypothesis nlt_irrefl : forall a : num, nlt a a = false.
Implicit Types (point : Point num) (arr : list (Node num)).



End NearestSegment.



(** ** The drag step *)

Section DragStep.
Context {num : Type} {N : Number num} {M : MathLib num}.
Implicit Types (s : AppState num) (event : MouseEvent num).

(** A pointer move with a drag target replaces the target node. *)
Lemma handleMouseMove_drags event s (down point : Point num) (index : nat)
    (role : DragType) (node : Node num) :
  isPanning s = false ->
  mouseDownPos s = Some down ->
  getSVGCoordinates event s = Some point ->
  draggedInfo s = Some (index, role) ->
  get (nodes s) index = Ok node ->
  exists s1,
    nodes s1 = nodes s
    /\ handleMouseMove event s
       = Ok (setNodes
               (update (nodes s) index
                  (dragNode role {| x := snap s (x point); y := snap s (y point) |}
                     node)) s1).
Proof.
  intros Hpan Hdown Hpoint Hdrag Hnode.
  unfold handleMouseMove. rewrite Hpan, Hdown, Hpoint.
  set (s1 := if nlt _ _ then set_wasDragging true s else s).
  assert (Hs1 : draggedInfo s1 = draggedInfo s /\ nodes s1 = nodes s
                /\ snap s1 = snap s).
  { unfold s1. destruct (nlt _ _); repeat split; reflexivity. }
  destruct Hs1 as (Hd1 & Hn1 & Hsn1).
  rewrite Hd1, Hdrag. cbv beta iota.
  rewrite Hn1, (proj2 (dragTarget_get _ _ role _) Hnode), Hsn1. cbn [bind].
  exists s1. split; [ exact Hn1 | reflexivity ].
Qed.

End DragStep.

(** ** Drags, panning, snapping and centring over the reals *)

Section RealHandlers.
Local Open Scope R_scope.

(** X19. Over the reals, a pointer move while an anchor, or a handle of a Corner
    node, is dragged returns; the node keeps its type, no other node changes
    and the history is untouched. A dragged anchor is at the (snapped) pointer
    position and both handles keep their offset from it; a dragged handle of a
    Corner node is at the (snapped) pointer position, and the anchor and the
    other handle stay. *)
Theorem drag_moves_anchor_rigidly_and_corner_handle_alone (event : MouseEvent R)
    (s : AppState R) (down point : Point R) (index : nat) (role : DragType)
    (node : Node R) :
  isPanning s = false ->
  mouseDownPos s = Some down ->
  getSVGCoordinates event s = Some point ->
  draggedInfo s = Some (index, role) ->
  get (nodes s) index = Ok node ->
  role = drag_anchor \/ type node = corner ->
  let p := {| x := snap s (x point); y := snap s (y point) |} in
  exists s' node',
    handleMouseMove event s = Ok s'
    /\ get (nodes s') index = Ok node'
    /\ type node' = type node
    /\ (forall j, j <> index -> nth_error (nodes s') j = nth_error (nodes s) j)
    /\ history s' = history s
    /\ (role = drag_anchor ->
        anchor node' = p
        /\ x (ctrl1 node') - x (anchor node') = x (ctrl1 node) - x (anchor node)
        /\ y (ctrl1 node') - y (anchor node') = y (ctrl1 node) - y (anchor node)
        /\ x (ctrl2 node') - x (anchor node') = x (ctrl2 node) - x (anchor node)
        /\ y (ctrl2 node') - y (anchor node') = y (ctrl2 node) - y (anchor node))
    /\ (role = drag_ctrl1 ->
        ctrl1 node' = p /\ anchor node' = anchor node /\ ctrl2 node' = ctrl2 node)
    /\ (role = drag_ctrl2 ->
        ctrl2 node' = p /\ anchor node' = anchor node /\ ctrl1 node' = ctrl1 node).
Proof.
  intros Hpan Hdown Hpoint Hdrag Hnode Hcase p.
  destruct (handleMouseMove_drags event s Hpan Hdown Hpoint Hdrag Hnode)
    as (s1 & Hn1 & Hrun).
  fold p in Hrun.
  destruct (handleMouseMove_frame _ _ Hrun) as (Hhist & _).
  eexists. exists (dragNode role p node).
  split; [ exact Hrun | ].
  cbn [nodes setNodes].
  split.
  { apply get_nth_error, nth_error_update_same. eapply get_length, Hnode. }
  split; [ apply dragNode_type | ].
  split; [ intros j Hj; apply nth_error_update_other; auto | ].
  split; [ exact Hhist | ].
  destruct role.
  - split; [ | split; discriminate ].
    intros _. cbn [dragNode anchor ctrl1 ctrl2 type x y]. real_ops.
    split; [ reflexivity | ]. repeat split; ring.
  - destruct Hcase as [Habs | Hcorner]; [ discriminate | ].
    destruct node as [a c1 c2 k]. cbn [type] in Hcorner. subst k.
    split; [ discriminate | ]. split; [ | discriminate ].
    intros _. cbn. auto.
  - destruct Hcase as [Habs | Hcorner]; [ discriminate | ].
    destruct node as [a c1 c2 k]. cbn [type] in Hcorner. subst k.
    split; [ discriminate | ]. split; [ discriminate | ].
    intros _. cbn. auto.
Qed.

(** X20. Over the reals and for a zoom other than 0, a pointer move while
    panning returns; it adds the displacement of the pointer since the
    recorded position to the pan, keeps the zoom, the nodes and the history,
    records the new position, and the world point under the pointer is the
    one that was under the recorded position. *)
Theorem pan_keeps_grabbed_point (event : MouseEvent R) (s : AppState R)
    (start : Point R) (rect : Rect R) :
  isPanning s = true ->
  panStartPos s = Some start ->
  svgRef s = Some rect ->
  zoom (viewState s) <> 0 ->
  exists s',
    handleMouseMove event s = Ok s'
    /\ nodes s' = nodes s
    /\ history s' = history s
    /\ zoom (viewState s') = zoom (viewState s)
    /\ x (pan (viewState s')) = x (pan (viewState s)) + (clientX event - x start)
    /\ y (pan (viewState s')) = y (pan (viewState s)) + (clientY event - y start)
    /\ panStartPos s' = Some {| x := clientX event; y := clientY event |}
    /\ getSVGCoordinates event s'
       = Some (toWorld {| x := x start - rect_left rect;
                          y := y start - rect_top rect |} (viewState s)).
Proof.
  intros Hpan Hstart Hsvg Hzoom.
  unfold handleMouseMove. rewrite Hpan, Hstart.
  eexists. split; [ reflexivity | ].
  unfold getSVGCoordinates.
  cbn [nodes history viewState panStartPos svgRef set_panStartPos setViewState
       zoom pan x y].
  rewrite Hsvg. real_ops.
  do 6 (split; [ reflexivity | ]).
  f_equal. unfold toWorld. cbn [zoom pan x y]. real_ops.
  f_equal; field; exact Hzoom.
Qed.

(** X21. Over the reals: with snapping off, [snap] returns its argument; with
    snapping on, it returns an integer multiple of [SNAP_GRID_SIZE] at most
    half a grid step from its argument, and a snapped value snaps to
    itself. *)
Theorem snap_rounds_to_grid (s : AppState R) (value : R) :
  (isSnapEnabled s = false -> snap s value = value)
  /\ (isSnapEnabled s = true ->
      (exists k : Z, snap s value = IZR k * SNAP_GRID_SIZE)
      /\ Rabs (snap s value - value) <= SNAP_GRID_SIZE / 2
      /\ snap s (snap s value) = snap s value).
Proof.
  unfold snap, SNAP_GRID_SIZE. real_ops. split; intros ->; [ reflexivity | ].
  set (k := Int_part (value / 10 + / 2)).
  destruct (base_Int_part (value / 10 + / 2)) as [Hlo Hhi]. fold k in Hlo, Hhi.
  split; [ exists k; reflexivity | ].
  split.
  - apply Rabs_le. lra.
  - f_equal. f_equal. symmetry. apply Int_part_spec. lra.
Qed.

(** X22. Over the reals, with a canvas element and a zoom other than 0, the mount
    effect keeps the zoom, the nodes and the history, and sets the pan so that
    the world point in the middle of the client area is the centre of the
    canvas. *)
Theorem mount_centres_canvas (clientWidth clientHeight : R) (s : AppState R)
    (rect : Rect R) :
  svgRef s = Some rect ->
  zoom (viewState s) <> 0 ->
  let s' := mountEffect clientWidth clientHeight s in
  zoom (viewState s') = zoom (viewState s)
  /\ nodes s' = nodes s
  /\ history s' = history s
  /\ toWorld {| x := clientWidth / 2; y := clientHeight / 2 |} (viewState s')
     = {| x := CANVAS_WIDTH / 2; y := CANVAS_HEIGHT / 2 |}.
Proof.
  intros Hsvg Hzoom s'. unfold s', mountEffect. rewrite Hsvg.
  cbn [viewState setViewState zoom nodes history].
  do 3 (split; [ reflexivity | ]).
  unfold toWorld, CANVAS_WIDTH, CANVAS_HEIGHT. cbn [zoom pan x y]. real_ops.
  f_equal; field; exact Hzoom.
Qed.

End RealHandlers.

(** ** Joints, grid and zoom limits *)

Section RealJoints.
Local Open Scope R_scope.

Lemma isStraight_on_chord (pA pB : Point R) (a b : R) :
  isStraight pA pB
    {| x := x pA + a * (x pB - x pA); y := y pA + a * (y pB - y pA) |}
    {| x := x pB - b * (x pB - x pA); y := y pB - b * (y pB - y pA) |} = true.
Proof.
  apply isStraight_tolerance. unfold cross. cbn [x y]. real_ops.
  split.
  - replace ((x pB - x pA) * (y pA + a * (y pB - y pA) - y pA)
             - (y pB - y pA) * (x pA + a * (x pB - x pA) - x pA)) with 0 by ring.
    rewrite Rabs_R0. lra.
  - replace ((x pB - x pA) * (y pB - b * (y pB - y pA) - y pA)
             - (y pB - y pA) * (x pB - b * (x pB - x pA) - x pA)) with 0 by ring.
    rewrite Rabs_R0. lra.
Qed.

(** X23. Over the reals, after an append onto a non-empty path the new last
    segment runs from the previous anchor to the new one with both of its
    handles on the chord (zero cross products), so it passes the straightness
    test of the symmetry tool. *)
Theorem appended_edge_is_straight (p : Point R) (s : AppState R)
    (prevNode : Node R) :
  get (nodes s) (length (nodes s) - 1) = Ok prevNode ->
  exists s' ctrlA ctrlB,
    appendNode p s = Ok s'
    /\ segment (nodes s') (length (nodes s) - 1)
       = Ok (anchor prevNode, ctrlA, ctrlB, p)
    /\ cross (anchor prevNode) p ctrlA = 0
    /\ cross (anchor prevNode) p ctrlB = 0
    /\ isStraight (anchor prevNode) p ctrlA ctrlB = true.
Proof.
  intros Hprev.
  pose proof (get_length _ _ Hprev) as Hlen.
  destruct (smoothJoint_real prevNode (newCornerNode p)) as (Hu & Hj & _).
  cbv zeta in Hu, Hj. cbn [newCornerNode anchor] in Hu, Hj.
  set (n := length (nodes s)) in *.
  assert (Hrun : appendNode p s
                 = Ok (setSelectedNodeIndex
                         (Some (length (update (nodes s) (n - 1)
                                   (fst (smoothJoint prevNode (newCornerNode p)))
                                 ++ [snd (smoothJoint prevNode (newCornerNode p))])
                                - 1)%nat)
                         (updateStateAndHistory
                            (update (nodes s) (n - 1)
                               (fst (smoothJoint prevNode (newCornerNode p)))
                             ++ [snd (smoothJoint prevNode (newCornerNode p))])
                            (isPathClosed s) s))).
  { unfold appendNode. fold n.
    destruct (Nat.ltb_spec 0 n); [ | lia ].
    rewrite Hprev. cbn [bind].
    destruct (smoothJoint prevNode (newCornerNode p)). reflexivity. }
  rewrite Hrun. do 3 eexists. split; [ reflexivity | ].
  cbn [nodes setSelectedNodeIndex updateStateAndHistory setHistoryIndex setHistory
       setIsPathClosed setNodes].
  assert (Hseg : segment
            (update (nodes s) (n - 1) (fst (smoothJoint prevNode (newCornerNode p)))
             ++ [snd (smoothJoint prevNode (newCornerNode p))]) (n - 1)
          = Ok (anchor prevNode,
                {| x := x (anchor prevNode) + 25 / 100 * (x p - x (anchor prevNode));
                   y := y (anchor prevNode) + 25 / 100 * (y p - y (anchor prevNode)) |},
                {| x := x p - 25 / 100 * (x p - x (anchor prevNode));
                   y := y p - 25 / 100 * (y p - y (anchor prevNode)) |},
                p)).
  { unfold segment, get.
    rewrite length_app, update_length. cbn [length]. fold n.
    replace ((n - 1 + 1) mod (n + 1))%nat with n
      by (replace (n - 1 + 1)%nat with n by lia; rewrite Nat.mod_small; lia).
    rewrite nth_error_app1 by (rewrite update_length; fold n; lia).
    rewrite nth_error_update_same by (fold n; lia).
    rewrite nth_error_app2 by (rewrite update_length; fold n; lia).
    rewrite update_length. fold n. rewrite Nat.sub_diag.
    cbn [nth_error bind]. rewrite Hu, Hj. reflexivity. }
  split; [ exact Hseg | ].
  split; [ unfold cross; cbn [x y]; real_ops; ring | ].
  split; [ unfold cross; cbn [x y]; real_ops; ring | ].
  apply (isStraight_on_chord (anchor prevNode) p (25 / 100) (25 / 100)).
Qed.

(** X24. Over the reals, closing an open path of at least 2 nodes returns with
    the path closed; the first node's incoming handle is at
    [first - SMOOTHING_FACTOR * (first - last)], the last node's outgoing
    handle at [last + SMOOTHING_FACTOR * (first - last)], and nothing else
    changes; the closing segment passes the straightness test; and the
    history is cut after the entry at the index of before and gets this path,
    closed, as its new last entry, to which the index moves. *)
Theorem closing_smooths_the_closing_joint (s : AppState R)
    (firstNode lastNode : Node R) :
  isPathClosed s = false ->
  (2 <= length (nodes s))%nat ->
  get (nodes s) 0 = Ok firstNode ->
  get (nodes s) (length (nodes s) - 1) = Ok lastNode ->
  let dx := x (anchor firstNode) - x (anchor lastNode) in
  let dy := y (anchor firstNode) - y (anchor lastNode) in
  let first' := set_ctrl1 {| x := x (anchor firstNode) - SMOOTHING_FACTOR * dx;
                             y := y (anchor firstNode) - SMOOTHING_FACTOR * dy |}
                  firstNode in
  let last' := set_ctrl2 {| x := x (anchor lastNode) + SMOOTHING_FACTOR * dx;
                            y := y (anchor lastNode) + SMOOTHING_FACTOR * dy |}
                 lastNode in
  exists s',
    toggleClosePath s = Ok s'
    /\ isPathClosed s' = true
    /\ nodes s' = update (update (nodes s) 0 first') (length (nodes s) - 1) last'
    /\ segment (nodes s') (length (nodes s) - 1)
       = Ok (anchor lastNode, ctrl2 last', ctrl1 first', anchor firstNode)
    /\ isStraight (anchor lastNode) (anchor firstNode) (ctrl2 last') (ctrl1 first')
       = true
    /\ commitOf s s'.
Proof.
  intros Hopen Hlen Hfirst Hlast dx dy first' last'.
  destruct (smoothJoint_real lastNode firstNode) as (Hu & Hj & _).
  cbv zeta in Hu, Hj.
  assert (Hrun : toggleClosePath s
                 = Ok (updateStateAndHistory
                         (update (update (nodes s) 0
                                    (snd (smoothJoint lastNode firstNode)))
                            (length (nodes s) - 1)
                            (fst (smoothJoint lastNode firstNode)))
                         true s)).
  { unfold toggleClosePath. rewrite Hopen. cbn [negb andb].
    destruct (Nat.leb_spec 2 (length (nodes s))); [ | lia ].
    rewrite Hfirst, Hlast. reflexivity. }
  rewrite Hu, Hj in Hrun.
  assert (Hf : set_ctrl1
                 {| x := x (anchor firstNode)
                         - 25 / 100 * (x (anchor firstNode) - x (anchor lastNode));
                    y := y (anchor firstNode)
                         - 25 / 100 * (y (anchor firstNode) - y (anchor lastNode)) |}
                 firstNode = first') by reflexivity.
  assert (Hl : set_ctrl2
                 {| x := x (anchor lastNode)
                         + 25 / 100 * (x (anchor firstNode) - x (anchor lastNode));
                    y := y (anchor lastNode)
                         + 25 / 100 * (y (anchor firstNode) - y (anchor lastNode)) |}
                 lastNode = last') by reflexivity.
  rewrite Hf, Hl in Hrun.
  eexists. split; [ exact Hrun | ].
  destruct (commit_history s
              (update (update (nodes s) 0 first') (length (nodes s) - 1) last') true)
    as (_ & Hi & Hn & Hc).
  cbv zeta in Hi, Hn, Hc. rewrite Hn.
  split; [ exact Hc | ]. split; [ reflexivity | ].
  split.
  { unfold segment, get. rewrite !update_length.
    replace ((length (nodes s) - 1 + 1) mod length (nodes s))%nat with 0%nat
      by (replace (length (nodes s) - 1 + 1)%nat with (length (nodes s)) by lia;
          rewrite Nat.Div0.mod_same; reflexivity).
    rewrite nth_error_update_same by (rewrite update_length; lia).
    rewrite nth_error_update_other by lia.
    rewrite nth_error_update_same by lia.
    reflexivity. }
  split; [ | apply commitOf_commit ].
  unfold first', last', SMOOTHING_FACTOR. cbn [set_ctrl1 set_ctrl2 ctrl1 ctrl2].
  real_ops.
  apply (isStraight_on_chord (anchor lastNode) (anchor firstNode) (25 / 100) (25 / 100)).
Qed.

(** X25. Over the reals and for a zoom in [[MIN_ZOOM, MAX_ZOOM]], the two loops
    of [GridLines] end within two rounds each; the major grid size is 20,
    100, 500 or 2500, its spacing on screen [majorGridSize * zoom] is in
    [[60, 300]], and the minor grid size is a fifth of it. *)
Theorem grid_spacing_within_view (zoom : R) :
  MIN_ZOOM <= zoom <= MAX_ZOOM ->
  exists majorGridSize,
    gridSizes 2 zoom = Ok (majorGridSize, majorGridSize / 5)
    /\ 60 <= majorGridSize * zoom <= 300
    /\ (majorGridSize = 20 \/ majorGridSize = 100 \/ majorGridSize = 500
        \/ majorGridSize = 2500).
Proof.
  unfold MIN_ZOOM, MAX_ZOOM. real_ops. intros [Hlo Hhi].
  unfold gridSizes. cbn [growGrid shrinkGrid]. real_ops.
  destruct (Rltb (100 * zoom) 60) eqn:E1.
  - apply Rltb_true in E1.
    destruct (Rltb (100 * 5 * zoom) 60) eqn:E2.
    + apply Rltb_true in E2.
      assert (E3 : Rltb (100 * 5 * 5 * zoom) 60 = false) by (apply Rltb_false; lra).
      rewrite E3. cbn [bind].
      assert (E4 : Rltb 300 (100 * 5 * 5 * zoom) = false) by (apply Rltb_false; lra).
      rewrite E4. cbn [bind].
      exists (100 * 5 * 5). split; [ reflexivity | ]. split; [ lra | ].
      right. right. right. ring.
    + apply Rltb_false in E2. cbn [bind].
      assert (E4 : Rltb 300 (100 * 5 * zoom) = false) by (apply Rltb_false; lra).
      rewrite E4. cbn [bind].
      exists (100 * 5). split; [ reflexivity | ]. split; [ lra | ].
      right. right. left. ring.
  - apply Rltb_false in E1. cbn [bind].
    destruct (Rltb 300 (100 * zoom)) eqn:E2.
    + apply Rltb_true in E2.
      assert (E4 : Rltb 300 (100 / 5 * zoom) = false) by (apply Rltb_false; lra).
      rewrite E4. cbn [bind].
      exists (100 / 5). split; [ reflexivity | ]. split; [ lra | ].
      left. field.
    + apply Rltb_false in E2. cbn [bind].
      exists 100. split; [ reflexivity | ]. split; [ lra | ].
      right. left. reflexivity.
Qed.

End RealJoints.

(** X26. In binary64, a wheel event that zooms in at [zoom = MAX_ZOOM], and one
    that zooms out at [zoom = MIN_ZOOM], leave the state as it is. *)
Theorem wheel_at_zoom_limit_is_ignored (event : MouseEvent float)
    (s : AppState float) :
  (zoom (viewState s) = MAX_ZOOM -> PrimFloat.ltb (deltaY event) 0 = true ->
   handleWheel event s = s)
  /\ (zoom (viewState s) = MIN_ZOOM -> PrimFloat.ltb (deltaY event) 0 = false ->
      handleWheel event s = s).
Proof.
  split; intros Hzoom Hdelta; unfold handleWheel;
    destruct (svgRef s); try reflexivity;
    change (nlt (deltaY event) (#0)%num) with (PrimFloat.ltb (deltaY event) 0);
    rewrite Hdelta, Hzoom.
  - replace (neq (Math_max MIN_ZOOM (Math_min MAX_ZOOM (MAX_ZOOM * (#11 / #10))%num))
               MAX_ZOOM) with true by (vm_compute; reflexivity).
    reflexivity.
  - replace (neq (Math_max MIN_ZOOM (Math_min MAX_ZOOM (MIN_ZOOM / (#11 / #10))%num))
               MIN_ZOOM) with true by (vm_compute; reflexivity).
    reflexivity.
Qed.

(** *** Instances of the statements over the reals *)

(** Witness of X19: a Corner node at the origin, dragged by its anchor and
    by its incoming handle. *)
Lemma drag_moves_anchor_rigidly_and_corner_handle_alone_witness :
  let node := newCornerNode {| x := 0%R; y := 0%R |} in
  let s := fun role =>
             setDraggedInfo (Some (0, role))
               (set_mouseDownPos (Some {| x := 0%R; y := 0%R |})
                  (setNodes [node] (initialState (Some canvasAtOrigin)))) in
  let event := {| clientX := 10%R; clientY := 20%R; ctrlKey := false;
                  deltaY := 0%R |} in
  (exists (s' : AppState R) (node' : Node R),
     handleMouseMove event (s drag_anchor) = Ok s'
     /\ get (nodes s') 0 = Ok node'
     /\ (x (ctrl1 node') - x (anchor node') = x (ctrl1 node) - x (anchor node))%R)
  /\ (exists (s' : AppState R) (node' : Node R),
        handleMouseMove event (s drag_ctrl1) = Ok s'
        /\ get (nodes s') 0 = Ok node'
        /\ ctrl2 node' = ctrl2 node).
Proof.
  intros node s event. split.
  - destruct (@drag_moves_anchor_rigidly_and_corner_handle_alone event
                (s drag_anchor) {| x := 0%R; y := 0%R |} _ 0 drag_anchor node
                eq_refl eq_refl eq_refl eq_refl eq_refl (or_introl eq_refl))
      as (s' & node' & Hrun & Hget & _ & _ & _ & Ha & _).
    exists s', node'. split; [ exact Hrun | ]. split; [ exact Hget | ].
    apply (Ha eq_refl).
  - destruct (@drag_moves_anchor_rigidly_and_corner_handle_alone event
                (s drag_ctrl1) {| x := 0%R; y := 0%R |} _ 0 drag_ctrl1 node
                eq_refl eq_refl eq_refl eq_refl eq_refl (or_intror eq_refl))
      as (s' & node' & Hrun & Hget & _ & _ & _ & _ & H1 & _).
    exists s', node'. split; [ exact Hrun | ]. split; [ exact Hget | ].
    apply (H1 eq_refl).
Defined.

(** Witness of X20: a pan from client point [(5,5)] to [(10,20)] on the
    initial view. *)
Lemma pan_keeps_grabbed_point_witness :
  let s := set_panStartPos (Some {| x := 5%R; y := 5%R |})
             (setIsPanning true (initialState (Some canvasAtOrigin))) in
  let event := {| clientX := 10%R; clientY := 20%R; ctrlKey := false;
                  deltaY := 0%R |} in
  exists s' : AppState R,
    handleMouseMove event s = Ok s'
    /\ x (pan (viewState s')) = (x (pan (viewState s)) + (10 - 5))%R.
Proof.
  intros s event.
  assert (Hzoom : zoom (viewState s) <> 0%R).
  { unfold s. cbn [initialState viewState initialView zoom set_panStartPos
                   setIsPanning]. real_ops. lra. }
  destruct (@pan_keeps_grabbed_point event s {| x := 5%R; y := 5%R |}
              canvasAtOrigin eq_refl eq_refl eq_refl Hzoom)
    as (s' & Hrun & _ & _ & _ & Hx & _).
  exists s'. auto.
Defined.

(** Witness of X22: a client area of 800 by 600. *)
Lemma mount_centres_canvas_witness :
  toWorld {| x := (800 / 2)%R; y := (600 / 2)%R |}
    (viewState (mountEffect 800%R 600%R (initialState (Some canvasAtOrigin))))
  = {| x := (CANVAS_WIDTH / 2)%R; y := (CANVAS_HEIGHT / 2)%R |}.
Proof.
  assert (Hzoom : zoom (viewState (initialState (num := R) (Some canvasAtOrigin)))
                  <> 0%R).
  { cbn [initialState viewState initialView zoom]. real_ops. lra. }
  exact (proj2 (proj2 (proj2
           (@mount_centres_canvas 800%R 600%R (initialState (Some canvasAtOrigin))
              canvasAtOrigin eq_refl Hzoom)))).
Defined.

(** Witness of X23: a second click at [(100,0)] after a first node at the
    origin. *)
Lemma appended_edge_is_straight_witness :
  exists (s' : AppState R) (ctrlA ctrlB : Point R),
    appendNode {| x := 100%R; y := 0%R |}
      (setNodes [newCornerNode {| x := 0%R; y := 0%R |}] (initialState None))
    = Ok s'
    /\ isStraight {| x := 0%R; y := 0%R |} {| x := 100%R; y := 0%R |} ctrlA ctrlB
       = true.
Proof.
  destruct (@appended_edge_is_straight {| x := 100%R; y := 0%R |}
              (setNodes [newCornerNode {| x := 0%R; y := 0%R |}] (initialState None))
              (newCornerNode {| x := 0%R; y := 0%R |}) eq_refl)
    as (s' & ctrlA & ctrlB & Hrun & _ & _ & _ & Hstraight).
  exists s', ctrlA, ctrlB. split; [ exact Hrun | exact Hstraight ].
Defined.

(** Witness of X24: an open triangle. *)
Lemma closing_smooths_the_closing_joint_witness :
  exists s' : AppState R,
    toggleClosePath
      (setNodes (map newCornerNode
                   [ {| x := 0%R; y := 0%R |}; {| x := 100%R; y := 0%R |};
                     {| x := 0%R; y := 100%R |} ]) (initialState None)) = Ok s'
    /\ isPathClosed s' = true.
Proof.
  destruct (@closing_smooths_the_closing_joint
              (setNodes (map newCornerNode
                           [ {| x := 0%R; y := 0%R |}; {| x := 100%R; y := 0%R |};
                             {| x := 0%R; y := 100%R |} ]) (initialState None))
              (newCornerNode {| x := 0%R; y := 0%R |})
              (newCornerNode {| x := 0%R; y := 100%R |})
              eq_refl ltac:(cbn; lia) eq_refl eq_refl)
    as (s' & Hrun & Hclosed & _).
  exists s'. split; [ exact Hrun | exact Hclosed ].
Defined.

(** Witness of X25: the initial zoom, 0.25. *)
Lemma grid_spacing_within_view_witness :
  exists majorGridSize : R,
    gridSizes 2 (25 / 100)%R = Ok (majorGridSize, (majorGridSize / 5)%R)
    /\ (60 <= majorGridSize * (25 / 100) <= 300)%R.
Proof.
  destruct (@grid_spacing_within_view (25 / 100)%R) as (g & Hrun & Hrange & _).
  - unfold MIN_ZOOM, MAX_ZOOM. real_ops. lra.
  - exists g. split; [ exact Hrun | exact Hrange ].
Defined.

(** ** Deleting a node *)

Lemma removeAt_length {A : Type} (k : nat) (arr : list A) :
  length (removeAt k arr)
  = if (k <? length arr)%nat then length arr - 1 else length arr.
Proof.
  revert k. induction arr as [| a rest IH]; intros [| k]; cbn [removeAt length];
    try reflexivity.
  - cbn. lia.
  - rewrite IH. change (S k <? S (length rest))%nat with (k <? length rest)%nat.
    destruct (Nat.ltb_spec k (length rest)); lia.
Qed.

Lemma removeAt_before {A : Type} (k : nat) (arr : list A) (j : nat) :
  j < k -> nth_error (removeAt k arr) j = nth_error arr j.
Proof.
  revert k j. induction arr as [| a rest IH]; intros [| k] [| j] Hj;
    cbn [removeAt nth_error]; try reflexivity; try lia.
  apply IH. lia.
Qed.

Lemma removeAt_after {A : Type} (k : nat) (arr : list A) (j : nat) :
  k <= j -> nth_error (removeAt k arr) j = nth_error arr (S j).
Proof.
  revert k j. induction arr as [| a rest IH]; intros [| k] [| j] Hj;
    cbn [removeAt nth_error]; try reflexivity; try lia.
  apply IH. lia.
Qed.

Lemma deleteSelectedNode_commits {num : Type} (s : AppState num) (k : nat) :
  selectedNodeIndex s = Some k ->
  let s' := deleteSelectedNode s in
  nodes s' = removeAt k (nodes s)
  /\ selectedNodeIndex s' = None
  /\ isPathClosed s' = isPathClosed s && (3 <=? length (nodes s'))%nat
  /\ commitOf s s'.
Proof.
  intros Hsel s'. unfold s', deleteSelectedNode. rewrite Hsel.
  set (newNodes := removeAt k (nodes s)).
  set (closed := if (length newNodes <? 3)%nat then false else isPathClosed s).
  destruct (commit_history s newNodes closed) as (Hh & Hi & Hn & Hc).
  cbv zeta in Hh, Hi, Hn, Hc.
  unfold commitOf.
  cbn [nodes selectedNodeIndex isPathClosed history historyIndex
       setSelectedNodeIndex].
  rewrite Hn, Hc, Hh. rewrite Hh in Hi.
  split; [ reflexivity | ]. split; [ reflexivity | ].
  split; [ | split; [ reflexivity | exact Hi ] ].
  unfold closed.
  destruct (Nat.ltb_spec (length newNodes) 3), (Nat.leb_spec 3 (length newNodes));
    try lia; rewrite ?andb_false_r, ?andb_true_r; reflexivity.
Qed.

(** X27. With node [k] selected, deleting commits the path without node [k]: the
    nodes below [k] keep their index and those above move down by one (the
    nodes are unchanged when [k] is past the end); the selection is cleared,
    and the path stays closed only if it was closed and still has at least 3
    nodes. *)
Theorem delete_removes_selected_node {num : Type} (s : AppState num) (k : nat) :
  selectedNodeIndex s = Some k ->
  let s' := deleteSelectedNode s in
  length (nodes s')
  = (if (k <? length (nodes s))%nat then length (nodes s) - 1 else length (nodes s))
  /\ (forall j, j < k -> nth_error (nodes s') j = nth_error (nodes s) j)
  /\ (forall j, k <= j -> nth_error (nodes s') j = nth_error (nodes s) (S j))
  /\ selectedNodeIndex s' = None
  /\ isPathClosed s' = isPathClosed s && (3 <=? length (nodes s'))%nat
  /\ commitOf s s'.
Proof.
  intros Hsel s'.
  destruct (deleteSelectedNode_commits s Hsel) as (Hn & Hs & Hc & Hcommit).
  fold s' in Hn, Hs, Hc, Hcommit. rewrite Hn.
  split; [ apply removeAt_length | ].
  split; [ intros j Hj; apply removeAt_before, Hj | ].
  split; [ intros j Hj; apply removeAt_after, Hj | ].
  split; [ exact Hs | ]. split; [ rewrite <- Hn; exact Hc | exact Hcommit ].
Qed.

(** Witness of X27: two deletions on the closed square; the path opens when
    it is down to 2 nodes. *)
Lemma delete_removes_selected_node_witness :
  let s := setSelectedNodeIndex (Some 1) (closedPath (squareOf (num := float))) in
  length (nodes (deleteSelectedNode s)) = 3
  /\ isPathClosed (deleteSelectedNode s) = true
  /\ length (nodes (deleteSelectedNode
                      (setSelectedNodeIndex (Some 0) (deleteSelectedNode s)))) = 2
  /\ isPathClosed (deleteSelectedNode
                     (setSelectedNodeIndex (Some 0) (deleteSelectedNode s))) = false.
Proof.
  intros s.
  destruct (@delete_removes_selected_node float s 1 eq_refl)
    as (Hlen & _ & _ & _ & Hclosed & _).
  destruct (@delete_removes_selected_node float
              (setSelectedNodeIndex (Some 0) (deleteSelectedNode s)) 0 eq_refl)
    as (Hlen' & _ & _ & _ & Hclosed' & _).
  split; [ exact Hlen | ]. split; [ rewrite Hclosed; reflexivity | ].
  split; [ exact Hlen' | rewrite Hclosed'; reflexivity ].
Defined.

(** ** What every session keeps *)

Section WellFormed.
Context {num : Type}.
Implicit Types s : AppState num.

Lemma wellFormed_same s s' :
  length (nodes s') = length (nodes s) ->
  isPathClosed s' = isPathClosed s ->
  history s' = history s -> historyIndex s' = historyIndex s ->
  wellFormed s -> wellFormed s'.
Proof.
  unfold wellFormed. intros -> -> -> ->. auto.
Qed.

Lemma Forall_firstn_keeps {A : Type} (P : A -> Prop) (n : nat) (l : list A) :
  Forall P l -> Forall P (firstn n l).
Proof.
  intros H. revert n. induction H as [| a l Ha Hl IH]; intros [| n]; cbn;
    constructor; auto.
Qed.

Lemma wellFormed_commit s s' :
  commitOf s s' ->
  (isPathClosed s' = true -> 3 <= length (nodes s')) ->
  wellFormed s -> wellFormed s'.
Proof.
  unfold wellFormed, commitOf. intros [Hh Hi] Hclosed (_ & _ & Hall).
  rewrite Hi, Hh.
  split; [ rewrite length_app; cbn [length]; lia | ].
  split; [ exact Hclosed | ].
  apply Forall_app. split; [ apply Forall_firstn_keeps, Hall | ].
  constructor; [ exact Hclosed | constructor ].
Qed.

Lemma wellFormed_restore s (k : nat) :
  k < length (history s) -> wellFormed s -> wellFormed (restore k s).
Proof.
  intros Hk (Hi & Hc & Hall).
  destruct (nth_error (history s) k) as [e |] eqn:E;
    [ | apply nth_error_None in E; lia ].
  destruct (restore_fields s k E) as (Rn & Rc & Ri & Rh).
  unfold wellFormed. rewrite Rn, Rc, Ri, Rh.
  split; [ exact Hk | ]. split; [ | exact Hall ].
  rewrite Forall_forall in Hall. apply Hall. eapply nth_error_In, E.
Qed.

Lemma wellFormed_undo s :
  wellFormed s -> exists s', undo s = Ok s' /\ wellFormed s'.
Proof.
  intros Hwf. pose proof Hwf as (Hi & _).
  destruct (Nat.eq_dec (historyIndex s) 0) as [Hz | Hpos].
  - exists s. split; [ apply undo_at_first, Hz | exact Hwf ].
  - eexists. split; [ apply undo_restore; lia | ].
    apply wellFormed_restore; [ lia | exact Hwf ].
Qed.

Lemma wellFormed_redo s :
  wellFormed s -> exists s', redo s = Ok s' /\ wellFormed s'.
Proof.
  intros Hwf. pose proof Hwf as (Hi & _).
  destruct (Nat.eq_dec (historyIndex s) (length (history s) - 1)) as [Hz | Hpos].
  - exists s. split; [ apply redo_at_last, Hz | exact Hwf ].
  - eexists. split; [ apply redo_restore; lia | ].
    apply wellFormed_restore; [ lia | exact Hwf ].
Qed.

Lemma wellFormed_delete s : wellFormed s -> wellFormed (deleteSelectedNode s).
Proof.
  intros Hwf. destruct (selectedNodeIndex s) as [k |] eqn:Hsel.
  - destruct (deleteSelectedNode_commits s Hsel) as (_ & _ & Hclosed & Hcommit).
    apply (wellFormed_commit Hcommit); [ | exact Hwf ].
    rewrite Hclosed. intros H. apply andb_true_iff in H. destruct H as [_ H].
    apply Nat.leb_le, H.
  - unfold deleteSelectedNode. rewrite Hsel. exact Hwf.
Qed.

End WellFormed.

Section Sessions.
Context {num : Type} {N : Number num} {I : Infinite num} {M : MathLib num}.
Implicit Types (s : AppState num) (event : MouseEvent num).

(** A step that keeps the closed flag, removes no node, and leaves the path
    and the history alone or commits the path it shows. *)
Lemma wellFormed_step s s' :
  isPathClosed s' = isPathClosed s ->
  length (nodes s) <= length (nodes s') ->
  (nodes s' = nodes s /\ history s' = history s
   /\ historyIndex s' = historyIndex s
   \/ commitOf s s') ->
  wellFormed s -> wellFormed s'.
Proof.
  intros Hc Hlen [(Hn & Hh & Hi) | Hcommit] Hwf.
  - apply (wellFormed_same (s := s)); auto. rewrite Hn. reflexivity.
  - apply (wellFormed_commit Hcommit); [ | exact Hwf ].
    destruct Hwf as (_ & Hclosed & _). rewrite Hc. intros H.
    specialize (Hclosed H). lia.
Qed.

Lemma handleMouseUp_outcome event s :
  exists s',
    handleMouseUp event s = Ok s'
    /\ isPathClosed s' = isPathClosed s
    /\ length (nodes s) <= length (nodes s')
    /\ (nodes s' = nodes s /\ history s' = history s
        /\ historyIndex s' = historyIndex s
        \/ commitOf s s').
Proof.
  unfold handleMouseUp.
  set (s1 := if isPanning s then set_panStartPos None (setIsPanning false s) else s).
  assert (Hf : nodes s1 = nodes s /\ isPathClosed s1 = isPathClosed s
               /\ history s1 = history s /\ historyIndex s1 = historyIndex s)
    by (unfold s1; destruct (isPanning s); repeat split).
  clearbody s1. destruct Hf as (F1 & F2 & F3 & F4).
  assert (Hcommit : forall (nn : list (Node num)) (f : AppState num -> AppState num),
            (forall st, nodes (f st) = nodes st /\ isPathClosed (f st) = isPathClosed st
                        /\ history (f st) = history st
                        /\ historyIndex (f st) = historyIndex st) ->
            commitOf s (f (updateStateAndHistory nn (isPathClosed s1) s1))).
  { intros nn f Hf.
    destruct (Hf (updateStateAndHistory nn (isPathClosed s1) s1)) as (G1 & G2 & G3 & G4).
    destruct (commit_history s1 nn (isPathClosed s1)) as (Hh & Hi & Hn & Hc).
    cbv zeta in Hh, Hi, Hn, Hc.
    unfold commitOf. rewrite G1, G2, G3, G4, Hn, Hc, Hi, Hh, F3, F4.
    split; reflexivity. }
  destruct (getSVGCoordinates event s1) as [point |].
  2: { exists s1. split; [ reflexivity | ]. split; [ exact F2 | ].
       split; [ rewrite F1; lia | left; auto ]. }
  destruct (draggedInfo s1) as [target |].
  { cbn [bind]. eexists. split; [ reflexivity | ].
    split; [ cbn; exact F2 | ]. split; [ cbn; rewrite F1; lia | ].
    right. apply (Hcommit (nodes s1)
                    (fun st => set_mouseDownPos None (setDraggedInfo None st))).
    intros st. repeat split. }
  destruct (negb (wasDragging s1) && negb (ctrlKey event) && negb (isSpacePressed s1)).
  - destruct (appendNode_commits {| x := snap s1 (x point); y := snap s1 (y point) |} s1)
      as (nn & Happ & Hlen).
    rewrite Happ. cbn [bind]. eexists. split; [ reflexivity | ].
    split; [ cbn; exact F2 | ]. split; [ cbn; rewrite Hlen, F1; lia | ].
    right. apply (Hcommit nn
                    (fun st => set_mouseDownPos None
                                 (setDraggedInfo None
                                    (setSelectedNodeIndex (Some (length nn - 1)) st)))).
    intros st. repeat split.
  - cbn [bind]. eexists. split; [ reflexivity | ].
    split; [ cbn; exact F2 | ]. split; [ cbn; rewrite F1; lia | ].
    left. cbn. auto.
Qed.

Lemma wellFormed_toggleClosePath s :
  3 <= length (nodes s) -> wellFormed s ->
  exists s', toggleClosePath s = Ok s' /\ wellFormed s'.
Proof.
  intros Hlen Hwf. unfold toggleClosePath.
  assert (Hdone : forall nn : list (Node num),
            length nn = length (nodes s) ->
            wellFormed (updateStateAndHistory nn (negb (isPathClosed s)) s)).
  { intros nn Hnn.
    destruct (commit_history s nn (negb (isPathClosed s))) as (Hh & Hi & Hn & Hc).
    cbv zeta in Hh, Hi, Hn, Hc.
    apply (wellFormed_commit (s := s)); [ | | exact Hwf ].
    - apply commitOf_commit.
    - rewrite Hn, Hnn. intros _. exact Hlen. }
  destruct (negb (isPathClosed s) && (2 <=? length (nodes s))%nat).
  - destruct (get_in_range (nodes s) (i := 0)) as [firstNode Hfirst]; [ lia | ].
    destruct (get_in_range (nodes s) (i := length (nodes s) - 1))
      as [lastNode Hlast]; [ lia | ].
    rewrite Hfirst, Hlast. cbn [bind].
    eexists. split; [ reflexivity | ].
    apply Hdone. rewrite !update_length. reflexivity.
  - cbn [bind]. eexists. split; [ reflexivity | ]. apply Hdone. reflexivity.
Qed.

Lemma wellFormed_handleKeyDown (event : KeyboardEvent) s :
  wellFormed s -> exists s', handleKeyDown event s = Ok s' /\ wellFormed s'.
Proof.
  intros Hwf. unfold handleKeyDown.
  set (s1 := if (key event =? " ")%string && negb (isSpacePressed s)
             then setIsSpacePressed true s else s).
  assert (H1 : wellFormed s1) by (unfold s1; destruct (_ && _); exact Hwf).
  clearbody s1.
  set (s2 := if (key event =? "Delete")%string || (key event =? "Backspace")%string
             then deleteSelectedNode s1 else s1).
  assert (H2 : wellFormed s2)
    by (unfold s2; destruct (_ || _); [ apply wellFormed_delete | ]; exact H1).
  clearbody s2.
  destruct (wellFormed_undo H2) as (u & Hu & Hwu).
  destruct ((key_ctrlKey event || metaKey event) && (key event =? "z")%string).
  - rewrite Hu. cbn [bind].
    destruct (wellFormed_redo Hwu) as (r & Hr & Hwr).
    destruct ((key_ctrlKey event || metaKey event) && (key event =? "y")%string);
      eauto.
  - cbn [bind].
    destruct (wellFormed_redo H2) as (r & Hr & Hwr).
    destruct ((key_ctrlKey event || metaKey event) && (key event =? "y")%string);
      eauto.
Qed.

Lemma wellFormed_dispatch (c : Command num) s s' :
  wellFormed s -> dispatch c s = Ok s' -> wellFormed s'.
Proof.
  intros Hwf Hrun. destruct c as [event | event | event | | event | event | event
                                  | | | | | | | ]; cbn [dispatch] in Hrun.
  - destruct (handleMouseDown_outcome event s) as (s1 & H1 & _ & Hc & _ & Hlen & Hh & _).
    rewrite H1 in Hrun. inversion Hrun. subst s1.
    exact (wellFormed_step Hc Hlen Hh Hwf).
  - destruct (handleMouseMove_frame _ _ Hrun)
      as (A1 & A2 & A3 & _ & _ & _ & _ & _ & _ & _ & _ & A6 & _).
    apply (wellFormed_same (s := s)); assumption.
  - destruct (handleMouseUp_outcome event s) as (s1 & H1 & Hc & Hlen & Hh).
    rewrite H1 in Hrun. inversion Hrun. subst s1.
    exact (wellFormed_step Hc Hlen Hh Hwf).
  - inversion Hrun. subst s'. unfold handleMouseLeave.
    destruct (draggedInfo s).
    + apply (wellFormed_commit (s := s)); [ | | exact Hwf ].
      * exact (commitOf_commit s (nodes s) (isPathClosed s)).
      * cbn. destruct Hwf as (_ & Hclosed & _). exact Hclosed.
    + apply (wellFormed_same (s := s)); auto.
  - inversion Hrun. subst s'. unfold handleWheel.
    destruct (svgRef s); [ | exact Hwf ].
    destruct (neq _ _); [ exact Hwf | ].
    apply (wellFormed_same (s := s)); auto.
  - destruct (wellFormed_handleKeyDown event Hwf) as (s1 & H1 & Hw1).
    rewrite H1 in Hrun. inversion Hrun. subst s1. exact Hw1.
  - inversion Hrun. subst s'. unfold handleKeyUp.
    destruct (key event =? " ")%string; [ | exact Hwf ].
    apply (wellFormed_same (s := s)); auto.
  - unfold button in Hrun. destruct (historyIndex s =? 0)%nat.
    + inversion Hrun. subst s'. exact Hwf.
    + destruct (wellFormed_undo Hwf) as (s1 & H1 & Hw1).
      rewrite H1 in Hrun. inversion Hrun. subst s1. exact Hw1.
  - unfold button in Hrun. destruct (historyIndex s + 1 =? length (history s))%nat.
    + inversion Hrun. subst s'. exact Hwf.
    + destruct (wellFormed_redo Hwf) as (s1 & H1 & Hw1).
      rewrite H1 in Hrun. inversion Hrun. subst s1. exact Hw1.
  - unfold button in Hrun.
    destruct (Nat.ltb_spec (length (nodes s)) 3) as [Hshort | Hlen].
    + inversion Hrun. subst s'. exact Hwf.
    + destruct (wellFormed_toggleClosePath Hlen Hwf) as (s1 & H1 & Hw1).
      rewrite H1 in Hrun. inversion Hrun. subst s1. exact Hw1.
  - unfold button in Hrun. destruct (_ || _).
    + inversion Hrun. subst s'. exact Hwf.
    + inversion Hrun. subst s'. unfold toggleApplySymmetry.
      destruct (symmetryState s); apply (wellFormed_same (s := s)); auto.
  - inversion Hrun. subst s'. apply (wellFormed_same (s := s)); auto.
  - unfold button in Hrun. destruct (selectedNodeIndex s) eqn:Hsel.
    + inversion Hrun. subst s'. apply wellFormed_delete, Hwf.
    + inversion Hrun. subst s'. exact Hwf.
  - inversion Hrun. subst s'. unfold clearCanvas.
    apply (wellFormed_commit (s := s)); [ | | exact Hwf ].
    + exact (commitOf_commit s [] false).
    + cbn. discriminate.
Qed.

Lemma wellFormed_session (cs : list (Command num)) : forall s s',
  wellFormed s -> session cs s = Ok s' -> wellFormed s'.
Proof.
  induction cs as [| c rest IH]; intros s s' Hwf Hrun; cbn [session] in Hrun.
  - inversion Hrun. subst s'. exact Hwf.
  - destruct (dispatch c s) as [s1 | | |] eqn:H1; try discriminate.
    cbn [bind] in Hrun.
    exact (IH _ _ (wellFormed_dispatch c Hwf H1) Hrun).
Qed.

(** X28. Whatever the events (pointer, wheel, keys, clicks on the toolbar
    buttons that are enabled), every state a session reaches from the mounted
    initial state has its history index inside the history, shows a closed
    path only with at least 3 nodes, holds only such entries in its history,
    and undo and redo return on it. *)
Theorem session_keeps_path_and_history_well_formed (cs : list (Command num))
    (svg : option (Rect num)) (clientWidth clientHeight : num) s :
  session cs (mountEffect clientWidth clientHeight (initialState svg)) = Ok s ->
  historyIndex s < length (history s)
  /\ (isPathClosed s = true -> 3 <= length (nodes s))
  /\ (forall entry, In entry (history s) ->
        hs_isPathClosed entry = true -> 3 <= length (hs_nodes entry))
  /\ (exists s', undo s = Ok s')
  /\ (exists s', redo s = Ok s').
Proof.
  intros Hrun.
  assert (Hinit : wellFormed (mountEffect clientWidth clientHeight (initialState svg))).
  { apply (wellFormed_same (s := initialState svg)).
    - unfold mountEffect. destruct (svgRef _); reflexivity.
    - unfold mountEffect. destruct (svgRef _); reflexivity.
    - unfold mountEffect. destruct (svgRef _); reflexivity.
    - unfold mountEffect. destruct (svgRef _); reflexivity.
    - unfold wellFormed. cbn. split; [ lia | ]. split; [ discriminate | ].
      constructor; [ | constructor ]. unfold wellFormedEntry. cbn. discriminate. }
  pose proof (wellFormed_session cs Hinit Hrun) as Hwf.
  pose proof Hwf as (Hi & Hc & Hall).
  split; [ exact Hi | ]. split; [ exact Hc | ].
  split; [ rewrite Forall_forall in Hall; exact Hall | ].
  destruct (wellFormed_undo Hwf) as (u & Hu & _).
  destruct (wellFormed_redo Hwf) as (r & Hr & _).
  split; eauto.
Qed.

End Sessions.

(** Witness of X28: a click on the empty canvas, the snap toggle, a wheel
    tick, Ctrl+Z, the redo button and the clear button, in binary64. *)
Lemma session_keeps_path_and_history_well_formed_witness :
  let click := {| clientX := 100%float; clientY := 50%float; ctrlKey := false;
                  deltaY := (-1)%float |} in
  let ctrlZ := {| key := "z"; key_ctrlKey := true; metaKey := false |} in
  exists s : AppState float,
    @session float IEEE IEEE_Infinity exampleMath
      [ MouseDown click; MouseUp click; ClickSnap; Wheel click; KeyDown ctrlZ;
        ClickRedo; ClickClearCanvas ]
      (mountEffect 800%float 600%float (initialState (Some canvasAtOrigin))) = Ok s
    /\ historyIndex s < length (history s)
    /\ exists s', undo s = Ok s'.
Proof.
  intros click ctrlZ.
  assert (Hrun : exists s : AppState float,
            @session float IEEE IEEE_Infinity exampleMath
              [ MouseDown click; MouseUp click; ClickSnap; Wheel click;
                KeyDown ctrlZ; ClickRedo; ClickClearCanvas ]
              (mountEffect 800%float 600%float (initialState (Some canvasAtOrigin)))
            = Ok s)
    by (vm_compute; eexists; reflexivity).
  destruct Hrun as [s Hrun].
  destruct (@session_keeps_path_and_history_well_formed float IEEE IEEE_Infinity
              exampleMath _ _ _ _ s Hrun) as (Hi & _ & _ & Hundo & _).
  exists s. split; [ exact Hrun | ]. split; [ exact Hi | exact Hundo ].
Defined.

(** ** Edits that copy the nodes they change *)

(** X29. At the level of node objects, on a store where the live array can be
    read: a drag step on a node of the path, and an append, return; they
    leave what a history entry up to the current index shows as it was; and
    the array they leave denotes the node values that [dragNode] and
    [appendNode] compute on the values of the live path. *)
Theorem copying_edits_keep_history {num : Type} {N : Number num} {M : MathLib num}
    (s : Heap.State (num := num)) (vals : list (Node num)) (k : nat)
    (v : list (Node num) * bool) :
  Heap.read (Heap.objects s) (Heap.nodes s) = Ok vals ->
  Heap.snapshot s k = Ok v ->
  k <= Heap.historyIndex s ->
  (forall (index : nat) (role : DragType) (p : Point num),
     index < length (Heap.nodes s) ->
     exists s' node,
       Heap.drag index role p s = Ok s'
       /\ Heap.snapshot s' k = Ok v
       /\ get vals index = Ok node
       /\ Heap.read (Heap.objects s') (Heap.nodes s')
          = Ok (update vals index (dragNode role p node)))
  /\ (forall (p : Point num) (st : AppState num),
        nodes st = vals ->
        exists s' st',
          Heap.appendNode p s = Ok s'
          /\ Heap.snapshot s' k = Ok v
          /\ appendNode p st = Ok st'
          /\ Heap.read (Heap.objects s') (Heap.nodes s') = Ok (nodes st')).
Proof.
  intros Hread Hsnap Hk. split.
  - intros index role p Hindex.
    destruct (heap_drag_returns s role p Hread Hindex) as [s' Hrun].
    destruct (heap_drag_refines _ _ _ _ Hread Hrun) as (node & Hnode & Hvals).
    exists s', node. split; [ exact Hrun | ].
    split; [ eapply drag_keeps_snapshots; eassumption | ]. auto.
  - intros p st Hst.
    destruct (heap_appendNode_returns s p Hread) as [s' Hrun].
    destruct (heap_appendNode_refines _ _ _ Hread Hst Hrun) as (st' & Happ & Hvals).
    exists s', st'. split; [ exact Hrun | ].
    split; [ eapply appendNode_keeps_snapshots; eassumption | ]. auto.
Qed.

(** Witness of X29: a drag of the first anchor on the store left by two
    clicks. *)
Lemma copying_edits_keep_history_witness :
  let p := {| x := 10%float; y := 10%float |} in
  exists (s' : Heap.State (num := float)) v,
    Heap.snapshot twoClicks 2 = Ok v
    /\ @Heap.drag float IEEE exampleMath 0 drag_anchor p twoClicks = Ok s'
    /\ Heap.snapshot s' 2 = Ok v.
Proof.
  intros p.
  assert (Hread : exists vals,
            Heap.read (Heap.objects (twoClicks (num := float)))
              (Heap.nodes twoClicks) = Ok vals)
    by (vm_compute; eexists; reflexivity).
  destruct Hread as [vals Hread].
  assert (Hsnap : exists v, Heap.snapshot (twoClicks (num := float)) 2 = Ok v)
    by (vm_compute; eexists; reflexivity).
  destruct Hsnap as [v Hsnap].
  destruct (@copying_edits_keep_history float IEEE exampleMath twoClicks vals 2 v
              Hread Hsnap ltac:(cbn; lia)) as [Hdrag _].
  destruct (Hdrag 0 drag_anchor p ltac:(cbn; lia)) as (s' & node & Hrun & Hkept & _).
  exists s', v. split; [ exact Hsnap | ]. split; [ exact Hrun | exact Hkept ].
Defined.

(** ** Path data *)

Lemma string_append_assoc (a b c : string) :
  ((a ++ b) ++ c)%string = (a ++ (b ++ c))%string.
Proof.
  induction a as [| ch a IH]; cbn; [ reflexivity | rewrite IH; reflexivity ].
Qed.

Lemma string_append_empty (a : string) : (a ++ "")%string = a.
Proof.
  induction a as [| ch a IH]; cbn; [ reflexivity | rewrite IH; reflexivity ].
Qed.

Section PathDataFacts.
Context {num : Type} {T : NumberToString num}.

(** The loop over the segments [from .. from + count - 1] appends one curve
    command for each, in order. *)
Lemma generatePathData_loop (pathNodes : list (Node num)) (count : nat) :
  forall (from : nat) (d : string),
    from + count <= length pathNodes ->
    exists pieces : list string,
      for_loop from count
        (fun i d =>
           let* node1 := get pathNodes i in
           let* node2 := get pathNodes ((i + 1) mod length pathNodes) in
           Ok (d ++ curveTo node1 node2)%string) d
      = Ok (d ++ fold_right String.append ""%string pieces)%string
      /\ length pieces = count
      /\ forall i, i < count ->
           exists node1 node2,
             get pathNodes (from + i) = Ok node1
             /\ get pathNodes ((from + i + 1) mod length pathNodes) = Ok node2
             /\ nth_error pieces i = Some (curveTo node1 node2).
Proof.
  induction count as [| c IH]; intros from d Hle; cbn [for_loop].
  - exists []. cbn [fold_right]. rewrite string_append_empty.
    split; [ reflexivity | ]. split; [ reflexivity | ]. intros i Hi. lia.
  - destruct (get_in_range pathNodes (i := from)) as [node1 H1]; [ lia | ].
    destruct (get_in_range pathNodes (i := (from + 1) mod length pathNodes))
      as [node2 H2]; [ apply Nat.mod_upper_bound; lia | ].
    rewrite H1, H2. cbn [bind].
    destruct (IH (S from) (d ++ curveTo node1 node2)%string ltac:(lia))
      as (pieces & Hrun & Hlen & Hpieces).
    exists (curveTo node1 node2 :: pieces).
    split; [ rewrite Hrun; cbn [fold_right]; rewrite string_append_assoc;
             reflexivity | ].
    split; [ cbn [length]; lia | ].
    intros [| i] Hi.
    + rewrite Nat.add_0_r. exists node1, node2. auto.
    + destruct (Hpieces i ltac:(lia)) as (n1 & n2 & G1 & G2 & G3).
      exists n1, n2. replace (from + S i) with (S from + i) by lia. auto.
Qed.

(** X30. [generatePathData] always returns. It is the empty string for an empty
    path; otherwise it is the move to the first anchor, then one curve
    command for each segment in order (as many as there are nodes when closed,
    one less when open), holding the outgoing handle, the next node's incoming
    handle and the next node's anchor, then [" Z"] exactly when closed. *)
Theorem generatePathData_draws_each_segment (pathNodes : list (Node num))
    (closed : bool) :
  exists d,
    generatePathData pathNodes closed = Ok d
    /\ (pathNodes = [] -> d = ""%string)
    /\ forall node0 rest, pathNodes = node0 :: rest ->
         exists pieces : list string,
           length pieces
           = (if closed then length pathNodes else length pathNodes - 1)
           /\ (forall i, i < length pieces ->
                 exists node1 node2,
                   get pathNodes i = Ok node1
                   /\ get pathNodes ((i + 1) mod length pathNodes) = Ok node2
                   /\ nth_error pieces i = Some (curveTo node1 node2))
           /\ d = ("M " ++ toString (x (anchor node0)) ++ " "
                   ++ toString (y (anchor node0))
                   ++ fold_right String.append "" pieces
                   ++ (if closed then " Z" else ""))%string.
Proof.
  unfold generatePathData.
  destruct pathNodes as [| node0 rest].
  - exists ""%string. split; [ reflexivity | ]. split; [ reflexivity | ].
    intros n r H. discriminate.
  - cbn [length Nat.eqb get nth_error bind].
    set (arr := node0 :: rest).
    set (count := if closed then S (length rest) else S (length rest) - 1).
    destruct (@generatePathData_loop arr count 0
                ("M " ++ toString (x (anchor node0)) ++ " "
                 ++ toString (y (anchor node0)))%string)
      as (pieces & Hrun & Hlen & Hpieces).
    { unfold count, arr. cbn [length]. destruct closed; lia. }
    change (length arr) with (S (length rest)) in Hrun.
    rewrite Hrun. cbn [bind].
    eexists. split; [ reflexivity | ]. split; [ discriminate | ].
    intros n r Heq. inversion Heq. subst n r.
    exists pieces. split; [ exact Hlen | ].
    split.
    { intros i Hi. rewrite Hlen in Hi. apply (Hpieces i Hi). }
    destruct closed.
    + rewrite !string_append_assoc. reflexivity.
    + rewrite string_append_empty, !string_append_assoc. reflexivity.
Qed.

End PathDataFacts.
